(** * mpcalc: the expression rewriter of [mpcalc.py]

    A shallow embedding of the command-line calculator [mpcalc.py] and the
    properties of its rewriting pipeline: validation of the character set,
    qualification of names with [mp.], extraction of number literals into
    the [NUMBERS] table, removal of backslashes, evaluation and printing.

    The program is regular-expression driven.  The part of Python's [re]
    that it uses (character sets, concatenation, alternation, greedy [?] and
    set-[*], one-character negative lookbehind and lookahead, capture
    groups) is embedded as a backtracking matcher; the patterns are
    transcribed from the source as syntax trees of that matcher. *)

From Stdlib Require Import String Ascii List NArith ZArith Bool Lia Btauto.
Import ListNotations.

Set Implicit Arguments.

(** ** Python strings *)

(** A Python [str] is a sequence of Unicode code points. *)
Definition char := N.
Definition pystr := list char.

Definition chr (a : ascii) : char := N_of_ascii a.
Definition str (s : string) : pystr := map chr (list_ascii_of_string s).

Fixpoint pystr_eqb (s t : pystr) : bool :=
  match s, t with
  | [], [] => true
  | x :: s', y :: t' => N.eqb x y && pystr_eqb s' t'
  | _, _ => false
  end.

(** [s.startswith(p)], with what follows the prefix. *)
Fixpoint strip_prefix (p s : pystr) : option pystr :=
  match p with
  | [] => Some s
  | x :: p' =>
      match s with
      | y :: s' => if N.eqb x y then strip_prefix p' s' else None
      | [] => None
      end
  end.

(** [s.replace(old, new)]: leftmost non-overlapping occurrences of [old].
    [skip] counts the characters of an occurrence still to be passed over.
    With an empty [old] Python puts [new] before every character and at the
    end. *)
Fixpoint replace_from (old new : pystr) (s : pystr) (skip : nat) : pystr :=
  match s with
  | [] => match old with [] => new | _ :: _ => [] end
  | c :: rest =>
      match skip with
      | S k => replace_from old new rest k
      | O =>
          match strip_prefix old s with
          | Some _ =>
              match length old with
              | O => new ++ c :: replace_from old new rest 0
              | S k => new ++ replace_from old new rest k
              end
          | None => c :: replace_from old new rest 0
          end
      end
  end.

Definition str_replace (old new s : pystr) : pystr := replace_from old new s 0.

(** ** The fragment of [re] used by the program *)

Module Re.

(** Members of a character set [[...]]. *)
Inductive citem : Type :=
| Chr (c : char)            (* a literal character, escaped or not *)
| Rng (lo hi : char)        (* lo-hi *)
| Digit                     (* \d under re.ASCII *)
| Space.                    (* \s of a str pattern compiled without re.ASCII *)

Definition cset := list citem.

Definition in_range (lo hi c : char) : bool := N.leb lo c && N.leb c hi.

(** Unicode white space as [str.isspace] has it. *)
Definition is_space (c : char) : bool :=
  (in_range 9 13 c || in_range 28 32 c || N.eqb c 133 || N.eqb c 160
   || N.eqb c 5760 || in_range 8192 8202 c || N.eqb c 8232 || N.eqb c 8233
   || N.eqb c 8239 || N.eqb c 8287 || N.eqb c 12288)%N.

Definition item_mem (c : char) (i : citem) : bool :=
  match i with
  | Chr x => N.eqb c x
  | Rng lo hi => in_range lo hi c
  | Digit => in_range (chr "0") (chr "9") c
  | Space => is_space c
  end.

Definition mem (cs : cset) (c : char) : bool := existsb (item_mem c) cs.

Inductive regex : Type :=
| OneOf (cs : cset)               (* [...] and single characters *)
| NoneOf (cs : cset)              (* [^...] *)
| Cat (r1 r2 : regex)             (* r1 r2 *)
| Or (r1 r2 : regex)              (* r1|r2 *)
| Opt (r : regex)                 (* r? *)
| Many (cs : cset)                (* [...]* *)
| NotBehind (cs : cset)           (* (?<![...]) *)
| NotAhead (cs : cset)            (* (?![...]) *)
| Group (n : nat) (r : regex).    (* the n-th capturing group *)

Definition Lit (a : ascii) : regex := OneOf [Chr (chr a)].

(** A position in the subject: the characters before it, nearest first,
    and the characters from it on. *)
Record cursor : Type := Cursor { before : list char; after : list char }.

Definition groups := list (nat * pystr).

(** The characters between a position and a later one. *)
Definition between (c c' : cursor) : pystr :=
  firstn (length (after c) - length (after c')) (after c).

Definition one (p : char -> bool) (c : cursor) : list cursor :=
  match after c with
  | x :: rest => if p x then [Cursor (x :: before c) rest] else []
  | [] => []
  end.

Definition behind_free (cs : cset) (c : cursor) : bool :=
  match before c with
  | x :: _ => negb (mem cs x)
  | [] => true
  end.

Definition ahead_free (cs : cset) (c : cursor) : bool :=
  match after c with
  | x :: _ => negb (mem cs x)
  | [] => true
  end.

(** [[...]*] is greedy: the longest run is tried first, then shorter ones. *)
Fixpoint many (cs : cset) (bef aft : list char) : list cursor :=
  match aft with
  | x :: rest =>
      (if mem cs x then many cs (x :: bef) rest else []) ++ [Cursor bef aft]
  | [] => [Cursor bef aft]
  end.

(** The backtracking matcher: every way for [r] to match from a position,
    in the order in which [re] tries them.  The first one that lets the rest
    of the pattern succeed is the match. *)
Fixpoint ends (r : regex) (st : cursor * groups) : list (cursor * groups) :=
  let (c, g) := st in
  match r with
  | OneOf cs => map (fun c' => (c', g)) (one (mem cs) c)
  | NoneOf cs => map (fun c' => (c', g)) (one (fun x => negb (mem cs x)) c)
  | Cat r1 r2 => flat_map (ends r2) (ends r1 st)
  | Or r1 r2 => ends r1 st ++ ends r2 st
  | Opt r1 => ends r1 st ++ [st]
  | Many cs => map (fun c' => (c', g)) (many cs (before c) (after c))
  | NotBehind cs => if behind_free cs c then [st] else []
  | NotAhead cs => if ahead_free cs c then [st] else []
  | Group n r1 =>
      map (fun st' => (fst st', (n, between c (fst st')) :: snd st'))
          (ends r1 st)
  end.

(** A match object: [m[0]] and the numbered groups. *)
Record re_match : Type := Match { m_text : pystr; m_groups : groups }.

Fixpoint assoc (n : nat) (g : groups) : option pystr :=
  match g with
  | [] => None
  | (k, t) :: g' => if Nat.eqb k n then Some t else assoc n g'
  end.

Definition group (m : re_match) (n : nat) : option pystr :=
  match n with
  | O => Some (m_text m)
  | S _ => assoc n (m_groups m)
  end.

(** [pattern.match] anchored at a position of the subject. *)
Definition match_at (r : regex) (bef aft : list char) : option re_match :=
  match ends r (Cursor bef aft, []) with
  | (c', g) :: _ => Some (Match (between (Cursor bef aft) c') g)
  | [] => None
  end.

(** [pattern.search]: the match at the leftmost position that has one. *)
Fixpoint search_from (r : regex) (bef aft : list char) : option re_match :=
  match match_at r bef aft with
  | Some m => Some m
  | None =>
      match aft with
      | x :: rest => search_from r (x :: bef) rest
      | [] => None
      end
  end.

Definition search (r : regex) (s : pystr) : option re_match :=
  search_from r [] s.

(** The subject cut into the pieces [re.sub] works on: matches, found left
    to right without overlap, and the characters between them.  [skip]
    counts the characters of the last match still to be passed over.  (After
    an empty match [re] copies one character and goes on; none of the
    program's patterns matches the empty string.) *)
Inductive piece : Type :=
| Gap (x : char)
| Hit (m : re_match).

Fixpoint scan (r : regex) (bef aft : list char) (skip : nat) {struct aft}
  : list piece :=
  match skip with
  | S k =>
      match aft with
      | x :: rest => scan r (x :: bef) rest k
      | [] => []
      end
  | O =>
      match match_at r bef aft with
      | Some m =>
          Hit m :: match aft with
                   | x :: rest =>
                       match length (m_text m) with
                       | O => Gap x :: scan r (x :: bef) rest 0
                       | S k => scan r (x :: bef) rest k
                       end
                   | [] => []
                   end
      | None =>
          match aft with
          | x :: rest => Gap x :: scan r (x :: bef) rest 0
          | [] => []
          end
      end
  end.

Definition pieces (r : regex) (s : pystr) : list piece := scan r [] s 0.

(** A replacement template such as [r"mp.\1"]. *)
Inductive titem : Type :=
| TText (t : pystr)
| TGroup (n : nat).

Definition expand (template : list titem) (m : re_match) : pystr :=
  flat_map (fun i => match i with
                     | TText t => t
                     | TGroup n => match group m n with
                                   | Some t => t
                                   | None => []
                                   end
                     end) template.

(** [re.sub(pattern, template, s)]. *)
Definition sub (r : regex) (template : list titem) (s : pystr) : pystr :=
  flat_map (fun p => match p with
                     | Gap x => [x]
                     | Hit m => expand template m
                     end) (pieces r s).

(** *** What a match is, read off the pattern

    [advance c t c'] says that [c'] lies [t] further in the subject than
    [c]; [reaches r c c'] that [r] can match from [c] to [c']. *)
Definition advance (c : cursor) (t : pystr) (c' : cursor) : Prop :=
  before c' = rev t ++ before c /\ after c = t ++ after c'.

Fixpoint reaches (r : regex) (c c' : cursor) : Prop :=
  match r with
  | OneOf cs => exists x, mem cs x = true /\ advance c [x] c'
  | NoneOf cs => exists x, mem cs x = false /\ advance c [x] c'
  | Cat r1 r2 => exists c1, reaches r1 c c1 /\ reaches r2 c1 c'
  | Or r1 r2 => reaches r1 c c' \/ reaches r2 c c'
  | Opt r1 => reaches r1 c c' \/ c' = c
  | Many cs => exists t, forallb (mem cs) t = true /\ advance c t c'
  | NotBehind cs => behind_free cs c = true /\ c' = c
  | NotAhead cs => ahead_free cs c = true /\ c' = c
  | Group _ r1 => reaches r1 c c'
  end.

(** Patterns that capture nothing. *)
Fixpoint group_free (r : regex) : bool :=
  match r with
  | Group _ _ => false
  | Cat r1 r2 | Or r1 r2 => group_free r1 && group_free r2
  | Opt r1 => group_free r1
  | _ => true
  end.

(** The longest prefix of characters satisfying [p], and what follows it. *)
Fixpoint span (p : char -> bool) (s : pystr) : pystr * pystr :=
  match s with
  | x :: s' => if p x then let (a, b) := span p s' in (x :: a, b) else ([], s)
  | [] => ([], [])
  end.

End Re.

Import Re.

(** ** The patterns of the program *)

(** [allowed_characters = r"a-zA-Z0-9\s_:=" + re.escape(r"\().+-/*^&|,[]")] *)
Definition allowed_characters : cset :=
  [Rng (chr "a") (chr "z"); Rng (chr "A") (chr "Z"); Rng (chr "0") (chr "9");
   Space; Chr (chr "_"); Chr (chr ":"); Chr (chr "=");
   Chr (chr "\"); Chr (chr "("); Chr (chr ")"); Chr (chr "."); Chr (chr "+");
   Chr (chr "-"); Chr (chr "/"); Chr (chr "*"); Chr (chr "^"); Chr (chr "&");
   Chr (chr "|"); Chr (chr ","); Chr (chr "["); Chr (chr "]")].

(** [disallowed_characters = re.compile(f"[^{allowed_characters}]")] *)
Definition disallowed_characters : regex := NoneOf allowed_characters.

(** [cannot_start_after = r"a-zA-Z\d_" + re.escape(r"\.")] *)
Definition cannot_start_after : cset :=
  [Rng (chr "a") (chr "z"); Rng (chr "A") (chr "Z"); Digit; Chr (chr "_");
   Chr (chr "\"); Chr (chr ".")].

(** [name_pattern], token by token:
    [(?<![{cannot_start_after}])  (  [a-zA-Z_]  [a-zA-Z0-9]*  )] *)
Definition name_pattern : regex :=
  Cat (NotBehind cannot_start_after)
      (Group 1
         (Cat (OneOf [Rng (chr "a") (chr "z"); Rng (chr "A") (chr "Z");
                      Chr (chr "_")])
              (Many [Rng (chr "a") (chr "z"); Rng (chr "A") (chr "Z");
                     Rng (chr "0") (chr "9")]))).

(** [int_pattern = r"\d[\d_]*(?<!_)"] *)
Definition int_pattern : regex :=
  Cat (OneOf [Digit]) (Cat (Many [Digit; Chr (chr "_")])
                           (NotBehind [Chr (chr "_")])).

(** [number_pattern], token by token:
    [(?<![{cannot_start_after}])]
    [(  -?  {int_pattern}  (?:\.{int_pattern})?  (?:e-?{int_pattern})?  )]
    [j?  (?![a-zA-Z\d\._])] *)
Definition number_body : regex :=
  Cat (Opt (Lit "-"))
      (Cat int_pattern
           (Cat (Opt (Cat (Lit ".") int_pattern))
                (Opt (Cat (Lit "e") (Cat (Opt (Lit "-")) int_pattern))))).

Definition cannot_end_before : cset :=
  [Rng (chr "a") (chr "z"); Rng (chr "A") (chr "Z"); Digit; Chr (chr ".");
   Chr (chr "_")].

Definition number_pattern : regex :=
  Cat (NotBehind cannot_start_after)
      (Cat (Group 1 number_body)
           (Cat (Opt (Lit "j")) (NotAhead cannot_end_before))).

(** [open_float_pattern], token by token:
    [(  (?<!\d)  \.  \d  )  |  (  \d  \.  (?!\d)  )] *)
Definition open_float_pattern : regex :=
  Or (Group 1 (Cat (NotBehind [Digit]) (Cat (Lit ".") (OneOf [Digit]))))
     (Group 2 (Cat (OneOf [Digit]) (Cat (Lit ".") (NotAhead [Digit])))).

(** The template [r"mp.\1"]. *)
Definition mp_template : list titem := [TText (str "mp."); TGroup 1].

(** ** Exceptions, the [NUMBERS] dictionary, the [mp] context *)

Inductive exn : Type :=
| ValueError (msg : pystr)
| TypeError (msg : pystr)
| OtherError (cls msg : pystr).

Definition is_TypeError (e : exn) : bool :=
  match e with
  | TypeError _ => true
  | _ => false
  end.

(** The two errors of the validation step, under the names the
    specification gives them.  Both are [ValueError]s in the source. *)
Definition InvalidCharacter (found : pystr) : exn :=
  ValueError (str "Character not allowed: " ++ found).

Definition AmbiguousFloatLiteral : exn :=
  ValueError (str "Open floats ('123.' or '.123') are not allowed.").

(** A [dict] with [str] keys: entries in insertion order, one per key. *)
Definition dict (V : Type) : Type := list (pystr * V).

(** [key in d] *)
Definition dict_contains {V} (key : pystr) (d : dict V) : bool :=
  existsb (fun kv => pystr_eqb (fst kv) key) d.

(** [d[key] = v] *)
Fixpoint dict_set {V} (key : pystr) (v : V) (d : dict V) : dict V :=
  match d with
  | [] => [(key, v)]
  | (k, v0) :: d' =>
      if pystr_eqb k key then (k, v) :: d' else (k, v0) :: dict_set key v d'
  end.

(** [d.get(key)] *)
Fixpoint dict_get {V} (key : pystr) (d : dict V) : option V :=
  match d with
  | [] => None
  | (k, v) :: d' => if pystr_eqb k key then Some v else dict_get key d'
  end.

Definition dict_keys {V} (d : dict V) : list pystr := map fst d.

(** The state of the [mp] context object: the working precision in bits
    and whatever else the library keeps there. *)
Record mp_context (R : Type) : Type := Context { prec : Z; other : R }.

(** What [eval] hands back: a value or an exception, and what running the
    expression did to the objects it was given and to standard output. *)
Record eval_outcome (object R : Type) : Type := Outcome {
  ev_result : exn + object;
  ev_mp : mp_context R;
  ev_numbers : dict object;
  ev_printed : list pystr
}.

(** The collaborators that are not part of the program: [mpmath] and the
    Python evaluator. *)
Class Library : Type := {
  object : Type;                 (* Python objects: mpf, mpc, str, list ... *)
  mp_rest : Type;                (* the state of [mp] besides the precision *)
  dps_to_prec : Z -> Z;          (* decimal digits to bits *)
  (* mp.mpmathify(key) for a str *)
  mpmathify_str : mp_context mp_rest -> pystr -> exn + object;
  (* mp.mpmathify(value) for an evaluated object *)
  mpmathify : mp_context mp_rest -> object -> exn + object;
  (* eval(expression, globals={"NUMBERS": NUMBERS, "mp": mp}) *)
  py_eval : pystr -> dict object -> mp_context mp_rest
            -> eval_outcome object mp_rest
}.

(** ** The program *)

Section Program.
Context {L : Library}.

(** What the program writes to standard output, one entry per call. *)
Inductive printed : Type :=
| DebugLine (label text : pystr)      (* print(f"{label:<25}", text) *)
| DebugTable (label : pystr) (d : dict object)
| DebugResult (v : object)            (* print("Result:", repr(v), sep="\n") *)
| NPrint (v : object) (n : Z) (strip_zeros : bool)    (* mp.nprint *)
| PrintValue (v : object)             (* print(v) *)
| ByEval (text : pystr).              (* printed by the expression itself *)

(** The debug channel: the intermediate strings and the table. *)
Definition diagnostic (p : printed) : bool :=
  match p with
  | DebugLine _ _ | DebugTable _ _ => true
  | _ => false
  end.

(** The calls made to the collaborators, with the working precision they
    were made at.  The program does not read this log; it is kept to state
    what was parsed and evaluated, and how often. *)
Inductive call : Type :=
| Parsed (p : Z) (key : pystr)
| Evaluated (p : Z) (e : pystr) (numbers : dict object).


Definition parsed_key (c : call) : list pystr :=
  match c with
  | Parsed _ key => [key]
  | Evaluated _ _ _ => []
  end.

(** The process: the [mp] context, the module global [NUMBERS], standard
    output, and the log of calls. *)
Record world : Type := World {
  mp : mp_context mp_rest;
  NUMBERS : dict object;
  stdout : list printed;
  calls : list call
}.

(** Statements: they change the world and finish or raise. *)
Definition M (A : Type) : Type := world -> (exn + A) * world.

Definition ret {A} (a : A) : M A := fun w => (inr a, w).
Definition raise {A} (e : exn) : M A := fun w => (inl e, w).
Definition bind {A B} (m : M A) (k : A -> M B) : M B :=
  fun w => match m w with
           | (inr a, w') => k a w'
           | (inl e, w') => (inl e, w')
           end.

Notation "x <- m ;; k" := (bind m (fun x => k))
  (at level 61, m at next level, right associativity).
Notation "m ;; k" := (bind m (fun _ => k))
  (at level 61, right associativity).

Definition print (p : printed) : M unit :=
  fun w => (inr tt, World (mp w) (NUMBERS w) (stdout w ++ [p]) (calls w)).

Definition when (b : bool) (m : M unit) : M unit := if b then m else ret tt.

(** [try: body  except TypeError: handler] *)
Definition try_except_TypeError {A} (body handler : M A) : M A :=
  fun w => match body w with
           | (inl e, w') => if is_TypeError e then handler w' else (inl e, w')
           | done => done
           end.

(** [with mp.workdps(n): body].  Entering keeps the precision and sets
    the one for [n] digits; leaving, normally or by an exception, puts the
    kept precision back. *)
Definition set_prec (p : Z) (w : world) : world :=
  World (Context p (other (mp w))) (NUMBERS w) (stdout w) (calls w).

Definition with_workdps {A} (n : Z) (body : M A) : M A :=
  fun w => let origp := prec (mp w) in
           let (r, w') := body (set_prec (dps_to_prec n) w) in
           (r, set_prec origp w').

(** [NUMBERS = {}] (line 43) *)
Definition set_NUMBERS (d : dict object) (w : world) : world :=
  World (mp w) d (stdout w) (calls w).

(** The same process with other text on standard output; the program
    does not read its output, and this is used to say so. *)
Definition set_stdout (o : list printed) (w : world) : world :=
  World (mp w) (NUMBERS w) o (calls w).

(** What the debug flag adds to standard output. *)
Definition debug_out (b : bool) (ps : list printed) : list printed :=
  if b then ps else [].

Definition reset_NUMBERS : M unit := fun w => (inr tt, set_NUMBERS [] w).

(** [mp.mpmathify(key)] *)
Definition call_mpmathify_str (key : pystr) : M object :=
  fun w => (mpmathify_str (mp w) key,
            World (mp w) (NUMBERS w) (stdout w)
                  (calls w ++ [Parsed (prec (mp w)) key])).

(** [NUMBERS[key] = v] *)
Definition store (key : pystr) (v : object) : M unit :=
  fun w => (inr tt, set_NUMBERS (dict_set key v (NUMBERS w)) w).

(** The text [NUMBERS['key']]. *)
Definition lookup (key : pystr) : pystr :=
  str "NUMBERS['" ++ key ++ str "']".

(** [replace_number_with_mpf] (lines 44-52) *)
Definition replace_number_with_mpf (m : re_match) : M pystr :=
  let key := m_text m in
  (fun w =>
     if negb (dict_contains key (NUMBERS w)) then
       (v <- call_mpmathify_str key ;; store key v) w
     else (inr tt, w)) ;;
  ret (lookup key).

(** [re.sub(pattern, function, s)]: the function is called on the matches
    from left to right. *)
Fixpoint sub_pieces (f : re_match -> M pystr) (ps : list piece) : M pystr :=
  match ps with
  | [] => ret []
  | Gap x :: ps' => rest <- sub_pieces f ps' ;; ret (x :: rest)
  | Hit m :: ps' => t <- f m ;; rest <- sub_pieces f ps' ;; ret (t ++ rest)
  end.

Definition sub_with (r : regex) (f : re_match -> M pystr) (s : pystr)
  : M pystr := sub_pieces f (pieces r s).

(** The command line, parsed. *)
Record arguments : Type := Args {
  expression : pystr;
  digits : Z;
  all : bool;
  debug : bool
}.


(** Lines 64-67: the character check, then the open-float check. *)
Definition validate (expression : pystr) : option exn :=
  match search disallowed_characters expression with
  | Some m => Some (InvalidCharacter (m_text m))
  | None =>
      match search open_float_pattern expression with
      | Some _ => Some AmbiguousFloatLiteral
      | None => None
      end
  end.

(** Line 71 *)
Definition qualify_names (expression : pystr) : pystr :=
  sub name_pattern mp_template expression.

(** Line 75 *)
Definition extract_numbers (expression : pystr) : M pystr :=
  sub_with number_pattern replace_number_with_mpf expression.

(** Line 80 *)
Definition strip_backslashes (expression : pystr) : pystr :=
  str_replace (str "\") [] expression.

(** Line 83 *)
Definition evaluate (expression : pystr) : M object :=
  fun w => let o := py_eval expression (NUMBERS w) (mp w) in
           (ev_result o,
            World (ev_mp o) (ev_numbers o)
                  (stdout w ++ map ByEval (ev_printed o))
                  (calls w ++ [Evaluated (prec (mp w)) expression (NUMBERS w)])).

Definition call_mpmathify (v : object) : M object :=
  fun w => (mpmathify (mp w) v, w).

(** Lines 84-92 *)
Definition output (a : arguments) (value : object) : M unit :=
  if debug a then print (DebugResult value)
  else if all a then
    try_except_TypeError
      (v <- call_mpmathify value ;; print (NPrint v (digits a) false))
      (print (NPrint value (digits a) false))
  else print (PrintValue value).

(** Lines 71-81: the three rewriting steps. *)
Definition rewrite (a : arguments) (e0 : pystr) : M pystr :=
  let e1 := qualify_names e0 in
  when (debug a) (print (DebugLine (str "Replaced names:") e1)) ;;
  e2 <- extract_numbers e1 ;;
  when (debug a) (print (DebugLine (str "Replaced numbers:") e2)) ;;
  (fun w => when (debug a)
              (print (DebugTable (str "Contents of NUMBERS:") (NUMBERS w)))
              w) ;;
  let e3 := strip_backslashes e2 in
  when (debug a) (print (DebugLine (str "Removed backslashes:") e3)) ;;
  ret e3.

(** Lines 69-92: the body of the [with] block. *)
Definition body (a : arguments) : M unit :=
  e3 <- rewrite a (expression a) ;;
  value <- evaluate e3 ;;
  output a value.

(** Lines 56-92: the body of [if __name__ == "__main__"]. *)
Definition main (a : arguments) : M unit :=
  when (debug a) (print (DebugLine (str "Input:") (expression a))) ;;
  match validate (expression a) with
  | Some e => raise e
  | None => with_workdps (digits a) (body a)
  end.

(** The module run as a script: the global is bound, then the main block
    runs. *)
Definition script (a : arguments) : M unit :=
  reset_NUMBERS ;; main a.

End Program.

(** A library to run the program against on examples: an object is the
    text it came from.  Parsing a literal yields its text, evaluating an
    expression yields the expression, and [mp.mpmathify] of an object that is
    a list display raises [TypeError], as it does for a Python list.  A
    decimal digit is counted as about 3.32 bits. *)
Definition text_mpmathify (v : pystr) : exn + pystr :=
  match v with
  | x :: _ => if N.eqb x (chr "[")
              then inl (TypeError (str "cannot create mpf from " ++ v))
              else inr v
  | [] => inr v
  end.

Definition text_library : Library := {|
  object := pystr;
  mp_rest := unit;
  dps_to_prec := fun n => Z.max 1 (((n + 1) * 3322 + 500) / 1000);
  mpmathify_str := fun _ key => inr key;
  mpmathify := fun _ v => text_mpmathify v;
  py_eval := fun e numbers ctx => Outcome (inr e) ctx numbers []
|}.

(** A process that has just started: 53 bits, nothing printed. *)
Definition fresh_world : @world text_library :=
  @World text_library (@Context (@mp_rest text_library) 53 tt) [] [] [].

(** A stricter stand-in, to follow the failing paths: its parser refuses a
    literal with two underscores in a row with a [TypeError], and its [eval]
    refuses the empty expression with a [SyntaxError], as Python's [eval]
    does. *)
Fixpoint doubled_underscore (s : pystr) : bool :=
  match s with
  | x :: (y :: _) as t =>
      (N.eqb x (chr "_") && N.eqb y (chr "_")) || doubled_underscore t
  | _ => false
  end.

Definition strict_library : Library := {|
  object := pystr;
  mp_rest := unit;
  dps_to_prec := fun n => Z.max 1 (((n + 1) * 3322 + 500) / 1000);
  mpmathify_str := fun _ key =>
    if doubled_underscore key
    then inl (TypeError (str "cannot create mpf from " ++ key))
    else inr key;
  mpmathify := fun _ v => text_mpmathify v;
  py_eval := fun e numbers ctx =>
    Outcome
      (match e with
       | [] => inl (OtherError (str "SyntaxError") (str "invalid syntax"))
       | _ => inr e
       end) ctx numbers []
|}.

Definition strict_world : @world strict_library :=
  @World strict_library (@Context (@mp_rest strict_library) 53 tt) [] [] [].

(** ** The specification's vocabulary *)

Definition is_letter (c : char) : bool :=
  in_range (chr "a") (chr "z") c || in_range (chr "A") (chr "Z") c.

Definition is_digit (c : char) : bool := in_range (chr "0") (chr "9") c.

Definition one_of (s : pystr) (c : char) : bool := existsb (N.eqb c) s.

(** The allowed set: letters, digits, whitespace, underscore, colon,
    equals, escape marker, parentheses, period, plus, minus, slash,
    asterisk, caret, ampersand, pipe, comma, brackets. *)
Definition allowed (c : char) : bool :=
  is_letter c || is_digit c || is_space c
  || one_of (str "_:=\().+-/*^&|,[]") c.

(** An open float: a digit, a period and no digit after it, or a period, a
    digit and no digit before the period. *)
Definition no_digit_next (s : pystr) : bool :=
  match s with
  | x :: _ => negb (is_digit x)
  | [] => true
  end.

Inductive open_float (s : pystr) : Prop :=
| open_right (a b : pystr) (d : char) :
    s = a ++ d :: chr "." :: b -> is_digit d = true ->
    no_digit_next b = true -> open_float s
| open_left (a b : pystr) (d : char) :
    s = a ++ chr "." :: d :: b -> is_digit d = true ->
    no_digit_next (rev a) = true -> open_float s.

(** Identifiers: a letter or underscore, then letters and digits. *)
Definition name_start (c : char) : bool := is_letter c || N.eqb c (chr "_").
Definition name_rest (c : char) : bool := is_letter c || is_digit c.

Definition identifier (t : pystr) : bool :=
  match t with
  | x :: t' => name_start x && forallb name_rest t'
  | [] => false
  end.

(** What a match may not come after: a letter, digit, underscore, period
    or the escape marker; and what it may not come before. *)
Definition blocks_start (c : char) : bool :=
  is_letter c || is_digit c || one_of (str "_.\") c.

Definition blocks_end (c : char) : bool :=
  is_letter c || is_digit c || one_of (str "_.") c.

Definition free_before (bef : list char) : bool :=
  match bef with
  | p :: _ => negb (blocks_start p)
  | [] => true
  end.

Definition free_after (rest : pystr) : bool :=
  match rest with
  | n :: _ => negb (blocks_end n)
  | [] => true
  end.

(** Languages, to write grammars with. *)
Definition lang : Type := pystr -> bool.

Fixpoint splits (t : pystr) : list (pystr * pystr) :=
  match t with
  | [] => [([], [])]
  | x :: t' => ([], t) :: map (fun ab => (x :: fst ab, snd ab)) (splits t')
  end.

Definition l_seq (P Q : lang) : lang :=
  fun t => existsb (fun ab => P (fst ab) && Q (snd ab)) (splits t).

Definition l_opt (P : lang) : lang :=
  fun t => match t with
           | [] => true
           | _ :: _ => P t
           end.

Definition l_chr (a : ascii) : lang := fun t => pystr_eqb t [chr a].

(** The integer part as the pattern has it: a digit, then digits and
    underscores, the last of them not an underscore. *)
Definition digit_or_underscore (c : char) : bool :=
  is_digit c || N.eqb c (chr "_").

Definition int_text : lang :=
  fun t => match t with
           | d :: t' => is_digit d && forallb digit_or_underscore t'
                        && negb (N.eqb (last t (chr "_")) (chr "_"))
           | [] => false
           end.

(** The integer part as the specification words it: digits with single
    underscores between them, none at the end. *)
Fixpoint single_underscores (t : pystr) : bool :=
  match t with
  | x :: t' =>
      match t' with
      | y :: _ => negb (N.eqb x (chr "_") && N.eqb y (chr "_"))
                  && single_underscores t'
      | [] => true
      end
  | [] => true
  end.

Definition int_text_single : lang :=
  fun t => int_text t && single_underscores t.

(** [-] integer [.fraction] [e[-]exponent] *)
Definition number_text (int : lang) : lang :=
  l_seq (l_opt (l_chr "-"))
    (l_seq int
       (l_seq (l_opt (l_seq (l_chr ".") int))
              (l_opt (l_seq (l_chr "e") (l_seq (l_opt (l_chr "-")) int))))).

(** A literal: a number and, maybe, the imaginary marker. *)
Definition literal_text (int : lang) : lang :=
  l_seq (number_text int) (l_opt (l_chr "j")).

(** Tokens in their context: what is before (nearest first), the token,
    what follows. *)
Definition token : Type := list char -> pystr -> pystr -> Prop.

Definition name_token : token :=
  fun bef t rest =>
    free_before bef = true /\ identifier t = true /\
    match rest with
    | n :: _ => name_rest n = false
    | [] => True
    end.

Definition number_token (int : lang) : token :=
  fun bef t rest =>
    free_before bef = true /\ literal_text int t = true /\
    free_after rest = true.

(** A string cut into tokens and the characters between them: at every
    position where a token starts it is taken, and the cut goes on behind
    it. *)
Inductive segment : Type :=
| Kept (x : char)
| Token (t : pystr).

Inductive segmented (tok : token) : list char -> pystr -> list segment -> Prop :=
| seg_end bef : segmented tok bef [] []
| seg_token bef t rest segs :
    t <> [] -> tok bef t rest ->
    segmented tok (rev t ++ bef) rest segs ->
    segmented tok bef (t ++ rest) (Token t :: segs)
| seg_kept bef x rest segs :
    (forall t r, x :: rest = t ++ r -> ~ tok bef t r) ->
    segmented tok (x :: bef) rest segs ->
    segmented tok bef (x :: rest) (Kept x :: segs).

Definition segment_of (p : piece) : segment :=
  match p with
  | Gap x => Kept x
  | Hit m => Token (m_text m)
  end.

(** A cut put back together, every token replaced. *)
Definition replaced (f : pystr -> pystr) (segs : list segment) : pystr :=
  flat_map (fun sg => match sg with
                      | Kept x => [x]
                      | Token t => f t
                      end) segs.

Definition tokens (segs : list segment) : list pystr :=
  flat_map (fun sg => match sg with
                      | Kept _ => []
                      | Token t => [t]
                      end) segs.

(** The rewriting of what follows a position, for each of the two
    substitutions. *)
Definition qualify_from (bef aft : list char) : pystr :=
  replaced (fun t => str "mp." ++ t)
           (map segment_of (scan name_pattern bef aft 0)).

Definition literals (s : pystr) : list pystr :=
  tokens (map segment_of (pieces number_pattern s)).

(** The keys in the order in which they are first met, those already
    [seen] left out. *)
Definition known (key : pystr) (seen : list pystr) : bool :=
  existsb (pystr_eqb key) seen.

Fixpoint first_seen (seen keys : list pystr) : list pystr :=
  match keys with
  | [] => []
  | k :: keys' =>
      if known k seen then first_seen seen keys'
      else k :: first_seen (seen ++ [k]) keys'
  end.

Definition occurrences (key : pystr) (keys : list pystr) : nat :=
  length (filter (pystr_eqb key) keys).

(** What a run added to standard output and to the log. *)
Definition added {A} (old new : list A) : list A :=
  skipn (length old) new.

(** Standard output without the lines of the debug channel. *)
Definition undiagnosed {L : Library} (o : list (@printed L))
  : list (@printed L) :=
  filter (fun x => negb (diagnostic x)) o.

(** The prints of the result (lines 84-92), as against the debug lines
    and what the expression itself prints. *)
Definition is_result {L : Library} (p : @printed L) : bool :=
  match p with
  | DebugResult _ | NPrint _ _ _ | PrintValue _ => true
  | _ => false
  end.

(** Qualification said character by character: "mp." in front of every
    letter or underscore that does not come after a letter, digit,
    underscore, period or backslash. *)
Fixpoint prefix_starts (bef : list char) (s : pystr) : pystr :=
  match s with
  | [] => []
  | c :: s' =>
      (if name_start c && free_before bef then str "mp." else [])
      ++ c :: prefix_starts (c :: bef) s'
  end.

(** A cut of the input carried over to the qualified input: the tokens
    stay, and every "mp." put in is three kept characters. *)
Fixpoint qualified_cut (bef : list char) (segs : list segment)
  : list segment :=
  match segs with
  | [] => []
  | Kept x :: r =>
      (if name_start x && free_before bef then map Kept (str "mp.") else [])
      ++ Kept x :: qualified_cut (x :: bef) r
  | Token t :: r => Token t :: qualified_cut (rev t ++ bef) r
  end.

(** The characters the text handed to [eval] is made of: the allowed ones
    but for the backslash, and the quote of the lookups. *)
Definition evaluated_char (c : char) : bool :=
  (allowed c && negb (N.eqb c (chr "\"))) || N.eqb c (chr "'").

(** * Properties *)

Unset Implicit Arguments.

Arguments mem : simpl never.
Arguments chr : simpl never.
Arguments str : simpl never.

(** ** The matcher against the reading of the pattern *)

Lemma advance_nil (c : cursor) : advance c [] c.
Proof. split; reflexivity. Qed.

Lemma advance_nil_inv (c c' : cursor) : advance c [] c' -> c' = c.
Proof.
  destruct c, c'. unfold advance. simpl. intros [H1 H2]. congruence.
Qed.

Lemma advance_app (c c1 c2 : cursor) (t u : pystr) :
  advance c t c1 -> advance c1 u c2 -> advance c (t ++ u) c2.
Proof.
  intros [Hb Ha] [Hb' Ha']. split.
  - rewrite Hb', Hb, rev_app_distr, app_assoc. reflexivity.
  - rewrite Ha, Ha', app_assoc. reflexivity.
Qed.

Lemma advance_cons (bef rest : list char) (x : char) (t : pystr) (c' : cursor) :
  advance (Cursor bef (x :: rest)) (x :: t) c' <->
  advance (Cursor (x :: bef) rest) t c'.
Proof.
  unfold advance. simpl. rewrite <- app_assoc. simpl.
  split; intros [H1 H2]; split; congruence.
Qed.

Lemma advance_to (bef rest : list char) (t : pystr) :
  advance (Cursor bef (t ++ rest)) t (Cursor (rev t ++ bef) rest).
Proof. split; reflexivity. Qed.

Lemma advance_inv (c c' : cursor) (t : pystr) :
  advance c t c' ->
  c' = Cursor (rev t ++ before c) (after c') /\ after c = t ++ after c'.
Proof. destruct c'. unfold advance. simpl. intros [-> ->]. split; reflexivity. Qed.

Lemma advance_same (c c1 c2 : cursor) (t : pystr) :
  advance c t c1 -> advance c t c2 -> c1 = c2.
Proof.
  destruct c1, c2. unfold advance. simpl. intros [H1 H2] [H3 H4].
  rewrite H2 in H4. apply app_inv_head in H4. congruence.
Qed.

Lemma between_advance (c c' : cursor) (t : pystr) :
  advance c t c' -> between c c' = t.
Proof.
  intros [_ H]. unfold between. rewrite H, length_app, Nat.add_sub.
  rewrite firstn_app, Nat.sub_diag, firstn_all. simpl. apply app_nil_r.
Qed.

Lemma one_spec (p : char -> bool) (c c' : cursor) :
  In c' (one p c) <-> exists x, p x = true /\ advance c [x] c'.
Proof.
  destruct c as [bef aft]. unfold one. simpl. split.
  - destruct aft as [|x rest]; [intros []|].
    destruct (p x) eqn:E; [|intros []]. intros [<-|[]].
    exists x. split; [exact E|]. split; reflexivity.
  - intros (x & Hx & Hb & Ha). simpl in *. subst aft. rewrite Hx. left.
    destruct c'. simpl in *. congruence.
Qed.

Lemma many_spec (cs : cset) (aft bef : list char) (c' : cursor) :
  In c' (many cs bef aft) <->
  exists t, forallb (mem cs) t = true /\ advance (Cursor bef aft) t c'.
Proof.
  revert bef. induction aft as [|x rest IH]; intros bef; simpl.
  - split.
    + intros [<-|[]]. exists []. split; [reflexivity|apply advance_nil].
    + intros (t & _ & Ht). left. destruct Ht as [Hb Ha]. simpl in *.
      destruct t; [|discriminate]. destruct c'. simpl in *. congruence.
  - rewrite in_app_iff. split.
    + intros [H|[<-|[]]].
      * destruct (mem cs x) eqn:E; [|destruct H].
        apply IH in H. destruct H as (t & Ht & Hadv). exists (x :: t).
        simpl. rewrite E, Ht. split; [reflexivity|].
        apply advance_cons. exact Hadv.
      * exists []. split; [reflexivity|apply advance_nil].
    + intros ([|y t] & Ht & Hadv).
      * right. left. symmetry. apply advance_nil_inv in Hadv. exact Hadv.
      * left. assert (y = x) as -> by (destruct Hadv as [_ H]; simpl in H; congruence).
        simpl in Ht. apply andb_true_iff in Ht. destruct Ht as [E Ht].
        rewrite E. apply IH. exists t. split; [exact Ht|].
        apply advance_cons. exact Hadv.
Qed.

Lemma ends_reaches (r : regex) :
  forall c g c' g', In (c', g') (ends r (c, g)) -> reaches r c c'.
Proof.
  induction r; intros c g c' g'; simpl.
  - rewrite in_map_iff. intros (c1 & [= <- <-] & H). apply one_spec in H. exact H.
  - rewrite in_map_iff. intros (c1 & [= <- <-] & H). apply one_spec in H.
    destruct H as (x & Hx & H). exists x. split; [|exact H].
    apply negb_true_iff. exact Hx.
  - rewrite in_flat_map. intros ([c1 g1] & H1 & H2).
    exists c1. split; [eapply IHr1|eapply IHr2]; eassumption.
  - rewrite in_app_iff. intros [H|H]; [left; eapply IHr1|right; eapply IHr2]; eassumption.
  - rewrite in_app_iff. intros [H|[[= <- <-]|[]]]; [left; eapply IHr; eassumption|right; reflexivity].
  - rewrite in_map_iff. intros (c1 & [= <- <-] & H). apply many_spec in H.
    destruct c. exact H.
  - destruct (behind_free cs c) eqn:E; [|intros []]. intros [[= <- <-]|[]]. split; reflexivity.
  - destruct (ahead_free cs c) eqn:E; [|intros []]. intros [[= <- <-]|[]]. split; reflexivity.
  - rewrite in_map_iff. intros ([c1 g1] & [= <- <-] & H). eapply IHr; eassumption.
Qed.

Lemma reaches_ends (r : regex) :
  forall c c', reaches r c c' -> forall g, exists g', In (c', g') (ends r (c, g)).
Proof.
  induction r; intros c c'; simpl.
  - intros H g. exists g. apply in_map_iff. exists c'. split; [reflexivity|].
    apply one_spec. exact H.
  - intros (x & Hx & H) g. exists g. apply in_map_iff. exists c'.
    split; [reflexivity|]. apply one_spec. exists x. split; [|exact H].
    apply negb_true_iff. exact Hx.
  - intros (c1 & H1 & H2) g. destruct (IHr1 _ _ H1 g) as [g1 Hg1].
    destruct (IHr2 _ _ H2 g1) as [g2 Hg2]. exists g2. apply in_flat_map.
    exists (c1, g1). split; assumption.
  - intros [H|H] g.
    + destruct (IHr1 _ _ H g) as [g1 Hg1]. exists g1. apply in_app_iff. left. exact Hg1.
    + destruct (IHr2 _ _ H g) as [g1 Hg1]. exists g1. apply in_app_iff. right. exact Hg1.
  - intros [H| ->] g.
    + destruct (IHr _ _ H g) as [g1 Hg1]. exists g1. apply in_app_iff. left. exact Hg1.
    + exists g. apply in_app_iff. right. left. reflexivity.
  - intros H g. exists g. apply in_map_iff. exists c'. split; [reflexivity|].
    apply many_spec. destruct c. exact H.
  - intros [E ->] g. rewrite E. exists g. left. reflexivity.
  - intros [E ->] g. rewrite E. exists g. left. reflexivity.
  - intros H g. destruct (IHr _ _ H g) as [g1 Hg1].
    exists ((n, between c c') :: g1). apply in_map_iff. exists (c', g1).
    split; [reflexivity|exact Hg1].
Qed.

Lemma reaches_advance (r : regex) :
  forall c c', reaches r c c' -> exists t, advance c t c'.
Proof.
  induction r; intros c c'; simpl.
  - intros (x & _ & H). exists [x]. exact H.
  - intros (x & _ & H). exists [x]. exact H.
  - intros (c1 & H1 & H2). destruct (IHr1 _ _ H1) as [t Ht].
    destruct (IHr2 _ _ H2) as [u Hu]. exists (t ++ u). eapply advance_app; eassumption.
  - intros [H|H]; [apply IHr1|apply IHr2]; exact H.
  - intros [H| ->]; [apply IHr; exact H|exists []; apply advance_nil].
  - intros (t & _ & H). exists t. exact H.
  - intros [_ ->]. exists []. apply advance_nil.
  - intros [_ ->]. exists []. apply advance_nil.
  - apply IHr.
Qed.

Lemma match_at_none (r : regex) (bef aft : list char) :
  match_at r bef aft = None <-> forall c', ~ reaches r (Cursor bef aft) c'.
Proof.
  unfold match_at. split.
  - intros H c' Hr.
    match type of H with
    | context [ends r (_, ?g0)] =>
        destruct (reaches_ends r _ _ Hr g0) as [g Hg]
    end.
    revert H Hg. destruct (ends r _) as [|[c1 g1] l].
    + intros _ [].
    + discriminate.
  - intros H. destruct (ends r _) as [|[c1 g1] l] eqn:E; [reflexivity|].
    exfalso. apply (H c1).
    assert (Hin : In (c1, g1) ((c1, g1) :: l)) by (left; reflexivity).
    rewrite <- E in Hin. exact (ends_reaches r _ _ _ _ Hin).
Qed.

Lemma match_at_some (r : regex) (bef aft : list char) (m : re_match) :
  match_at r bef aft = Some m ->
  exists rest,
    aft = m_text m ++ rest /\
    reaches r (Cursor bef aft) (Cursor (rev (m_text m) ++ bef) rest) /\
    In (Cursor (rev (m_text m) ++ bef) rest, m_groups m)
       (ends r (Cursor bef aft, [])).
Proof.
  unfold match_at.
  destruct (ends r _) as [|[c1 g1] l] eqn:E; [discriminate|].
  intros [= <-]. simpl.
  assert (Hr : reaches r (Cursor bef aft) c1).
  { assert (Hin : In (c1, g1) ((c1, g1) :: l)) by (left; reflexivity).
    rewrite <- E in Hin. exact (ends_reaches r _ _ _ _ Hin). }
  destruct (reaches_advance r _ _ Hr) as [t Ht].
  rewrite (between_advance _ _ _ Ht). apply advance_inv in Ht. simpl in Ht.
  destruct Ht as [Hc Ha]. exists (after c1). rewrite <- Hc.
  split; [exact Ha|]. split; [exact Hr|]. left. reflexivity.
Qed.

(** When a pattern can end in one place only, that place is the match. *)
Lemma match_at_unique (r : regex) (bef aft : list char) (t rest : pystr) :
  (forall c1 c2, reaches r (Cursor bef aft) c1 ->
                 reaches r (Cursor bef aft) c2 -> c1 = c2) ->
  aft = t ++ rest ->
  reaches r (Cursor bef aft) (Cursor (rev t ++ bef) rest) ->
  exists g, match_at r bef aft = Some (Match t g).
Proof.
  intros Hdet -> Hr. destruct (match_at r bef (t ++ rest)) as [m|] eqn:E.
  - destruct (match_at_some _ _ _ _ E) as (rest' & Ha & Hr' & _).
    pose proof (Hdet _ _ Hr Hr') as Heq. injection Heq as H1 H2. subst rest'.
    apply app_inv_tail in Ha. destruct m as [t' g]. simpl in Ha. subst t'.
    exists g. reflexivity.
  - exfalso. apply (proj1 (match_at_none r bef (t ++ rest)) E _ Hr).
Qed.

Lemma rev_cons_app (x : char) (a bef : list char) :
  rev (x :: a) ++ bef = rev a ++ x :: bef.
Proof. simpl. rewrite <- app_assoc. reflexivity. Qed.

Lemma search_from_none (r : regex) (aft bef : list char) :
  search_from r bef aft = None <->
  forall a b, aft = a ++ b -> match_at r (rev a ++ bef) b = None.
Proof.
  revert bef. induction aft as [|x rest IH]; intros bef; simpl.
  - split.
    + intros H a b Hab. symmetry in Hab. apply app_eq_nil in Hab.
      destruct Hab as [-> ->]. simpl.
      destruct (match_at r bef []); [discriminate|reflexivity].
    + intros H. pose proof (H [] [] eq_refl) as E. simpl in E. rewrite E.
      reflexivity.
  - split.
    + intros H a b Hab. destruct (match_at r bef (x :: rest)) eqn:E; [discriminate|].
      destruct a as [|y a]; simpl in Hab.
      * subst b. exact E.
      * injection Hab as <- ->. rewrite rev_cons_app.
        apply (proj1 (IH (x :: bef)) H). reflexivity.
    + intros H. pose proof (H [] (x :: rest) eq_refl) as E. simpl in E.
      rewrite E. apply IH.
      intros a b ->. rewrite <- rev_cons_app. apply H. reflexivity.
Qed.

Lemma search_from_some (r : regex) (aft bef : list char) (m : re_match) :
  search_from r bef aft = Some m ->
  exists a b,
    aft = a ++ b /\ match_at r (rev a ++ bef) b = Some m /\
    forall a' b', aft = a' ++ b' -> length a' < length a ->
                  match_at r (rev a' ++ bef) b' = None.
Proof.
  revert bef. induction aft as [|x rest IH]; intros bef; simpl.
  - destruct (match_at r bef []) eqn:E; [|discriminate]. intros [= <-].
    exists [], []. split; [reflexivity|]. split; [exact E|].
    intros a' b' _ Hlt. simpl in Hlt. lia.
  - destruct (match_at r bef (x :: rest)) eqn:E.
    + intros [= <-]. exists [], (x :: rest). split; [reflexivity|].
      split; [exact E|]. intros a' b' _ Hlt. simpl in Hlt. lia.
    + intros H. destruct (IH _ H) as (a & b & -> & Hm & Hmin).
      exists (x :: a), b. split; [reflexivity|]. rewrite rev_cons_app.
      split; [exact Hm|]. intros [|y a'] b' Hab Hlt.
      * simpl in Hab. subst b'. exact E.
      * simpl in Hab. injection Hab as <- Hab. rewrite rev_cons_app.
        apply Hmin; [exact Hab|]. simpl in Hlt. lia.
Qed.

(** *** Cutting the subject *)

Lemma scan_skip (r : regex) (t : pystr) :
  forall bef rest,
    scan r bef (t ++ rest) (length t) = scan r (rev t ++ bef) rest 0.
Proof.
  induction t as [|x t IH]; intros bef rest.
  - reflexivity.
  - rewrite rev_cons_app. simpl. apply IH.
Qed.

Lemma scan_hit (r : regex) (bef : list char) (t rest : pystr) (m : re_match) :
  match_at r bef (t ++ rest) = Some m -> m_text m = t -> t <> [] ->
  scan r bef (t ++ rest) 0 = Hit m :: scan r (rev t ++ bef) rest 0.
Proof.
  intros Hm Ht Hne. destruct t as [|x t]; [contradiction|].
  rewrite rev_cons_app. simpl. simpl in Hm. rewrite Hm, Ht. simpl.
  f_equal. apply scan_skip.
Qed.

Lemma scan_gap (r : regex) (bef : list char) (x : char) (rest : pystr) :
  match_at r bef (x :: rest) = None ->
  scan r bef (x :: rest) 0 = Gap x :: scan r (x :: bef) rest 0.
Proof. intros H. simpl. rewrite H. reflexivity. Qed.

(** A pattern whose matches are the tokens cuts the subject into them. *)
Lemma scan_segmented (r : regex) (tok : token) :
  (forall bef aft m, match_at r bef aft = Some m ->
     m_text m <> [] /\
     exists rest, aft = m_text m ++ rest /\ tok bef (m_text m) rest) ->
  (forall bef aft, match_at r bef aft = None ->
     forall t rest, aft = t ++ rest -> ~ tok bef t rest) ->
  forall aft bef, segmented tok bef aft (map segment_of (scan r bef aft 0)).
Proof.
  intros Hsome Hnone aft.
  induction aft as [aft IH] using (induction_ltof1 _ (@length char)).
  unfold ltof in IH. intros bef. destruct (match_at r bef aft) as [m|] eqn:E.
  - destruct (Hsome _ _ _ E) as (Hne & rest & -> & Htok).
    rewrite (scan_hit r bef (m_text m) rest m E eq_refl Hne). simpl.
    apply seg_token; [exact Hne|exact Htok|]. apply IH.
    rewrite length_app. destruct (m_text m); [contradiction|simpl; lia].
  - destruct aft as [|x rest].
    + simpl. rewrite E. apply seg_end.
    + rewrite (scan_gap r bef x rest E). simpl. apply seg_kept.
      * intros t r0. apply (Hnone _ _ E).
      * apply IH. simpl. lia.
Qed.

Lemma segmented_unique (tok : token) :
  (forall bef t1 r1 t2 r2, tok bef t1 r1 -> tok bef t2 r2 ->
                           t1 ++ r1 = t2 ++ r2 -> t1 = t2) ->
  forall bef aft s1, segmented tok bef aft s1 ->
  forall s2, segmented tok bef aft s2 -> s1 = s2.
Proof.
  intros Hdet bef aft s1 H1.
  induction H1 as [bef|bef t rest segs Hne Htok H1 IH|bef x rest segs Hno H1 IH];
    intros s2 H2.
  - remember [] as aft eqn:Ea.
    inversion H2; subst; [reflexivity| |discriminate].
    match goal with
    | H : ?u ++ _ = [] |- _ => destruct u; [congruence|discriminate H]
    end.
  - remember (t ++ rest) as aft eqn:Ea.
    inversion H2; subst.
    + destruct t; [congruence|discriminate].
    + match goal with
      | Htok' : tok bef ?u ?r, Heq : ?u ++ ?r = t ++ rest |- _ =>
          pose proof (Hdet _ _ _ _ _ Htok' Htok Heq) as ->;
          apply app_inv_head in Heq; subst r
      end.
      f_equal. apply IH. assumption.
    + exfalso.
      match goal with
      | Hno' : forall t r, _ -> ~ tok bef t r |- _ =>
          apply (Hno' t rest); [congruence|exact Htok]
      end.
  - remember (x :: rest) as aft eqn:Ea.
    inversion H2; subst.
    + discriminate.
    + exfalso.
      match goal with
      | Htok' : tok bef ?u ?r |- _ => apply (Hno u r); [congruence|exact Htok']
      end.
    + match goal with
      | Heq : _ :: _ = _ :: _ |- _ => injection Heq as -> ->
      end.
      f_equal. apply IH. assumption.
Qed.

(** ** The character sets of the patterns, in words *)

Lemma mem_allowed (c : char) : mem allowed_characters c = allowed c.
Proof.
  unfold mem, allowed, allowed_characters, is_letter, is_digit, one_of.
  unfold str. cbn [existsb item_mem list_ascii_of_string map].
  btauto.
Qed.

Lemma mem_cannot_start_after (c : char) :
  mem cannot_start_after c = blocks_start c.
Proof.
  unfold mem, blocks_start, cannot_start_after, is_letter, is_digit, one_of.
  unfold str. cbn [existsb item_mem list_ascii_of_string map].
  btauto.
Qed.

Lemma mem_cannot_end_before (c : char) :
  mem cannot_end_before c = blocks_end c.
Proof.
  unfold mem, blocks_end, cannot_end_before, is_letter, is_digit, one_of.
  unfold str. cbn [existsb item_mem list_ascii_of_string map].
  btauto.
Qed.

Lemma mem_name_start (c : char) :
  mem [Rng (chr "a") (chr "z"); Rng (chr "A") (chr "Z"); Chr (chr "_")] c
  = name_start c.
Proof. unfold mem, name_start, is_letter. cbn [existsb item_mem]. btauto. Qed.

Lemma mem_name_rest (c : char) :
  mem [Rng (chr "a") (chr "z"); Rng (chr "A") (chr "Z");
       Rng (chr "0") (chr "9")] c = name_rest c.
Proof.
  unfold mem, name_rest, is_letter, is_digit. cbn [existsb item_mem]. btauto.
Qed.

Lemma mem_digit (c : char) : mem [Digit] c = is_digit c.
Proof. unfold mem, is_digit. cbn [existsb item_mem]. btauto. Qed.

Lemma mem_digit_underscore (c : char) :
  mem [Digit; Chr (chr "_")] c = digit_or_underscore c.
Proof.
  unfold mem, digit_or_underscore, is_digit. cbn [existsb item_mem]. btauto.
Qed.

Lemma mem_chr (x c : char) : mem [Chr x] c = N.eqb c x.
Proof. unfold mem. cbn [existsb item_mem]. btauto. Qed.

(** ** The validator *)

Lemma advance_one (bef aft : list char) (x : char) (c' : cursor) :
  advance (Cursor bef aft) [x] c' <->
  exists rest, aft = x :: rest /\ c' = Cursor (x :: bef) rest.
Proof.
  destruct c' as [bef' aft']. unfold advance. simpl. split.
  - intros [-> ->]. exists aft'. split; reflexivity.
  - intros (rest & -> & [= -> ->]). split; reflexivity.
Qed.

Lemma eqb_chr (x c : char) : N.eqb x c = true <-> x = c.
Proof. apply N.eqb_eq. Qed.

Lemma find_first (p : char -> bool) (l : list char) (x : char) :
  find p l = Some x <->
  exists a b, l = a ++ x :: b /\ forallb (fun y => negb (p y)) a = true
              /\ p x = true.
Proof.
  induction l as [|y l IH]; simpl.
  - split; [discriminate|]. intros ([|? ?] & b & H & _); discriminate.
  - destruct (p y) eqn:E.
    + split.
      * intros [= ->]. exists [], l. repeat split. exact E.
      * intros ([|z a] & b & H & Ha & Hx); simpl in H.
        -- congruence.
        -- injection H as <- ->. simpl in Ha. rewrite E in Ha. discriminate.
    + rewrite IH. split.
      * intros (a & b & -> & Ha & Hx). exists (y :: a), b. simpl.
        rewrite E, Ha. repeat split. exact Hx.
      * intros ([|z a] & b & H & Ha & Hx); simpl in H.
        -- injection H as <- ->. congruence.
        -- injection H as <- ->. simpl in Ha. rewrite E in Ha. simpl in Ha.
           exists a, b. repeat split; assumption.
Qed.

Lemma find_none_forallb (p : char -> bool) (l : list char) :
  find p l = None <-> forallb (fun y => negb (p y)) l = true.
Proof.
  induction l as [|y l IH]; simpl; [tauto|].
  destruct (p y); simpl; [split; discriminate|exact IH].
Qed.

Lemma match_at_NoneOf (cs : cset) (bef aft : list char) :
  match_at (NoneOf cs) bef aft =
  match aft with
  | x :: _ => if mem cs x then None else Some (Match [x] [])
  | [] => None
  end.
Proof.
  unfold match_at. simpl. unfold one. simpl.
  destruct aft as [|x rest]; [reflexivity|].
  destruct (mem cs x); simpl; [reflexivity|].
  rewrite (between_advance _ _ [x]); [reflexivity|]. split; reflexivity.
Qed.

Lemma search_NoneOf (cs : cset) (aft bef : list char) :
  search_from (NoneOf cs) bef aft =
  option_map (fun x => Match [x] []) (find (fun x => negb (mem cs x)) aft).
Proof.
  revert bef. induction aft as [|x rest IH]; intros bef;
    cbn [search_from find]; rewrite match_at_NoneOf; [reflexivity|].
  destruct (mem cs x); simpl; [apply IH|reflexivity].
Qed.

Lemma forallb_allowed (s : pystr) :
  forallb (fun y => negb (negb (mem allowed_characters y))) s
  = forallb allowed s.
Proof.
  induction s as [|y s IH]; cbn [forallb]; [reflexivity|].
  rewrite negb_involutive, mem_allowed, IH. reflexivity.
Qed.

Lemma search_disallowed_some (s : pystr) (m : re_match) :
  search disallowed_characters s = Some m <->
  exists a x b, s = a ++ x :: b /\ forallb allowed a = true
                /\ allowed x = false /\ m = Match [x] [].
Proof.
  unfold search, disallowed_characters. rewrite search_NoneOf.
  destruct (find _ s) as [x|] eqn:E; simpl.
  - apply find_first in E. destruct E as (a & b & -> & Ha & Hx).
    rewrite forallb_allowed in Ha. rewrite mem_allowed in Hx.
    apply negb_true_iff in Hx. split.
    + intros [= <-]. exists a, x, b. repeat split; assumption.
    + intros (a' & x' & b' & H & Ha' & Hx' & ->).
      assert (x' = x); [|congruence].
      clear - H Ha Hx Ha' Hx'. revert a' H Ha'.
      induction a as [|y a IH]; intros [|y' a'] H Ha'; simpl in *.
      * congruence.
      * injection H as -> _. apply andb_true_iff in Ha'. destruct Ha'. congruence.
      * injection H as <- _. apply andb_true_iff in Ha. destruct Ha. congruence.
      * injection H as -> H. apply andb_true_iff in Ha, Ha'.
        apply (IH (proj2 Ha) a' H (proj2 Ha')).
  - split; [discriminate|]. intros (a & x & b & -> & Ha & Hx & _).
    apply find_none_forallb in E. rewrite forallb_allowed in E.
    rewrite forallb_app in E. simpl in E. rewrite Hx in E.
    rewrite andb_false_r in E. discriminate.
Qed.

Lemma search_disallowed_none (s : pystr) :
  search disallowed_characters s = None <-> forallb allowed s = true.
Proof.
  unfold search, disallowed_characters. rewrite search_NoneOf.
  rewrite <- forallb_allowed, <- find_none_forallb.
  destruct (find _ s); simpl; split; congruence.
Qed.

Lemma behind_free_digit (bef aft : list char) :
  behind_free [Digit] (Cursor bef aft) = no_digit_next bef.
Proof.
  unfold behind_free, no_digit_next. simpl.
  destruct bef; [reflexivity|]. rewrite mem_digit. reflexivity.
Qed.

Lemma ahead_free_digit (bef aft : list char) :
  ahead_free [Digit] (Cursor bef aft) = no_digit_next aft.
Proof.
  unfold ahead_free, no_digit_next. simpl.
  destruct aft; [reflexivity|]. rewrite mem_digit. reflexivity.
Qed.

(** Where the open-float pattern matches. *)
Lemma open_float_here (bef aft : list char) :
  (exists c', reaches open_float_pattern (Cursor bef aft) c') <->
  (exists d b, aft = chr "." :: d :: b /\ is_digit d = true
               /\ no_digit_next bef = true) \/
  (exists d b, aft = d :: chr "." :: b /\ is_digit d = true
               /\ no_digit_next b = true).
Proof.
  unfold open_float_pattern, Lit. simpl. split.
  - intros [c' [H|H]].
    + destruct H as (c1 & (Hb & ->) & c2 & (x & Hx & H1) & (y & Hy & H2)).
      rewrite behind_free_digit in Hb. rewrite mem_chr in Hx.
      apply eqb_chr in Hx. subst x. rewrite mem_digit in Hy.
      apply advance_one in H1. destruct H1 as (r1 & -> & ->).
      apply advance_one in H2. destruct H2 as (r2 & -> & ->).
      left. exists y, r2. repeat split; assumption.
    + destruct H as (c1 & (x & Hx & H1) & c2 & (y & Hy & H2) & (Ha & ->)).
      rewrite mem_digit in Hx. rewrite mem_chr in Hy. apply eqb_chr in Hy.
      subst y. apply advance_one in H1. destruct H1 as (r1 & -> & ->).
      apply advance_one in H2. destruct H2 as (r2 & -> & ->).
      rewrite ahead_free_digit in Ha.
      right. exists x, r2. repeat split; assumption.
  - intros [(d & b & -> & Hd & Hb)|(d & b & -> & Hd & Hb)].
    + exists (Cursor (d :: chr "." :: bef) b). left.
      exists (Cursor bef (chr "." :: d :: b)).
      split; [split; [rewrite behind_free_digit; exact Hb|reflexivity]|].
      exists (Cursor (chr "." :: bef) (d :: b)). split.
      * exists (chr "."). split; [rewrite mem_chr; apply N.eqb_refl|].
        apply advance_one. eexists. split; reflexivity.
      * exists d. split; [rewrite mem_digit; exact Hd|].
        apply advance_one. eexists. split; reflexivity.
    + exists (Cursor (chr "." :: d :: bef) b). right.
      exists (Cursor (d :: bef) (chr "." :: b)). split.
      * exists d. split; [rewrite mem_digit; exact Hd|].
        apply advance_one. eexists. split; reflexivity.
      * exists (Cursor (chr "." :: d :: bef) b). split.
        -- exists (chr "."). split; [rewrite mem_chr; apply N.eqb_refl|].
           apply advance_one. eexists. split; reflexivity.
        -- split; [rewrite ahead_free_digit; exact Hb|reflexivity].
Qed.

Lemma search_open_float (s : pystr) :
  (exists m, search open_float_pattern s = Some m) <-> open_float s.
Proof.
  split.
  - intros [m H]. apply search_from_some in H.
    destruct H as (a & b & -> & H & _). rewrite app_nil_r in H.
    apply match_at_some in H. destruct H as (rest & _ & H & _).
    assert (Ho : exists c', reaches open_float_pattern (Cursor (rev a) b) c')
      by (eexists; exact H).
    apply open_float_here in Ho.
    destruct Ho as [(d & b' & -> & Hd & Hb)|(d & b' & -> & Hd & Hb)].
    + eapply open_left; [reflexivity|exact Hd|exact Hb].
    + eapply open_right; [reflexivity|exact Hd|exact Hb].
  - intros H.
    destruct (search open_float_pattern s) as [m|] eqn:E; [exists m; reflexivity|].
    exfalso. unfold search in E.
    pose proof (proj1 (search_from_none _ _ _) E) as Hn.
    destruct H as [a b d -> Hd Hb|a b d -> Hd Hb].
    + specialize (Hn a (d :: chr "." :: b) eq_refl). rewrite app_nil_r in Hn.
      destruct (proj2 (open_float_here (rev a) (d :: chr "." :: b))) as [c' Hc].
      { right. exists d, b. repeat split; assumption. }
      apply (proj1 (match_at_none _ _ _) Hn c' Hc).
    + specialize (Hn a (chr "." :: d :: b) eq_refl). rewrite app_nil_r in Hn.
      destruct (proj2 (open_float_here (rev a) (chr "." :: d :: b))) as [c' Hc].
      { left. exists d, b. repeat split; assumption. }
      apply (proj1 (match_at_none _ _ _) Hn c' Hc).
Qed.

Lemma InvalidCharacter_inj (s t : pystr) :
  InvalidCharacter s = InvalidCharacter t -> s = t.
Proof.
  unfold InvalidCharacter. intros [= H]. exact H.
Qed.

Lemma Ambiguous_not_Invalid (t : pystr) :
  AmbiguousFloatLiteral <> InvalidCharacter t.
Proof.
  unfold AmbiguousFloatLiteral, InvalidCharacter. intros H.
  vm_compute in H. discriminate H.
Qed.

(** C2.  The validator raises [InvalidCharacter] naming a character exactly
    when that character is the first one of the input outside the allowed
    set, so it raises that error exactly when some character is outside the
    set, open floats or not; on input within the allowed set it raises
    [AmbiguousFloatLiteral] exactly when the input holds an open float; it
    accepts exactly the inputs with neither.  "1." and ".5" are rejected,
    "1.0" and "0.5" are accepted, and "1.$", which has both faults, is
    refused for its character. *)
Theorem validator_contract :
  (forall s c, validate s = Some (InvalidCharacter [c]) <->
     exists a b, s = a ++ c :: b /\ forallb allowed a = true
                 /\ allowed c = false) /\
  (forall s, (exists c, validate s = Some (InvalidCharacter [c])) <->
     forallb allowed s = false) /\
  (forall s, forallb allowed s = true ->
     (validate s = Some AmbiguousFloatLiteral <-> open_float s)) /\
  (forall s, validate s = None <->
     forallb allowed s = true /\ ~ open_float s) /\
  validate (str "1.") = Some AmbiguousFloatLiteral /\
  validate (str ".5") = Some AmbiguousFloatLiteral /\
  validate (str "1.0") = None /\
  validate (str "0.5") = None /\
  validate (str "1.$") = Some (InvalidCharacter (str "$")).
Proof.
  assert (H1 : forall s c, validate s = Some (InvalidCharacter [c]) <->
     exists a b, s = a ++ c :: b /\ forallb allowed a = true
                 /\ allowed c = false).
  { intros s c. unfold validate.
    destruct (search disallowed_characters s) as [m|] eqn:E.
    - apply search_disallowed_some in E.
      destruct E as (a & x & b & -> & Ha & Hx & ->). simpl. split.
      + intros H. injection H as ->. exists a, b.
        repeat split; assumption.
      + intros (a' & b' & H & Ha' & Hc).
        assert (Hs : search disallowed_characters (a ++ x :: b)
                     = Some (Match [c] [])).
        { apply search_disallowed_some. exists a', c, b'.
          repeat split; assumption. }
        assert (Hs' : search disallowed_characters (a ++ x :: b)
                      = Some (Match [x] [])).
        { apply search_disallowed_some. exists a, x, b.
          repeat split; assumption. }
        congruence.
    - split.
      + intros H. exfalso.
        destruct (search open_float_pattern s); [|discriminate].
        apply (Ambiguous_not_Invalid [c]). congruence.
      + intros (a & b & -> & Ha & Hc). exfalso.
        apply search_disallowed_none in E. rewrite forallb_app in E.
        simpl in E. rewrite Hc, andb_false_r in E. discriminate. }
  assert (H3 : forall s, forallb allowed s = true ->
     (validate s = Some AmbiguousFloatLiteral <-> open_float s)).
  { intros s Hs. unfold validate.
    rewrite (proj2 (search_disallowed_none s) Hs).
    rewrite <- search_open_float.
    destruct (search open_float_pattern s) as [m|].
    - split; [intros _; exists m; reflexivity|reflexivity].
    - split; [discriminate|intros [m H]; discriminate]. }
  split; [exact H1|]. split; [|split; [exact H3|split]].
  - intros s. split.
    + intros [c Hc]. apply H1 in Hc. destruct Hc as (a & b & -> & Ha & Hc).
      rewrite forallb_app. simpl. rewrite Hc. apply andb_false_r.
    + intros Hs. unfold validate.
      destruct (search disallowed_characters s) as [m|] eqn:E.
      * apply search_disallowed_some in E.
        destruct E as (a & x & b & _ & _ & _ & ->). exists x. reflexivity.
      * apply search_disallowed_none in E. congruence.
  - intros s. split.
    + intros H. assert (Hs : forallb allowed s = true).
      { apply search_disallowed_none. unfold validate in H.
        destruct (search disallowed_characters s); [discriminate|reflexivity]. }
      split; [exact Hs|]. intros Ho. apply (H3 s Hs) in Ho. congruence.
    + intros [Hs Ho]. unfold validate.
      rewrite (proj2 (search_disallowed_none s) Hs).
      destruct (search open_float_pattern s) as [m|] eqn:E; [|reflexivity].
      exfalso. apply Ho. apply search_open_float. exists m. exact E.
  - repeat split; vm_compute; reflexivity.
Qed.

(** ** The name pattern *)

Lemma span_spec (p : char -> bool) (s : pystr) :
  s = fst (span p s) ++ snd (span p s) /\
  forallb p (fst (span p s)) = true /\
  match snd (span p s) with
  | y :: _ => p y = false
  | [] => True
  end.
Proof.
  induction s as [|x s IH]; simpl; [repeat split|].
  destruct (p x) eqn:E.
  - destruct (span p s) as [a b]. simpl in *. destruct IH as (-> & Ha & Hb).
    rewrite E, Ha. repeat split. exact Hb.
  - simpl. repeat split. exact E.
Qed.

Lemma span_unique (p : char -> bool) (a r : pystr) :
  forallb p a = true ->
  match r with
  | y :: _ => p y = false
  | [] => True
  end ->
  span p (a ++ r) = (a, r).
Proof.
  intros Ha Hr. induction a as [|x a IH]; simpl in *.
  - destruct r as [|y r]; [reflexivity|]. simpl. rewrite Hr. reflexivity.
  - apply andb_true_iff in Ha. destruct Ha as [Hx Ha]. rewrite Hx, (IH Ha).
    reflexivity.
Qed.

Lemma span_app_stop (p : char -> bool) (a v : pystr) (y : char) :
  p y = false ->
  span p (a ++ y :: v) = (fst (span p a), snd (span p a) ++ y :: v).
Proof.
  intros Hy. induction a as [|x a IH]; simpl.
  - rewrite Hy. reflexivity.
  - destruct (p x); [|reflexivity]. rewrite IH. destruct (span p a).
    reflexivity.
Qed.

Lemma many_head (cs : cset) (aft bef : list char) :
  exists l,
    many cs bef aft
    = Cursor (rev (fst (span (mem cs) aft)) ++ bef) (snd (span (mem cs) aft))
      :: l.
Proof.
  revert bef. induction aft as [|x rest IH]; intros bef; simpl.
  - exists []. reflexivity.
  - destruct (mem cs x) eqn:E.
    + destruct (IH (x :: bef)) as [l Hl]. rewrite Hl.
      destruct (span (mem cs) rest) as [a b]. simpl.
      rewrite <- app_assoc. simpl. eexists. reflexivity.
    + exists []. reflexivity.
Qed.

Lemma span_ext_name (s : pystr) :
  span (mem [Rng (chr "a") (chr "z"); Rng (chr "A") (chr "Z");
             Rng (chr "0") (chr "9")]) s = span name_rest s.
Proof.
  induction s as [|x s IH]; simpl; [reflexivity|].
  rewrite mem_name_rest, IH. reflexivity.
Qed.

Lemma behind_free_start (bef aft : list char) :
  behind_free cannot_start_after (Cursor bef aft) = free_before bef.
Proof.
  unfold behind_free, free_before. simpl. destruct bef; [reflexivity|].
  rewrite mem_cannot_start_after. reflexivity.
Qed.

(** The match of the name pattern at a position: the longest run there. *)
Lemma match_at_name (bef aft : list char) :
  match_at name_pattern bef aft =
  if free_before bef then
    match aft with
    | x :: rest =>
        if name_start x then
          Some (Match (x :: fst (span name_rest rest))
                      [(1, x :: fst (span name_rest rest))])
        else None
    | [] => None
    end
  else None.
Proof.
  unfold match_at, name_pattern.
  cbn [ends]. rewrite behind_free_start.
  destruct (free_before bef); [|reflexivity].
  cbn [flat_map ends]. rewrite app_nil_r. unfold one. cbn [after before].
  destruct aft as [|x rest]; [reflexivity|].
  rewrite mem_name_start. destruct (name_start x); [|reflexivity].
  cbn [map flat_map ends after before]. rewrite app_nil_r.
  destruct (many_head
              [Rng (chr "a") (chr "z"); Rng (chr "A") (chr "Z");
               Rng (chr "0") (chr "9")] rest (x :: bef)) as [l Hl].
  rewrite Hl. cbn [map fst snd].
  rewrite (span_ext_name rest).
  pose proof (span_spec name_rest rest) as (Hs & _ & _).
  rewrite (between_advance _ _ (x :: fst (span name_rest rest))).
  - reflexivity.
  - split; cbn [before after].
    + rewrite rev_cons_app. reflexivity.
    + simpl. f_equal. exact Hs.
Qed.

Lemma name_match_token (bef aft : list char) (m : re_match) :
  match_at name_pattern bef aft = Some m ->
  m_text m <> [] /\
  exists rest, aft = m_text m ++ rest /\ name_token bef (m_text m) rest.
Proof.
  rewrite match_at_name. destruct (free_before bef) eqn:Hb; [|discriminate].
  destruct aft as [|x rest]; [discriminate|].
  destruct (name_start x) eqn:Hx; [|discriminate]. intros [= <-]. simpl.
  split; [discriminate|].
  pose proof (span_spec name_rest rest) as (Hs & Ha & Hr).
  exists (snd (span name_rest rest)). split; [f_equal; exact Hs|].
  split; [exact Hb|]. split; [|exact Hr].
  simpl. rewrite Hx, Ha. reflexivity.
Qed.

Lemma name_nomatch_token (bef aft : list char) :
  match_at name_pattern bef aft = None ->
  forall t rest, aft = t ++ rest -> ~ name_token bef t rest.
Proof.
  rewrite match_at_name. intros H t rest -> (Hb & Hid & _). rewrite Hb in H.
  destruct t as [|x t]; [discriminate|]. simpl in H, Hid.
  apply andb_true_iff in Hid. destruct Hid as [Hx _]. rewrite Hx in H.
  discriminate.
Qed.

Lemma name_token_det (bef : list char) (t1 r1 t2 r2 : pystr) :
  name_token bef t1 r1 -> name_token bef t2 r2 ->
  t1 ++ r1 = t2 ++ r2 -> t1 = t2.
Proof.
  intros (_ & H1 & Hr1) (_ & H2 & Hr2) Heq.
  destruct t1 as [|x1 t1]; [discriminate|].
  destruct t2 as [|x2 t2]; [discriminate|].
  simpl in H1, H2, Heq. apply andb_true_iff in H1, H2.
  injection Heq as -> Heq. f_equal.
  pose proof (span_unique name_rest t1 r1 (proj2 H1) Hr1) as E1.
  pose proof (span_unique name_rest t2 r2 (proj2 H2) Hr2) as E2.
  rewrite Heq in E1. congruence.
Qed.

Lemma name_expand (bef aft : list char) (m : re_match) :
  match_at name_pattern bef aft = Some m ->
  expand mp_template m = str "mp." ++ m_text m.
Proof.
  rewrite match_at_name. destruct (free_before bef); [|discriminate].
  destruct aft as [|x rest]; [discriminate|].
  destruct (name_start x); [|discriminate]. intros [= <-].
  unfold expand, mp_template. simpl. rewrite app_nil_r. reflexivity.
Qed.

(** [re.sub] with a template, seen as the replacement of tokens. *)
Lemma render_replaced (r : regex) (template : list titem)
      (f : pystr -> pystr) :
  (forall bef aft m, match_at r bef aft = Some m ->
                     expand template m = f (m_text m)) ->
  forall aft bef skip,
    flat_map (fun p => match p with
                       | Gap x => [x]
                       | Hit m => expand template m
                       end) (scan r bef aft skip)
    = replaced f (map segment_of (scan r bef aft skip)).
Proof.
  intros Hf. unfold replaced.
  induction aft as [|x rest IH]; intros bef [|k]; simpl; try reflexivity.
  - destruct (match_at r bef []) eqn:E; simpl; [|reflexivity].
    rewrite (Hf _ _ _ E). reflexivity.
  - destruct (match_at r bef (x :: rest)) as [m|] eqn:E; simpl.
    + rewrite (Hf _ _ _ E). f_equal.
      destruct (length (m_text m)); simpl; [f_equal|]; apply IH.
    + f_equal. apply IH.
  - apply IH.
Qed.

Lemma qualify_names_from (s : pystr) : qualify_names s = qualify_from [] s.
Proof.
  unfold qualify_names, sub, pieces, qualify_from.
  apply render_replaced. exact name_expand.
Qed.

Lemma qualify_from_nil (bef : list char) : qualify_from bef [] = [].
Proof.
  unfold qualify_from. simpl. rewrite match_at_name.
  destruct (free_before bef); reflexivity.
Qed.

Lemma qualify_from_gap (bef : list char) (x : char) (rest : pystr) :
  match_at name_pattern bef (x :: rest) = None ->
  qualify_from bef (x :: rest) = x :: qualify_from (x :: bef) rest.
Proof.
  intros H. unfold qualify_from. rewrite (scan_gap _ _ _ _ H). reflexivity.
Qed.

Lemma qualify_from_hit (bef : list char) (t rest : pystr) (m : re_match) :
  match_at name_pattern bef (t ++ rest) = Some m -> m_text m = t -> t <> [] ->
  qualify_from bef (t ++ rest)
  = str "mp." ++ t ++ qualify_from (rev t ++ bef) rest.
Proof.
  intros H Ht Hne. unfold qualify_from.
  rewrite (scan_hit _ _ _ _ _ H Ht Hne). unfold replaced. simpl.
  rewrite Ht. reflexivity.
Qed.

(** A run behind a blocking character is passed over. *)
Lemma qualify_blocked (t : pystr) :
  forall bef b,
    free_before bef = false -> forallb blocks_start t = true ->
    qualify_from bef (t ++ b) = t ++ qualify_from (rev t ++ bef) b.
Proof.
  induction t as [|x t IH]; intros bef b Hb Ht; [reflexivity|].
  simpl in Ht. apply andb_true_iff in Ht. destruct Ht as [Hx Ht].
  rewrite rev_cons_app. simpl app. rewrite qualify_from_gap.
  - f_equal. apply IH; [|exact Ht].
    simpl. rewrite Hx. reflexivity.
  - rewrite match_at_name, Hb. reflexivity.
Qed.

(** What is in front of a backslash is rewritten as if nothing followed,
    and the backslash is kept. *)
Lemma qualify_backslash (v a : pystr) :
  forall bef,
    qualify_from bef (a ++ chr "\" :: v)
    = qualify_from bef a
      ++ chr "\" :: qualify_from (chr "\" :: rev a ++ bef) v.
Proof.
  induction a as [a IH] using (induction_ltof1 _ (@length char)).
  unfold ltof in IH. intros bef. destruct a as [|x a].
  - simpl app. rewrite qualify_from_nil. rewrite qualify_from_gap; [reflexivity|].
    rewrite match_at_name. destruct (free_before bef); reflexivity.
  - destruct (match_at name_pattern bef (x :: a)) as [m|] eqn:E.
    + assert (E' : match_at name_pattern bef ((x :: a) ++ chr "\" :: v)
                   = Some m).
      { revert E. rewrite !match_at_name. destruct (free_before bef); [|discriminate].
        simpl. destruct (name_start x); [|discriminate].
        rewrite span_app_stop by reflexivity. simpl. intros H. exact H. }
      destruct (name_match_token _ _ _ E) as (Hne & rest & Ha & _).
      rewrite Ha in E, E'. rewrite <- app_assoc in E'. rewrite Ha.
      rewrite <- app_assoc.
      rewrite (qualify_from_hit _ _ _ _ E' eq_refl Hne).
      rewrite (qualify_from_hit _ _ _ _ E eq_refl Hne).
      rewrite IH.
      * rewrite rev_app_distr, <- !app_assoc. reflexivity.
      * rewrite Ha, length_app. destruct (m_text m); [contradiction|simpl; lia].
    + assert (E' : match_at name_pattern bef ((x :: a) ++ chr "\" :: v) = None).
      { revert E. rewrite !match_at_name. destruct (free_before bef); [|reflexivity].
        simpl. destruct (name_start x); [discriminate|reflexivity]. }
      simpl app in *. rewrite (qualify_from_gap _ _ _ E).
      rewrite (qualify_from_gap _ _ _ E'). rewrite IH by (simpl; lia).
      simpl. rewrite <- app_assoc. reflexivity.
Qed.

Lemma name_start_blocks (x : char) :
  name_start x = true -> blocks_start x = true.
Proof.
  unfold name_start, blocks_start, one_of, str.
  cbn [list_ascii_of_string map existsb].
  destruct (is_letter x), (is_digit x), (N.eqb x (chr "_")); simpl;
    intros H; try reflexivity; discriminate H.
Qed.

Lemma name_rest_blocks (x : char) :
  name_rest x = true -> blocks_start x = true.
Proof.
  unfold name_rest, blocks_start.
  destruct (is_letter x), (is_digit x); simpl;
    intros H; try reflexivity; discriminate H.
Qed.

Lemma identifier_blocks (t : pystr) :
  identifier t = true -> forallb blocks_start t = true.
Proof.
  destruct t as [|x t]; [discriminate|]. cbn [identifier forallb]. intros H.
  apply andb_true_iff in H. destruct H as [Hx Ht].
  rewrite (name_start_blocks x Hx). cbn [andb]. clear Hx.
  induction t as [|y t IH]; [reflexivity|]. cbn [forallb] in *.
  apply andb_true_iff in Ht. destruct Ht as [Hy Ht].
  rewrite (name_rest_blocks y Hy), (IH Ht). reflexivity.
Qed.

(** C3.  The qualifier cuts the input into name tokens (a letter or
    underscore followed by letters and digits, as long as it can be, not
    behind a letter, digit, underscore, period or backslash) and the
    characters between them, in the one way there is, and puts "mp." in
    front of every token and nothing else.  An identifier behind a backslash
    stays as it is, backslash included, wherever it stands.  This holds for
    every input, validated or not. *)
Theorem qualifier_contract :
  (forall s, exists segs,
      segmented name_token [] s segs /\
      qualify_names s = replaced (fun t => str "mp." ++ t) segs /\
      forall segs', segmented name_token [] s segs' -> segs' = segs) /\
  (forall a t b, identifier t = true ->
      qualify_names (a ++ chr "\" :: t ++ b)
      = qualify_names a ++ chr "\" :: t
        ++ qualify_from (rev t ++ chr "\" :: rev a) b) /\
  qualify_names (str "sin(x)") = str "mp.sin(mp.x)" /\
  qualify_names (str "\x") = str "\x".
Proof.
  split; [|split].
  - intros s. exists (map segment_of (scan name_pattern [] s 0)).
    assert (Hseg : segmented name_token [] s
                     (map segment_of (scan name_pattern [] s 0))).
    { apply scan_segmented; [exact name_match_token|exact name_nomatch_token]. }
    split; [exact Hseg|]. split.
    + rewrite qualify_names_from. reflexivity.
    + intros segs' H'. apply (segmented_unique name_token name_token_det _ _ _ H' _ Hseg).
  - intros a t b Ht. rewrite !qualify_names_from, qualify_backslash.
    rewrite app_nil_r. f_equal. f_equal.
    rewrite qualify_blocked; [reflexivity|reflexivity|].
    apply identifier_blocks. exact Ht.
  - split; vm_compute; reflexivity.
Qed.

(** ** The number pattern *)

Lemma pystr_eqb_eq (s t : pystr) : pystr_eqb s t = true <-> s = t.
Proof.
  revert t. induction s as [|x s IH]; intros [|y t]; simpl;
    try (split; [discriminate|discriminate]); [tauto|].
  rewrite andb_true_iff, N.eqb_eq, IH. split.
  - intros [-> ->]. reflexivity.
  - intros [= -> ->]. split; reflexivity.
Qed.

Lemma pystr_eqb_refl (s : pystr) : pystr_eqb s s = true.
Proof. apply pystr_eqb_eq. reflexivity. Qed.

Lemma splits_spec (t a b : pystr) : In (a, b) (splits t) <-> t = a ++ b.
Proof.
  revert a b. induction t as [|x t IH]; intros a b; simpl.
  - split.
    + intros [[= <- <-]|[]]. reflexivity.
    + intros H. symmetry in H. apply app_eq_nil in H. destruct H as [-> ->].
      left. reflexivity.
  - rewrite in_map_iff. split.
    + intros [[= <- <-]|([a' b'] & [= <- <-] & H)]; [reflexivity|].
      apply IH in H. simpl. congruence.
    + destruct a as [|y a]; simpl.
      * intros <-. left. reflexivity.
      * intros [= <- ->]. right. exists (a, b). split; [reflexivity|].
        apply IH. reflexivity.
Qed.

Lemma l_seq_spec (P Q : lang) (t : pystr) :
  l_seq P Q t = true <->
  exists a b, t = a ++ b /\ P a = true /\ Q b = true.
Proof.
  unfold l_seq. rewrite existsb_exists. split.
  - intros ([a b] & Hin & H). apply splits_spec in Hin.
    apply andb_true_iff in H. exists a, b. tauto.
  - intros (a & b & Ht & Ha & Hb). exists (a, b). split.
    + apply splits_spec. exact Ht.
    + simpl. rewrite Ha, Hb. reflexivity.
Qed.

Lemma l_opt_spec (P : lang) (t : pystr) :
  l_opt P t = true <-> t = [] \/ (t <> [] /\ P t = true).
Proof.
  destruct t as [|x t]; simpl.
  - split; [left; reflexivity|reflexivity].
  - split.
    + intros H. right. split; [discriminate|exact H].
    + intros [H|[_ H]]; [discriminate|exact H].
Qed.

Lemma l_chr_spec (a : ascii) (t : pystr) : l_chr a t = true <-> t = [chr a].
Proof. apply pystr_eqb_eq. Qed.

(** Patterns without lookaround match the words of a language, whatever
    stands around them. *)
Lemma reaches_cat_lang (r1 r2 : regex) (P Q : lang) :
  (forall c c', reaches r1 c c' <-> exists t, P t = true /\ advance c t c') ->
  (forall c c', reaches r2 c c' <-> exists t, Q t = true /\ advance c t c') ->
  forall c c', reaches (Cat r1 r2) c c' <->
               exists t, l_seq P Q t = true /\ advance c t c'.
Proof.
  intros H1 H2 c c'. simpl. split.
  - intros (c1 & Hr1 & Hr2). apply H1 in Hr1. apply H2 in Hr2.
    destruct Hr1 as (t & Ht & Hat). destruct Hr2 as (u & Hu & Hau).
    exists (t ++ u). split; [|eapply advance_app; eassumption].
    apply l_seq_spec. exists t, u. repeat split; assumption.
  - intros (t & Ht & Hadv). apply l_seq_spec in Ht.
    destruct Ht as (a & b & -> & Ha & Hb).
    exists (Cursor (rev a ++ before c) (b ++ after c')). split.
    + apply H1. exists a. split; [exact Ha|]. destruct Hadv as [_ Hadv].
      split; simpl; [reflexivity|]. rewrite Hadv, app_assoc. reflexivity.
    + apply H2. exists b. split; [exact Hb|]. destruct Hadv as [Hadv _].
      split; simpl; [|reflexivity].
      rewrite Hadv, rev_app_distr, app_assoc. reflexivity.
Qed.

Lemma reaches_opt_lang (r : regex) (P : lang) :
  (forall c c', reaches r c c' <-> exists t, P t = true /\ advance c t c') ->
  forall c c', reaches (Opt r) c c' <->
               exists t, l_opt P t = true /\ advance c t c'.
Proof.
  intros H c c'. simpl. split.
  - intros [Hr| ->].
    + apply H in Hr. destruct Hr as (t & Ht & Hadv). exists t.
      split; [|exact Hadv]. destruct t; [reflexivity|exact Ht].
    + exists []. split; [reflexivity|apply advance_nil].
  - intros ([|x t] & Ht & Hadv).
    + right. apply advance_nil_inv. exact Hadv.
    + left. apply H. exists (x :: t). split; [exact Ht|exact Hadv].
Qed.

Lemma reaches_lit_lang (a : ascii) :
  forall c c', reaches (Lit a) c c' <->
               exists t, l_chr a t = true /\ advance c t c'.
Proof.
  intros c c'. unfold Lit. simpl. split.
  - intros (x & Hx & Hadv). rewrite mem_chr in Hx. apply N.eqb_eq in Hx.
    subst x. exists [chr a]. split; [apply pystr_eqb_refl|exact Hadv].
  - intros (t & Ht & Hadv). apply l_chr_spec in Ht. subst t.
    exists (chr a). split; [rewrite mem_chr; apply N.eqb_refl|exact Hadv].
Qed.

Lemma rev_head (t : pystr) (x d : char) (bef : list char) :
  exists rest, rev t ++ x :: bef = last (x :: t) d :: rest.
Proof.
  destruct t as [|y t] using rev_ind.
  - exists bef. reflexivity.
  - change (x :: t ++ [y]) with ((x :: t) ++ [y]).
    rewrite last_last, rev_app_distr. exists (rev t ++ x :: bef). reflexivity.
Qed.

Lemma forallb_digit_underscore (t : pystr) :
  forallb (mem [Digit; Chr (chr "_")]) t = forallb digit_or_underscore t.
Proof.
  induction t as [|x t IH]; simpl; [reflexivity|].
  rewrite mem_digit_underscore, IH. reflexivity.
Qed.

Lemma reaches_int_lang :
  forall c c', reaches int_pattern c c' <->
               exists t, int_text t = true /\ advance c t c'.
Proof.
  intros c c'. unfold int_pattern. simpl. split.
  - intros (c1 & (x & Hx & H1) & c2 & (t & Ht & H2) & (Hb & ->)).
    rewrite mem_digit in Hx. rewrite forallb_digit_underscore in Ht.
    exists (x :: t). split; [|apply (advance_app _ _ _ [x] t H1 H2)].
    unfold int_text. rewrite Hx, Ht. simpl.
    pose proof (advance_app _ _ _ [x] t H1 H2) as [Hbef _]. simpl in Hbef.
    rewrite <- app_assoc in Hbef. simpl in Hbef.
    destruct (rev_head t x (chr "_") (before c)) as [rest Hrest].
    rewrite Hrest in Hbef. unfold behind_free in Hb. rewrite Hbef in Hb.
    rewrite mem_chr in Hb. exact Hb.
  - intros ([|x t] & Ht & Hadv); [discriminate|].
    unfold int_text in Ht. apply andb_true_iff in Ht. destruct Ht as [Ht Hl].
    apply andb_true_iff in Ht. destruct Ht as [Hx Ht].
    destruct c as [bef aft]. destruct Hadv as [Hbef Haft]. simpl in Hbef, Haft.
    exists (Cursor (x :: bef) (t ++ after c')). split.
    + exists x. split; [rewrite mem_digit; exact Hx|].
      split; simpl; [reflexivity|exact Haft].
    + exists c'. split.
      * exists t. split; [rewrite forallb_digit_underscore; exact Ht|].
        split; simpl; [|reflexivity]. rewrite Hbef, <- app_assoc. reflexivity.
      * split; [|reflexivity]. unfold behind_free. rewrite Hbef.
        rewrite <- app_assoc. simpl.
        destruct (rev_head t x (chr "_") bef) as [rest Hrest].
        rewrite Hrest. rewrite mem_chr. exact Hl.
Qed.

Lemma reaches_number_body :
  forall c c', reaches number_body c c' <->
               exists t, number_text int_text t = true /\ advance c t c'.
Proof.
  unfold number_body, number_text.
  repeat first [ apply reaches_cat_lang | apply reaches_opt_lang
               | apply reaches_lit_lang | apply reaches_int_lang ].
Qed.

Lemma ahead_free_end (bef aft : list char) :
  ahead_free cannot_end_before (Cursor bef aft) = free_after aft.
Proof.
  unfold ahead_free, free_after. simpl. destruct aft; [reflexivity|].
  rewrite mem_cannot_end_before. reflexivity.
Qed.

(** Where the number pattern matches: at a literal that is free on both
    sides. *)
Lemma reaches_number_pattern (bef aft : list char) (c' : cursor) :
  reaches number_pattern (Cursor bef aft) c' <->
  exists t, number_token int_text bef t (after c') /\
            advance (Cursor bef aft) t c'.
Proof.
  unfold number_pattern, number_token, literal_text.
  cbn [reaches]. split.
  - intros (c1 & (Hb & ->) & c2 & Hbody & c3 & Hj & (Ha & ->)).
    rewrite behind_free_start in Hb. destruct c3 as [bef3 aft3].
    rewrite ahead_free_end in Ha.
    assert (Hseq : reaches (Cat number_body (Opt (Lit "j")))
                           (Cursor bef aft) (Cursor bef3 aft3)).
    { exists c2. split; assumption. }
    apply (reaches_cat_lang _ _ _ _ reaches_number_body
             (reaches_opt_lang _ _ (reaches_lit_lang "j"))) in Hseq.
    destruct Hseq as (t & Ht & Hadv). exists t. simpl. tauto.
  - intros (t & (Hb & Ht & Ha) & Hadv).
    assert (Hseq : reaches (Cat number_body (Opt (Lit "j")))
                           (Cursor bef aft) c').
    { apply (reaches_cat_lang _ _ _ _ reaches_number_body
               (reaches_opt_lang _ _ (reaches_lit_lang "j"))).
      exists t. split; assumption. }
    destruct Hseq as (c2 & Hbody & Hj).
    exists (Cursor bef aft). split; [split; [|reflexivity]|].
    + rewrite behind_free_start. exact Hb.
    + exists c2. split; [exact Hbody|]. exists c'. split; [exact Hj|].
      split; [|reflexivity]. destruct c'. rewrite ahead_free_end. exact Ha.
Qed.

(** *** The anatomy of a literal *)

Lemma digit_blocks (c : char) : is_digit c = true -> blocks_end c = true.
Proof.
  unfold blocks_end. intros ->. rewrite orb_true_r. reflexivity.
Qed.

Lemma blocks_not_minus (c : char) :
  blocks_end c = true -> c <> chr "-".
Proof. intros H ->. vm_compute in H. discriminate. Qed.

Lemma digit_or_underscore_blocks (c : char) :
  digit_or_underscore c = true -> blocks_end c = true.
Proof.
  unfold digit_or_underscore. intros H. apply orb_true_iff in H.
  destruct H as [H|H]; [apply digit_blocks; exact H|].
  apply N.eqb_eq in H. subst c. reflexivity.
Qed.

Lemma int_text_shape (i : pystr) :
  int_text i = true ->
  forallb blocks_end i = true /\
  (exists d i', i = d :: i' /\ is_digit d = true) /\
  (exists p z, i = p ++ [z] /\ is_digit z = true).
Proof.
  destruct i as [|d i']; [discriminate|]. unfold int_text. intros H.
  apply andb_true_iff in H. destruct H as [H Hl].
  apply andb_true_iff in H. destruct H as [Hd Hi].
  assert (Hall : forallb digit_or_underscore (d :: i') = true).
  { simpl. unfold digit_or_underscore at 1. rewrite Hd, Hi. reflexivity. }
  split; [|split].
  - clear - Hall. induction (d :: i') as [|x l IH]; [reflexivity|].
    simpl in *. apply andb_true_iff in Hall. destruct Hall as [Hx Hall].
    rewrite (digit_or_underscore_blocks _ Hx), (IH Hall). reflexivity.
  - exists d, i'. split; [reflexivity|exact Hd].
  - destruct (@exists_last _ (d :: i')) as (p & z & Hp); [discriminate|].
    exists p, z. split; [exact Hp|]. rewrite Hp in Hl, Hall.
    rewrite last_last in Hl. rewrite forallb_app in Hall.
    apply andb_true_iff in Hall. destruct Hall as [_ Hz]. simpl in Hz.
    rewrite andb_true_r in Hz. unfold digit_or_underscore in Hz.
    apply negb_true_iff in Hl. rewrite Hl, orb_false_r in Hz. exact Hz.
Qed.

(** A text that ends in a digit or in the imaginary marker. *)
Lemma ends_well_tail (x f j : pystr) :
  (exists p z, x = p ++ [z] /\ (is_digit z = true \/ z = chr "j")) ->
  (f = [] \/ exists p z, f = p ++ [z] /\ (is_digit z = true \/ z = chr "j")) ->
  (j = [] \/ j = [chr "j"]) ->
  exists p z, x ++ f ++ j = p ++ [z] /\ (is_digit z = true \/ z = chr "j").
Proof.
  intros (p & z & -> & Hz) Hf [-> | ->].
  - rewrite app_nil_r. destruct Hf as [-> |(q & y & -> & Hy)].
    + rewrite app_nil_r. exists p, z. split; [reflexivity|exact Hz].
    + exists ((p ++ [z]) ++ q), y. rewrite <- ?app_assoc.
      split; [reflexivity|exact Hy].
  - exists ((p ++ [z]) ++ f), (chr "j"). rewrite <- ?app_assoc.
    split; [reflexivity|right; reflexivity].
Qed.

Lemma literal_anatomy (t : pystr) :
  literal_text int_text t = true ->
  exists s0 u v,
    t = s0 ++ u ++ v /\ (s0 = [] \/ s0 = [chr "-"]) /\
    forallb blocks_end u = true /\
    (exists d u', u = d :: u' /\ is_digit d = true) /\
    ((v = [] /\
      exists p z, u = p ++ [z] /\ (is_digit z = true \/ z = chr "j")) \/
     (exists u' w, u = u' ++ [chr "e"] /\ v = chr "-" :: w /\
                   forallb blocks_end w = true /\
                   exists p z, w = p ++ [z]
                               /\ (is_digit z = true \/ z = chr "j"))).
Proof.
  unfold literal_text, number_text. intros H.
  apply l_seq_spec in H. destruct H as (n & j & -> & Hn & Hj).
  apply l_seq_spec in Hn. destruct Hn as (s0 & r1 & -> & Hs0 & Hr1).
  apply l_seq_spec in Hr1. destruct Hr1 as (i & r2 & -> & Hi & Hr2).
  apply l_seq_spec in Hr2. destruct Hr2 as (f & e & -> & Hf & He).
  assert (Hs0' : s0 = [] \/ s0 = [chr "-"]).
  { apply l_opt_spec in Hs0. destruct Hs0 as [->|[_ H]]; [left; reflexivity|].
    right. apply l_chr_spec. exact H. }
  assert (Hj' : j = [] \/ j = [chr "j"]).
  { apply l_opt_spec in Hj. destruct Hj as [->|[_ H]]; [left; reflexivity|].
    right. apply l_chr_spec. exact H. }
  assert (Hjb : forallb blocks_end j = true).
  { destruct Hj' as [-> | ->]; reflexivity. }
  destruct (int_text_shape i Hi) as (Hib & (d & i' & Hid & Hd) & Hie).
  assert (Hf' : forallb blocks_end f = true /\
                (f = [] \/ exists p z, f = p ++ [z]
                           /\ (is_digit z = true \/ z = chr "j"))).
  { apply l_opt_spec in Hf. destruct Hf as [->|[_ H]]; [split; [reflexivity|left; reflexivity]|].
    apply l_seq_spec in H. destruct H as (dot & i2 & -> & Hdot & Hi2).
    apply l_chr_spec in Hdot. subst dot.
    destruct (int_text_shape i2 Hi2) as (Hb2 & _ & (p & z & -> & Hz)).
    split; [simpl; exact Hb2|]. right. exists (chr "." :: p), z.
    split; [reflexivity|left; exact Hz]. }
  destruct Hf' as [Hfb Hfe].
  assert (Hie' : exists p z, i = p ++ [z] /\ (is_digit z = true \/ z = chr "j")).
  { destruct Hie as (p & z & -> & Hz). exists p, z. split; [reflexivity|left; exact Hz]. }
  exists s0.
  apply l_opt_spec in He. destruct He as [->|[_ He]].
  - exists (i ++ f ++ j), []. rewrite !app_nil_r.
    split; [rewrite <- ?app_assoc; reflexivity|]. split; [exact Hs0'|].
    split; [rewrite !forallb_app, Hib, Hfb, Hjb; reflexivity|].
    split; [exists d, (i' ++ f ++ j); rewrite Hid; split; [reflexivity|exact Hd]|].
    left. split; [reflexivity|]. apply ends_well_tail; assumption.
  - apply l_seq_spec in He. destruct He as (e1 & r3 & -> & He1 & Hr3).
    apply l_chr_spec in He1. subst e1.
    apply l_seq_spec in Hr3. destruct Hr3 as (s1 & i3 & -> & Hs1 & Hi3).
    destruct (int_text_shape i3 Hi3) as (Hb3 & _ & (p3 & z3 & Hp3 & Hz3)).
    assert (He3 : exists p z, i3 ++ j = p ++ [z]
                              /\ (is_digit z = true \/ z = chr "j")).
    { destruct (ends_well_tail i3 [] j) as (p & z & Hp & Hz).
      - exists p3, z3. split; [exact Hp3|left; exact Hz3].
      - left. reflexivity.
      - exact Hj'.
      - exists p, z. split; [exact Hp|exact Hz]. }
    apply l_opt_spec in Hs1. destruct Hs1 as [->|[_ Hs1]].
    + exists (i ++ f ++ chr "e" :: i3 ++ j), []. rewrite app_nil_r.
      split; [simpl; rewrite <- ?app_assoc; reflexivity|].
      split; [exact Hs0'|].
      split; [rewrite !forallb_app; simpl; rewrite forallb_app, Hib, Hfb, Hb3, Hjb; reflexivity|].
      split; [exists d, (i' ++ f ++ chr "e" :: i3 ++ j); rewrite Hid; split; [reflexivity|exact Hd]|].
      left. split; [reflexivity|]. destruct He3 as (p & z & Hp & Hz).
      exists (i ++ f ++ chr "e" :: p), z. rewrite Hp.
      split; [rewrite <- ?app_assoc; reflexivity|exact Hz].
    + apply l_chr_spec in Hs1. subst s1.
      exists (i ++ f ++ [chr "e"]), (chr "-" :: i3 ++ j).
      split; [simpl; rewrite <- ?app_assoc; reflexivity|].
      split; [exact Hs0'|].
      split; [rewrite !forallb_app, Hib, Hfb; reflexivity|].
      split; [exists d, (i' ++ f ++ [chr "e"]); rewrite Hid; split; [reflexivity|exact Hd]|].
      right. exists (i ++ f), (i3 ++ j).
      split; [rewrite <- app_assoc; reflexivity|]. split; [reflexivity|].
      split; [rewrite forallb_app, Hb3, Hjb; reflexivity|exact He3].
Qed.

(** A minus sign cannot lie inside a run of blocking characters. *)
Lemma split_at_minus (u v a b : pystr) :
  forallb blocks_end u = true -> u ++ v = a ++ chr "-" :: b ->
  exists a', a = u ++ a' /\ v = a' ++ chr "-" :: b.
Proof.
  revert a. induction u as [|x u IH]; intros a Hu H.
  - exists a. split; [reflexivity|exact H].
  - simpl in Hu. apply andb_true_iff in Hu. destruct Hu as [Hx Hu].
    destruct a as [|y a]; simpl in H.
    + injection H as -> _. exfalso. apply (blocks_not_minus _ Hx). reflexivity.
    + injection H as <- H. destruct (IH a Hu H) as (a' & -> & ->).
      exists a'. split; reflexivity.
Qed.

Lemma literal_first (t : pystr) :
  literal_text int_text t = true ->
  exists x t', t = x :: t' /\ (x = chr "-" \/ is_digit x = true).
Proof.
  intros H. destruct (literal_anatomy t H)
    as (s0 & u & v & -> & Hs0 & _ & (d & u' & -> & Hd) & _).
  destruct Hs0 as [-> | ->]; simpl.
  - exists d, (u' ++ v). split; [reflexivity|right; exact Hd].
  - eexists _, _. split; [reflexivity|left; reflexivity].
Qed.

Lemma literal_last (t : pystr) :
  literal_text int_text t = true ->
  exists p z, t = p ++ [z] /\ (is_digit z = true \/ z = chr "j").
Proof.
  intros H. destruct (literal_anatomy t H)
    as (s0 & u & v & -> & _ & _ & _ & [(-> & p & z & -> & Hz)
                                      |(u' & w & -> & -> & _ & p & z & -> & Hz)]).
  - exists (s0 ++ p), z. rewrite app_nil_r, app_assoc. split; [reflexivity|exact Hz].
  - exists (s0 ++ (u' ++ [chr "e"]) ++ chr "-" :: p), z.
    split; [|exact Hz]. rewrite <- ?app_assoc. simpl. rewrite <- ?app_assoc.
    reflexivity.
Qed.

Lemma literal_chars (t : pystr) :
  literal_text int_text t = true ->
  forallb (fun c => blocks_end c || N.eqb c (chr "-")) t = true.
Proof.
  intros H. destruct (literal_anatomy t H)
    as (s0 & u & v & -> & Hs0 & Hu & _ & Hv).
  assert (Hw : forall w, forallb blocks_end w = true ->
               forallb (fun c => blocks_end c || N.eqb c (chr "-")) w = true).
  { induction w as [|x w IH]; [reflexivity|]. simpl. intros Hx.
    apply andb_true_iff in Hx. destruct Hx as [-> Hx]. apply IH. exact Hx. }
  rewrite !forallb_app, (Hw u Hu).
  assert (Hs : forallb (fun c => blocks_end c || N.eqb c (chr "-")) s0 = true)
    by (destruct Hs0 as [-> | ->]; reflexivity).
  rewrite Hs. simpl.
  destruct Hv as [(-> & _)|(u' & w & _ & -> & Hwb & _)]; [reflexivity|].
  simpl. apply Hw. exact Hwb.
Qed.

(** A minus sign inside a literal comes right after the [e]. *)
Lemma literal_minus (t a b : pystr) :
  literal_text int_text t = true -> t = a ++ chr "-" :: b ->
  a = [] \/ exists a', a = a' ++ [chr "e"].
Proof.
  intros H Ht. destruct (literal_anatomy t H)
    as (s0 & u & v & -> & Hs0 & Hu & _ & Hv).
  assert (Hcore : forall a0, u ++ v = a0 ++ chr "-" :: b ->
                             exists a', a0 = a' ++ [chr "e"]).
  { intros a0 H0. destruct (split_at_minus u v a0 b Hu H0) as (a' & -> & Hv').
    destruct Hv as [(-> & _)|(u' & w & -> & -> & Hwb & _)].
    - destruct a'; discriminate.
    - destruct a' as [|y a']; simpl in Hv'.
      + rewrite app_nil_r. exists u'. reflexivity.
      + injection Hv' as <- Hv'.
        destruct (split_at_minus w [] a' b Hwb) as (a2 & _ & Habs).
        * rewrite app_nil_r. exact Hv'.
        * destruct a2; discriminate. }
  destruct Hs0 as [-> | ->]; simpl in Ht.
  - right. apply Hcore. exact Ht.
  - destruct a as [|y a]; [left; reflexivity|]. simpl in Ht.
    injection Ht as <- Ht. right. destruct (Hcore a Ht) as (a' & ->).
    exists (chr "-" :: a'). reflexivity.
Qed.

(** At one position there is at most one number token. *)
Lemma number_token_det (bef : list char) (t1 r1 t2 r2 : pystr) :
  number_token int_text bef t1 r1 -> number_token int_text bef t2 r2 ->
  t1 ++ r1 = t2 ++ r2 -> t1 = t2.
Proof.
  assert (Hlonger : forall ta ra tb l rb,
             literal_text int_text ta = true -> free_after ra = true ->
             literal_text int_text tb = true ->
             tb = ta ++ l -> ra = l ++ rb -> l = []).
  { intros u1 s1 u2 l rb H1 Hr1 H2 Ht Hr.
    destruct l as [|y l]; [reflexivity|]. exfalso. subst u2 s1.
    simpl in Hr1. apply negb_true_iff in Hr1.
    pose proof (literal_chars _ H2) as Hc. rewrite forallb_app in Hc.
    apply andb_true_iff in Hc. destruct Hc as [_ Hc]. simpl in Hc.
    rewrite Hr1 in Hc. simpl in Hc. apply andb_true_iff in Hc.
    destruct Hc as [Hy _]. apply N.eqb_eq in Hy. subst y.
    destruct (literal_last _ H1) as (p & z & -> & Hz).
    destruct (literal_minus _ _ _ H2 eq_refl) as [Ha|(a' & Ha)].
    - destruct p; discriminate.
    - apply app_inj_tail in Ha. destruct Ha as [_ ->].
      destruct Hz as [Hz|Hz]; [vm_compute in Hz|]; discriminate. }
  intros (_ & H1 & Hr1) (_ & H2 & Hr2) Heq.
  apply app_eq_app in Heq. destruct Heq as (l & [[-> ->]|[-> ->]]).
  - rewrite (Hlonger t2 (l ++ r1) (t2 ++ l) l r1 H2 Hr2 H1 eq_refl eq_refl).
    apply app_nil_r.
  - rewrite (Hlonger t1 (l ++ r2) (t1 ++ l) l r2 H1 Hr1 H2 eq_refl eq_refl).
    symmetry. apply app_nil_r.
Qed.

(** *** The matches of the number pattern are the number tokens *)

Lemma number_match_token (bef aft : list char) (m : re_match) :
  match_at number_pattern bef aft = Some m ->
  m_text m <> [] /\
  exists rest, aft = m_text m ++ rest
               /\ number_token int_text bef (m_text m) rest.
Proof.
  intros H. apply match_at_some in H. destruct H as (rest & Ha & Hr & _).
  apply reaches_number_pattern in Hr. destruct Hr as (t & Htok & Hadv).
  assert (t = m_text m) as ->.
  { destruct Hadv as [_ Hadv]. simpl in Hadv. rewrite Ha in Hadv.
    apply app_inv_tail in Hadv. symmetry. exact Hadv. }
  simpl in Htok. split.
  - destruct Htok as (_ & Hl & _). destruct (literal_first _ Hl) as (x & t' & -> & _).
    discriminate.
  - exists rest. split; [exact Ha|exact Htok].
Qed.

Lemma number_nomatch_token (bef aft : list char) :
  match_at number_pattern bef aft = None ->
  forall t rest, aft = t ++ rest -> ~ number_token int_text bef t rest.
Proof.
  intros H t rest -> Htok.
  apply (proj1 (match_at_none _ _ _) H (Cursor (rev t ++ bef) rest)).
  apply reaches_number_pattern. exists t. split; [exact Htok|].
  apply advance_to.
Qed.

Lemma number_token_match (bef : list char) (t rest : pystr) :
  number_token int_text bef t rest ->
  exists g, match_at number_pattern bef (t ++ rest) = Some (Match t g).
Proof.
  intros Htok.
  apply (match_at_unique number_pattern bef (t ++ rest) t rest);
    [|reflexivity|].
  - intros c1 c2 H1 H2. apply reaches_number_pattern in H1, H2.
    destruct H1 as (t1 & Ht1 & Ha1). destruct H2 as (t2 & Ht2 & Ha2).
    assert (t1 = t2) as ->.
    { apply (number_token_det bef t1 (after c1) t2 (after c2) Ht1 Ht2).
      destruct Ha1 as [_ Ha1]. destruct Ha2 as [_ Ha2]. simpl in *. congruence. }
    eapply advance_same; eassumption.
  - apply reaches_number_pattern. exists t. split; [exact Htok|].
    apply advance_to.
Qed.

(** Capture groups: a pattern without groups records nothing. *)
Lemma ends_group_free (r : regex) :
  group_free r = true ->
  forall c g c' g', In (c', g') (ends r (c, g)) -> g' = g.
Proof.
  induction r; simpl; intros Hg c g c' g'.
  - rewrite in_map_iff. intros (? & [= _ <-] & _). reflexivity.
  - rewrite in_map_iff. intros (? & [= _ <-] & _). reflexivity.
  - apply andb_true_iff in Hg. destruct Hg as [Hg1 Hg2].
    rewrite in_flat_map. intros ([c1 g1] & H1 & H2).
    rewrite (IHr2 Hg2 _ _ _ _ H2). apply (IHr1 Hg1 _ _ _ _ H1).
  - apply andb_true_iff in Hg. destruct Hg as [Hg1 Hg2].
    rewrite in_app_iff. intros [H|H]; [apply (IHr1 Hg1 _ _ _ _ H)|apply (IHr2 Hg2 _ _ _ _ H)].
  - rewrite in_app_iff. intros [H|[[= _ <-]|[]]]; [apply (IHr Hg _ _ _ _ H)|reflexivity].
  - rewrite in_map_iff. intros (? & [= _ <-] & _). reflexivity.
  - destruct (behind_free cs c); [|intros []]. intros [[= _ <-]|[]]. reflexivity.
  - destruct (ahead_free cs c); [|intros []]. intros [[= _ <-]|[]]. reflexivity.
  - discriminate.
Qed.

Lemma ends_Cat (r1 r2 : regex) (c : cursor) (g : groups) :
  ends (Cat r1 r2) (c, g) = flat_map (ends r2) (ends r1 (c, g)).
Proof. reflexivity. Qed.

Lemma ends_NotBehind (cs : cset) (c : cursor) (g : groups) :
  ends (NotBehind cs) (c, g) = if behind_free cs c then [(c, g)] else [].
Proof. reflexivity. Qed.

Lemma ends_Group (n : nat) (r : regex) (c : cursor) (g : groups) :
  ends (Group n r) (c, g)
  = map (fun st' => (fst st', (n, between c (fst st')) :: snd st'))
        (ends r (c, g)).
Proof. reflexivity. Qed.

(** Group 1 of a match of the number pattern is the number, without the
    imaginary marker that [m[0]] may end in. *)
Lemma number_groups (bef aft : list char) (m : re_match) :
  match_at number_pattern bef aft = Some m ->
  exists body marker,
    group m 1 = Some body /\ m_text m = body ++ marker /\
    number_text int_text body = true /\
    (marker = [] \/ marker = [chr "j"]).
Proof.
  intros H. apply match_at_some in H. destruct H as (rest & Ha & _ & Hin).
  unfold number_pattern in Hin. rewrite ends_Cat, ends_NotBehind in Hin.
  rewrite behind_free_start in Hin.
  destruct (free_before bef); [|destruct Hin].
  cbn [flat_map] in Hin. rewrite app_nil_r, ends_Cat in Hin.
  apply in_flat_map in Hin. destruct Hin as ([c2 g2] & H2 & H3).
  rewrite ends_Group in H2.
  apply in_map_iff in H2. destruct H2 as ([c2' g1] & Heq & H2).
  cbn [fst snd] in Heq. injection Heq as -> <-.
  pose proof (ends_group_free number_body eq_refl _ _ _ _ H2) as ->.
  pose proof (ends_group_free (Cat (Opt (Lit "j")) (NotAhead cannot_end_before))
                eq_refl _ _ _ _ H3) as Hg.
  apply ends_reaches in H2, H3.
  apply reaches_number_body in H2. destruct H2 as (body & Hbody & Hadv).
  destruct H3 as (c3 & Hj & (_ & Hc3)).
  apply (reaches_opt_lang _ _ (reaches_lit_lang "j")) in Hj.
  destruct Hj as (marker & Hm & Hadv'). subst c3.
  exists body, marker. unfold group. rewrite Hg. cbn [assoc Nat.eqb].
  rewrite (between_advance _ _ _ Hadv). split; [reflexivity|].
  pose proof (advance_app _ _ _ _ _ Hadv Hadv') as [_ Hall].
  cbn [after] in Hall. rewrite Ha in Hall. apply app_inv_tail in Hall.
  split; [exact Hall|]. split; [exact Hbody|].
  apply l_opt_spec in Hm. destruct Hm as [->|[_ Hm]]; [left; reflexivity|].
  right. apply l_chr_spec. exact Hm.
Qed.

(** The specification's grammar is part of the pattern's. *)
Lemma l_seq_mono (P P' Q Q' : lang) (t : pystr) :
  (forall u, P u = true -> P' u = true) ->
  (forall u, Q u = true -> Q' u = true) ->
  l_seq P Q t = true -> l_seq P' Q' t = true.
Proof.
  intros HP HQ H. apply l_seq_spec in H. destruct H as (a & b & -> & Ha & Hb).
  apply l_seq_spec. exists a, b. split; [reflexivity|]. split; auto.
Qed.

Lemma l_opt_mono (P P' : lang) (t : pystr) :
  (forall u, P u = true -> P' u = true) ->
  l_opt P t = true -> l_opt P' t = true.
Proof. intros HP. destruct t; simpl; auto. Qed.

Lemma literal_single_literal (t : pystr) :
  literal_text int_text_single t = true -> literal_text int_text t = true.
Proof.
  assert (Hi : forall u, int_text_single u = true -> int_text u = true).
  { intros u H. unfold int_text_single in H. apply andb_true_iff in H. tauto. }
  unfold literal_text, number_text.
  revert t.
  repeat match goal with
         | |- l_seq _ _ _ = true -> _ => apply l_seq_mono
         | |- l_opt _ _ = true -> _ => apply l_opt_mono
         | |- int_text_single _ = true -> _ => apply Hi
         | |- ?A = true -> ?A = true => exact (fun H => H)
         | |- forall u : pystr, _ => intro
         end.
Qed.

(** ** The literal table *)

Lemma pystr_eqb_sym (s t : pystr) : pystr_eqb s t = pystr_eqb t s.
Proof.
  destruct (pystr_eqb s t) eqn:E; symmetry.
  - apply pystr_eqb_eq in E. subst. apply pystr_eqb_refl.
  - destruct (pystr_eqb t s) eqn:E'; [|reflexivity].
    apply pystr_eqb_eq in E'. subst. rewrite pystr_eqb_refl in E. discriminate.
Qed.

Lemma known_app (k : pystr) (a b : list pystr) :
  known k (a ++ b) = known k a || known k b.
Proof. unfold known. apply existsb_app. Qed.

Lemma known_in (k : pystr) (l : list pystr) : known k l = true <-> In k l.
Proof.
  unfold known. rewrite existsb_exists. split.
  - intros (x & Hx & E). apply pystr_eqb_eq in E. subst. exact Hx.
  - intros H. exists k. split; [exact H|apply pystr_eqb_refl].
Qed.

Lemma dict_contains_known {V : Type} (k : pystr) (d : dict V) :
  dict_contains k d = known k (dict_keys d).
Proof.
  unfold dict_contains, known, dict_keys.
  induction d as [|[k' v] d IH]; simpl; [reflexivity|].
  rewrite IH, pystr_eqb_sym. reflexivity.
Qed.

Lemma dict_set_fresh {V : Type} (k : pystr) (v : V) (d : dict V) :
  dict_contains k d = false -> dict_set k v d = d ++ [(k, v)].
Proof.
  unfold dict_contains. induction d as [|[k' v'] d IH]; simpl; [reflexivity|].
  intros H. apply orb_false_iff in H. destruct H as [E H]. rewrite E.
  rewrite (IH H). reflexivity.
Qed.

Lemma dict_get_app {V : Type} (k : pystr) (d d' : dict V) :
  dict_get k (d ++ d') =
  match dict_get k d with
  | Some v => Some v
  | None => dict_get k d'
  end.
Proof.
  induction d as [|[k' v'] d IH]; simpl; [reflexivity|].
  destruct (pystr_eqb k' k); [reflexivity|exact IH].
Qed.

Lemma occurrences_app (k : pystr) (a b : list pystr) :
  occurrences k (a ++ b) = occurrences k a + occurrences k b.
Proof. unfold occurrences. rewrite filter_app, length_app. reflexivity. Qed.

Lemma occurrences_known (k : pystr) (l : list pystr) :
  known k l = false -> occurrences k l = 0.
Proof.
  unfold known, occurrences. induction l as [|x l IH]; simpl; [reflexivity|].
  intros H. apply orb_false_iff in H. destruct H as [E H]. rewrite E.
  apply IH. exact H.
Qed.

Lemma occurrences_pos (k : pystr) (l : list pystr) :
  1 <= occurrences k l -> known k l = true.
Proof.
  intros H. destruct (known k l) eqn:E; [reflexivity|].
  rewrite (occurrences_known k l E) in H. lia.
Qed.

(** Every key that is met and not yet known is listed once. *)
Lemma occurrences_first_seen (k : pystr) (keys : list pystr) :
  forall seen,
    occurrences k (first_seen seen keys) =
    if known k seen then 0 else if known k keys then 1 else 0.
Proof.
  induction keys as [|k' keys IH]; intros seen; simpl.
  - destruct (known k seen); reflexivity.
  - destruct (known k' seen) eqn:Ek'.
    + rewrite IH. destruct (known k seen) eqn:Ek; [reflexivity|].
      destruct (pystr_eqb k k') eqn:E; [|reflexivity].
      apply pystr_eqb_eq in E. subst k'. congruence.
    + unfold occurrences in *. simpl. destruct (pystr_eqb k k') eqn:E; simpl.
      * apply pystr_eqb_eq in E. subst k'. rewrite IH, known_app, Ek'.
        simpl. unfold known at 1. simpl. rewrite pystr_eqb_refl. reflexivity.
      * rewrite IH, known_app. unfold known at 2. simpl. rewrite E. simpl.
        rewrite orb_false_r. reflexivity.
Qed.

Section Table.
Context {L : Library}.

Lemma replace_known (m : re_match) (w : world) :
  dict_contains (m_text m) (NUMBERS w) = true ->
  replace_number_with_mpf m w = (inr (lookup (m_text m)), w).
Proof.
  intros H. unfold replace_number_with_mpf, bind, ret. rewrite H. reflexivity.
Qed.

Lemma replace_new (m : re_match) (w : world) :
  dict_contains (m_text m) (NUMBERS w) = false ->
  replace_number_with_mpf m w =
  match mpmathify_str (mp w) (m_text m) with
  | inr v =>
      (inr (lookup (m_text m)),
       World (mp w) (NUMBERS w ++ [(m_text m, v)]) (stdout w)
             (calls w ++ [Parsed (prec (mp w)) (m_text m)]))
  | inl e =>
      (inl e,
       World (mp w) (NUMBERS w) (stdout w)
             (calls w ++ [Parsed (prec (mp w)) (m_text m)]))
  end.
Proof.
  intros H.
  unfold replace_number_with_mpf, bind, ret, call_mpmathify_str, store,
    set_NUMBERS.
  rewrite H. simpl. destruct (mpmathify_str (mp w) (m_text m)); simpl;
    [reflexivity|]. rewrite (dict_set_fresh _ _ _ H). reflexivity.
Qed.

(** Extraction touches neither the context nor standard output. *)
Lemma sub_pieces_frame (ps : list piece) :
  forall w r w',
    sub_pieces replace_number_with_mpf ps w = (r, w') ->
    mp w' = mp w /\ stdout w' = stdout w.
Proof.
  induction ps as [|[x|m] ps IH]; intros w r w'; simpl.
  - unfold ret. intros [= _ <-]. split; reflexivity.
  - unfold bind, ret.
    destruct (sub_pieces replace_number_with_mpf ps w) as [[e|out] w1] eqn:E;
      intros [= _ <-]; apply (IH _ _ _ E).
  - unfold bind at 1.
    destruct (dict_contains (m_text m) (NUMBERS w)) eqn:Ek.
    + rewrite (replace_known m w Ek). unfold bind, ret.
      destruct (sub_pieces replace_number_with_mpf ps w) as [[e|out] w1] eqn:E;
        intros [= _ <-]; apply (IH _ _ _ E).
    + rewrite (replace_new m w Ek).
      destruct (mpmathify_str (mp w) (m_text m)) as [e|v].
      * intros [= _ <-]. split; reflexivity.
      * unfold bind, ret.
        match goal with
        | |- context [sub_pieces _ ps ?w1] =>
            destruct (sub_pieces replace_number_with_mpf ps w1)
              as [[e|out] w2] eqn:E
        end; intros [= _ <-]; apply (IH _ _ _ E).
Qed.

(** What a completed extraction leaves behind. *)
Lemma sub_pieces_ok (ps : list piece) :
  forall w out w',
    sub_pieces replace_number_with_mpf ps w = (inr out, w') ->
    out = replaced lookup (map segment_of ps) /\
    exists vs,
      NUMBERS w' = NUMBERS w ++ vs /\
      map fst vs
      = first_seen (dict_keys (NUMBERS w)) (tokens (map segment_of ps)) /\
      (forall k v, In (k, v) vs -> mpmathify_str (mp w) k = inr v) /\
      calls w' = calls w ++ map (Parsed (prec (mp w))) (map fst vs).
Proof.
  induction ps as [|[x|m] ps IH]; intros w out w'; simpl.
  - unfold ret. intros [= <- <-]. split; [reflexivity|]. exists [].
    rewrite !app_nil_r. repeat split. intros k v [].
  - unfold bind, ret.
    destruct (sub_pieces replace_number_with_mpf ps w) as [[e|rest] w1] eqn:E;
      [discriminate|]. intros [= <- <-].
    destruct (IH _ _ _ E) as (-> & vs & Hvs). split; [reflexivity|].
    exists vs. exact Hvs.
  - unfold bind at 1.
    destruct (dict_contains (m_text m) (NUMBERS w)) eqn:Ek.
    + rewrite (replace_known m w Ek). unfold bind, ret.
      destruct (sub_pieces replace_number_with_mpf ps w) as [[e|rest] w1] eqn:E;
        [discriminate|]. intros [= <- <-].
      destruct (IH _ _ _ E) as (-> & vs & Hvs). split; [reflexivity|].
      exists vs. rewrite dict_contains_known in Ek. rewrite Ek. exact Hvs.
    + rewrite (replace_new m w Ek).
      destruct (mpmathify_str (mp w) (m_text m)) as [e|v] eqn:Ev;
        [discriminate|].
      unfold bind, ret.
      match goal with
      | |- context [sub_pieces _ ps ?w1] =>
          destruct (sub_pieces replace_number_with_mpf ps w1)
            as [[e|rest] w2] eqn:E
      end; [discriminate|]. intros [= <- <-].
      destruct (IH _ _ _ E) as (-> & vs & H1 & H2 & H3 & H4).
      cbn [mp NUMBERS stdout calls] in *. split; [reflexivity|].
      exists ((m_text m, v) :: vs).
      rewrite dict_contains_known in Ek. rewrite Ek.
      unfold dict_keys in *. rewrite map_app in H2. simpl in H2.
      split; [rewrite H1, <- app_assoc; reflexivity|].
      split; [simpl; rewrite H2; reflexivity|].
      split.
      * intros k v' [[= <- <-]|Hin]; [exact Ev|apply H3; exact Hin].
      * rewrite H4, <- app_assoc. reflexivity.
Qed.


End Table.

Lemma number_segmented (s : pystr) :
  segmented (number_token int_text) [] s
            (map segment_of (pieces number_pattern s)).
Proof.
  apply scan_segmented; [exact number_match_token|exact number_nomatch_token].
Qed.

Lemma added_app {A : Type} (old new : list A) : added old (old ++ new) = new.
Proof.
  unfold added. induction old as [|x old IH]; [reflexivity|exact IH].
Qed.

Lemma parsed_keys_map `{L : Library} (p : Z) (ks : list pystr) :
  flat_map parsed_key (map (Parsed p) ks) = ks.
Proof.
  induction ks as [|k ks IH]; simpl; [reflexivity|]. rewrite IH. reflexivity.
Qed.

Lemma dict_get_in {V : Type} (k : pystr) (d : dict V) :
  In k (map fst d) -> exists v, dict_get k d = Some v /\ In (k, v) d.
Proof.
  induction d as [|[k' v'] d IH]; simpl; [intros []|]. intros H.
  destruct (pystr_eqb k' k) eqn:E.
  - apply pystr_eqb_eq in E. subst k'. exists v'. split; [reflexivity|].
    left. reflexivity.
  - destruct H as [H|H]; [subst k'; rewrite pystr_eqb_refl in E; discriminate|].
    destruct (IH H) as (v & Hv & Hin). exists v. split; [exact Hv|].
    right. exact Hin.
Qed.

Lemma extract_ok `{L : Library} (s : pystr) (w w' : world) (out : pystr) :
  extract_numbers s w = (inr out, w') ->
  out = replaced lookup (map segment_of (pieces number_pattern s)) /\
  exists vs,
    NUMBERS w' = NUMBERS w ++ vs /\
    map fst vs = first_seen (dict_keys (NUMBERS w)) (literals s) /\
    (forall k v, In (k, v) vs -> mpmathify_str (mp w) k = inr v) /\
    calls w' = calls w ++ map (Parsed (prec (mp w))) (map fst vs).
Proof. apply sub_pieces_ok. Qed.

(** C1, as the code has it.  A match of the number pattern is the number
    (group 1) followed by the imaginary marker when there is one, and the
    key under which [replace_number_with_mpf] stores the value, and which
    the text it returns refers to, is the whole match, the marker included.
    The value is what [mp.mpmathify] makes of that key, marker and all. *)
Theorem literal_key_is_whole_match (L : Library) (bef aft : list char)
        (m : re_match) :
  match_at number_pattern bef aft = Some m ->
  exists body marker,
    group m 1 = Some body /\ number_text int_text body = true /\
    (marker = [] \/ marker = [chr "j"]) /\
    m_text m = body ++ marker /\
    forall w v,
      dict_contains (body ++ marker) (NUMBERS w) = false ->
      mpmathify_str (mp w) (body ++ marker) = inr v ->
      replace_number_with_mpf m w =
      (inr (lookup (body ++ marker)),
       World (mp w) (NUMBERS w ++ [(body ++ marker, v)]) (stdout w)
             (calls w ++ [Parsed (prec (mp w)) (body ++ marker)])).
Proof.
  intros H. destruct (number_groups _ _ _ H) as (body & marker & Hg & Ht & Hb & Hm).
  exists body, marker. repeat split; try assumption.
  intros w v Hk Hv. rewrite <- Ht in *. rewrite (replace_new m w Hk), Hv.
  reflexivity.
Qed.

Lemma literal_key_is_whole_match_witness :
  exists body marker,
    group (Match (str "2j") [(1, str "2")]) 1 = Some body /\
    number_text int_text body = true /\
    (marker = [] \/ marker = [chr "j"]) /\
    str "2j" = body ++ marker /\
    forall (w : @world text_library) v,
      dict_contains (body ++ marker) (NUMBERS w) = false ->
      mpmathify_str (mp w) (body ++ marker) = inr v ->
      replace_number_with_mpf (Match (str "2j") [(1, str "2")]) w =
      (inr (lookup (body ++ marker)),
       World (mp w) (NUMBERS w ++ [(body ++ marker, v)]) (stdout w)
             (calls w ++ [Parsed (prec (mp w)) (body ++ marker)])).
Proof.
  apply (literal_key_is_whole_match text_library [] (str "2j")
           (Match (str "2j") [(1, str "2")])).
  vm_compute. reflexivity.
Defined.

(** C1, as it is stated, fails on "2j": the one key in the table is "2j",
    the text put in place of the literal is NUMBERS['2j'], and there is no
    key "2". *)
Lemma literal_key_keeps_marker :
  fst (@extract_numbers text_library (str "2j") fresh_world)
  = inr (str "NUMBERS['2j']") /\
  dict_keys (NUMBERS (snd (@extract_numbers text_library (str "2j")
                             fresh_world))) = [str "2j"] /\
  dict_contains (str "2")
    (NUMBERS (snd (@extract_numbers text_library (str "2j") fresh_world)))
  = false.
Proof. vm_compute. repeat split. Qed.

(** C4, as the code has it.  The extractor cuts the input, in the one way
    there is, into number tokens and the characters between them, where a
    number token is a literal (optional minus, integer part, optional
    fraction, optional exponent, optional j) not behind a letter, digit,
    underscore, period or backslash and not in front of a letter, digit,
    underscore or period, and an integer part is a digit followed by digits
    and underscores of which the last is no underscore.  Every token is
    replaced by its lookup text and nothing else changes.  Literals with
    single underscores only are among these, and "-3.5" is one token. *)
Theorem extractor_tokens :
  (forall s,
      segmented (number_token int_text) [] s
                (map segment_of (pieces number_pattern s)) /\
      forall segs, segmented (number_token int_text) [] s segs ->
                   segs = map segment_of (pieces number_pattern s)) /\
  (forall (L : Library) s w out w',
      extract_numbers s w = (inr out, w') ->
      out = replaced lookup (map segment_of (pieces number_pattern s))) /\
  (forall t, literal_text int_text_single t = true ->
             literal_text int_text t = true) /\
  map segment_of (pieces number_pattern (str "-3.5")) = [Token (str "-3.5")].
Proof.
  split; [|split; [|split]].
  - intros s. split; [apply number_segmented|]. intros segs H.
    apply (segmented_unique _ number_token_det _ _ _ H _ (number_segmented s)).
  - intros L s w out w' H. apply (extract_ok _ _ _ _ H).
  - exact literal_single_literal.
  - vm_compute. reflexivity.
Qed.

(** C4, as it is stated, fails on "1__2": the extractor takes it as one
    token, and with single underscores only it is no literal. *)
Lemma extractor_double_underscore :
  map segment_of (pieces number_pattern (str "1__2")) = [Token (str "1__2")] /\
  literal_text int_text_single (str "1__2") = false /\
  ~ segmented (number_token int_text_single) [] (str "1__2")
      (map segment_of (pieces number_pattern (str "1__2"))).
Proof.
  assert (H1 : map segment_of (pieces number_pattern (str "1__2"))
               = [Token (str "1__2")]) by (vm_compute; reflexivity).
  assert (H2 : literal_text int_text_single (str "1__2") = false)
    by (vm_compute; reflexivity).
  split; [exact H1|]. split; [exact H2|]. rewrite H1. intros H.
  remember (str "1__2") as s eqn:Es. remember ([] : list char) as bef eqn:Eb.
  remember [Token s] as segs eqn:Esegs.
  destruct H as [bef|bef t rest segs' Hne Htok H|bef x rest segs' Hno H];
    [discriminate| |discriminate].
  injection Esegs as Et _.
  assert (Hrest : rest = []).
  { apply (app_inv_head t). rewrite app_nil_r. symmetry. exact Et. }
  subst rest. rewrite app_nil_r in H2. destruct Htok as (_ & Hl & _).
  congruence.
Qed.

(** C5.  Starting from an empty table, when the extraction completes and a
    literal text is matched [n >= 1] times, the table has one entry under
    that text, holding what [mp.mpmathify] made of it; [mp.mpmathify] was
    called on it once; and the rewritten string is the input with each of
    the [n] matches replaced by the lookup of that one key. *)
Theorem extraction_idempotent (L : Library) (s : pystr) (w w' : world)
        (out key : pystr) (n : nat) :
  NUMBERS w = [] ->
  extract_numbers s w = (inr out, w') ->
  occurrences key (literals s) = n -> 1 <= n ->
  occurrences key (dict_keys (NUMBERS w')) = 1 /\
  (exists v, dict_get key (NUMBERS w') = Some v
             /\ mpmathify_str (mp w) key = inr v) /\
  occurrences key (flat_map parsed_key (added (calls w) (calls w'))) = 1 /\
  out = replaced lookup (map segment_of (pieces number_pattern s)) /\
  occurrences key (tokens (map segment_of (pieces number_pattern s))) = n.
Proof.
  intros Hw Hrun Hn Hpos.
  destruct (extract_ok _ _ _ _ Hrun) as (Hout & vs & Hnum & Hkeys & Hval & Hcalls).
  rewrite Hw in Hnum, Hkeys. simpl in Hnum, Hkeys.
  assert (Hone : occurrences key (map fst vs) = 1).
  { rewrite Hkeys, occurrences_first_seen. simpl.
    rewrite (occurrences_pos key (literals s)) by lia. reflexivity. }
  split; [rewrite Hnum; exact Hone|]. split; [|split; [|split]].
  - rewrite Hnum. destruct (dict_get_in key vs) as (v & Hv & Hin).
    + apply known_in. apply occurrences_pos. lia.
    + exists v. split; [exact Hv|apply Hval; exact Hin].
  - rewrite Hcalls, added_app, parsed_keys_map. exact Hone.
  - exact Hout.
  - exact Hn.
Qed.

Lemma extraction_idempotent_witness :
  fst (@extract_numbers text_library (str "1.5 + 1.5") fresh_world)
  = inr (str "NUMBERS['1.5'] + NUMBERS['1.5']") /\
  NUMBERS (snd (@extract_numbers text_library (str "1.5 + 1.5") fresh_world))
  = [(str "1.5", str "1.5")] /\
  occurrences (str "1.5")
    (dict_keys (NUMBERS (snd (@extract_numbers text_library
                                (str "1.5 + 1.5") fresh_world)))) = 1 /\
  occurrences (str "1.5")
    (flat_map parsed_key
       (added (calls fresh_world)
          (calls (snd (@extract_numbers text_library (str "1.5 + 1.5")
                         fresh_world))))) = 1 /\
  occurrences (str "1.5") (literals (str "1.5 + 1.5")) = 2.
Proof.
  destruct (@extraction_idempotent text_library (str "1.5 + 1.5") fresh_world
              (snd (@extract_numbers text_library (str "1.5 + 1.5") fresh_world))
              (str "NUMBERS['1.5'] + NUMBERS['1.5']") (str "1.5") 2)
    as (H1 & _ & H3 & _ & H5).
  - reflexivity.
  - vm_compute. reflexivity.
  - vm_compute. reflexivity.
  - lia.
  - split; [vm_compute; reflexivity|]. split; [vm_compute; reflexivity|].
    split; [exact H1|]. split; [exact H3|exact H5].
Defined.

(** ** The escape stripper *)

Lemma strip_is_filter (s : pystr) :
  strip_backslashes s = filter (fun c => negb (N.eqb c (chr "\"))) s.
Proof.
  unfold strip_backslashes, str_replace.
  change (str "\") with [chr "\"].
  induction s as [|c s IH]; [reflexivity|].
  cbn [replace_from strip_prefix filter length].
  rewrite N.eqb_sym. destruct (N.eqb c (chr "\")); cbn [negb app].
  - exact IH.
  - rewrite IH. reflexivity.
Qed.

Lemma filter_keeps_all (p : char -> bool) (s : pystr) :
  forallb p s = true -> filter p s = s.
Proof.
  induction s as [|c s IH]; simpl; [reflexivity|]. intros H.
  apply andb_true_iff in H. destruct H as [-> H]. rewrite (IH H). reflexivity.
Qed.

Lemma scan_end (r : regex) (bef : list char) :
  match_at r bef [] = None -> scan r bef [] 0 = [].
Proof. intros H. simpl. rewrite H. reflexivity. Qed.

Lemma number_blocked (bef aft : list char) :
  free_before bef = false -> match_at number_pattern bef aft = None.
Proof.
  intros Hb. destruct (match_at number_pattern bef aft) as [m|] eqn:E;
    [|reflexivity].
  destruct (number_match_token _ _ _ E) as (_ & rest & _ & (Hf & _)).
  congruence.
Qed.

Lemma number_blocked_run (t : pystr) :
  forall bef, free_before bef = false -> forallb blocks_start t = true ->
              scan number_pattern bef t 0 = map Gap t.
Proof.
  induction t as [|x t IH]; intros bef Hb Ht.
  - apply scan_end. apply number_blocked. exact Hb.
  - simpl in Ht. apply andb_true_iff in Ht. destruct Ht as [Hx Ht].
    rewrite scan_gap by (apply number_blocked; exact Hb).
    simpl. f_equal. apply IH; [|exact Ht]. simpl. rewrite Hx. reflexivity.
Qed.

Lemma number_not_at_backslash (bef rest : list char) :
  match_at number_pattern bef (chr "\" :: rest) = None.
Proof.
  destruct (match_at number_pattern bef (chr "\" :: rest)) as [m|] eqn:E;
    [|reflexivity].
  destruct (number_match_token _ _ _ E) as (_ & r & Ha & (_ & Hl & _)).
  destruct (literal_first _ Hl) as (x & t' & Ht & Hx). rewrite Ht in Ha.
  injection Ha as <- _. destruct Hx as [Hx|Hx]; vm_compute in Hx; discriminate.
Qed.

Lemma sub_pieces_gaps `{L : Library} (f : re_match -> M pystr) (s : pystr)
      (w : world) :
  sub_pieces f (map Gap s) w = (inr s, w).
Proof.
  induction s as [|x s IH]; simpl; [reflexivity|].
  unfold bind, ret. rewrite IH. reflexivity.
Qed.

Lemma identifier_no_backslash (t : pystr) :
  identifier t = true ->
  forallb (fun c => negb (N.eqb c (chr "\"))) t = true.
Proof.
  assert (Hs : forall x, name_start x = true -> N.eqb x (chr "\") = false).
  { intros x H. destruct (N.eqb_spec x (chr "\")) as [->|]; [|reflexivity].
    vm_compute in H. discriminate. }
  assert (Hr : forall x, name_rest x = true -> N.eqb x (chr "\") = false).
  { intros x H. destruct (N.eqb_spec x (chr "\")) as [->|]; [|reflexivity].
    vm_compute in H. discriminate. }
  destruct t as [|x t]; [discriminate|]. cbn [identifier forallb]. intros H.
  apply andb_true_iff in H. destruct H as [Hx Ht]. rewrite (Hs x Hx).
  cbn [negb andb]. induction t as [|y t IH]; [reflexivity|].
  cbn [forallb] in *. apply andb_true_iff in Ht. destruct Ht as [Hy Ht].
  rewrite (Hr y Hy), (IH Ht). reflexivity.
Qed.

(** An escaped identifier goes through the three rewriting steps
    untouched but for its backslash. *)
Lemma rewrite_escaped `{L : Library} (a : arguments) (t : pystr) (w : world) :
  debug a = false -> identifier t = true ->
  rewrite a (chr "\" :: t) w = (inr t, w).
Proof.
  intros Hd Ht. pose proof (identifier_blocks t Ht) as Hb.
  assert (Hq : qualify_names (chr "\" :: t) = chr "\" :: t).
  { rewrite qualify_names_from, qualify_from_gap.
    - f_equal. rewrite <- (app_nil_r t) at 1.
      rewrite qualify_blocked; [|reflexivity|exact Hb].
      rewrite qualify_from_nil. apply app_nil_r.
    - rewrite match_at_name. reflexivity. }
  assert (He : extract_numbers (chr "\" :: t) w = (inr (chr "\" :: t), w)).
  { unfold extract_numbers, sub_with, pieces.
    rewrite scan_gap by apply number_not_at_backslash.
    rewrite number_blocked_run; [|reflexivity|exact Hb].
    apply (sub_pieces_gaps _ (chr "\" :: t)). }
  unfold rewrite. rewrite Hd, Hq. unfold when, bind, ret. rewrite He.
  rewrite strip_is_filter. cbn [filter]. rewrite N.eqb_refl. cbn [negb].
  f_equal. f_equal. apply filter_keeps_all. apply identifier_no_backslash.
  exact Ht.
Qed.

(** C6.  Stripping deletes every backslash and nothing else: the result is
    the input filtered of backslashes, so it holds none, and an input
    without backslashes is returned as it is.  An escaped identifier such
    as "\x" comes out of the rewriting steps as the bare identifier: not
    qualified, not extracted, the backslash gone, the table untouched. *)
Theorem escape_stripper_contract :
  (forall s, strip_backslashes s
             = filter (fun c => negb (N.eqb c (chr "\"))) s) /\
  (forall s, ~ In (chr "\") (strip_backslashes s)) /\
  (forall s, ~ In (chr "\") s -> strip_backslashes s = s) /\
  (forall (L : Library) (a : arguments) (t : pystr) (w : world),
      debug a = false -> identifier t = true ->
      rewrite a (chr "\" :: t) w = (inr t, w)) /\
  @rewrite text_library (Args (str "\x") 100 false false) (str "\x")
           fresh_world
  = (inr (str "x"), fresh_world).
Proof.
  split; [exact strip_is_filter|]. split; [|split; [|split]].
  - intros s H. rewrite strip_is_filter in H. apply filter_In in H.
    destruct H as [_ H]. rewrite N.eqb_refl in H. discriminate.
  - intros s H. rewrite strip_is_filter. apply filter_keeps_all.
    apply forallb_forall. intros x Hx. apply negb_true_iff.
    apply N.eqb_neq. intros ->. exact (H Hx).
  - intros L a t w. apply rewrite_escaped.
  - vm_compute. reflexivity.
Qed.

(** ** The run of the program *)

Section Run.
Context {L : Library}.

(** Extraction does not look at standard output. *)
Lemma replace_stdout (m : re_match) (w : world) (o : list printed) :
  replace_number_with_mpf m (set_stdout o w)
  = (fst (replace_number_with_mpf m w),
     set_stdout o (snd (replace_number_with_mpf m w))).
Proof.
  destruct (dict_contains (m_text m) (NUMBERS w)) eqn:Ek.
  - rewrite (replace_known m w Ek).
    rewrite (replace_known m (set_stdout o w) Ek). reflexivity.
  - rewrite (replace_new m w Ek).
    rewrite (replace_new m (set_stdout o w) Ek).
    cbn [mp NUMBERS stdout calls set_stdout].
    destruct (mpmathify_str (mp w) (m_text m)) as [e|v]; reflexivity.
Qed.

Lemma sub_pieces_stdout (ps : list piece) :
  forall w o r w',
    sub_pieces replace_number_with_mpf ps w = (r, w') ->
    sub_pieces replace_number_with_mpf ps (set_stdout o w)
    = (r, set_stdout o w').
Proof.
  induction ps as [|[x|m] ps IH]; intros w o r w' H.
  - simpl in *. unfold ret in *. injection H as <- <-. reflexivity.
  - simpl in *. unfold bind, ret in *.
    destruct (sub_pieces replace_number_with_mpf ps w) as [[e|out] w1] eqn:E;
      injection H as <- <-; rewrite (IH _ o _ _ E); reflexivity.
  - cbn [sub_pieces] in *. unfold bind at 1. unfold bind at 1 in H.
    rewrite replace_stdout.
    destruct (replace_number_with_mpf m w) as [[e|t] w1]; cbn [fst snd].
    + injection H as <- <-. reflexivity.
    + unfold bind, ret in *.
      destruct (sub_pieces replace_number_with_mpf ps w1)
        as [[e|out] w2] eqn:E;
        injection H as <- <-; rewrite (IH _ o _ _ E); reflexivity.
Qed.

Lemma extract_stdout (e : pystr) (w : world) (o : list printed) :
  extract_numbers e (set_stdout o w)
  = (fst (extract_numbers e w), set_stdout o (snd (extract_numbers e w))).
Proof.
  unfold extract_numbers, sub_with.
  destruct (sub_pieces replace_number_with_mpf (pieces number_pattern e) w)
    as [r w'] eqn:E.
  apply sub_pieces_stdout. exact E.
Qed.

Lemma extract_frame (e : pystr) (w : world) :
  mp (snd (extract_numbers e w)) = mp w /\
  stdout (snd (extract_numbers e w)) = stdout w.
Proof.
  unfold extract_numbers, sub_with.
  destruct (sub_pieces replace_number_with_mpf (pieces number_pattern e) w)
    as [r w'] eqn:E.
  apply (sub_pieces_frame _ _ _ _ E).
Qed.

(** The rewriting steps: the extraction, and the debug lines around it. *)
Lemma rewrite_run (a : arguments) (e0 : pystr) (w : world) :
  rewrite a e0 w =
  match extract_numbers (qualify_names e0) w with
  | (inl err, w2) =>
      (inl err,
       set_stdout
         (stdout w
          ++ debug_out (debug a)
               [DebugLine (str "Replaced names:") (qualify_names e0)]) w2)
  | (inr e2, w2) =>
      (inr (strip_backslashes e2),
       set_stdout
         (stdout w
          ++ debug_out (debug a)
               [DebugLine (str "Replaced names:") (qualify_names e0);
                DebugLine (str "Replaced numbers:") e2;
                DebugTable (str "Contents of NUMBERS:") (NUMBERS w2);
                DebugLine (str "Removed backslashes:")
                          (strip_backslashes e2)]) w2)
  end.
Proof.
  unfold rewrite, when, debug_out. destruct (debug a).
  - unfold bind at 1. unfold print at 1.
    change (World (mp w) (NUMBERS w)
              (stdout w ++ [DebugLine (str "Replaced names:")
                                      (qualify_names e0)]) (calls w))
      with (set_stdout (stdout w ++ [DebugLine (str "Replaced names:")
                                               (qualify_names e0)]) w).
    unfold bind at 1. rewrite extract_stdout.
    destruct (extract_numbers (qualify_names e0) w) as [[err|e2] w2];
      cbn [fst snd]; [reflexivity|].
    unfold bind, print, ret, set_stdout. cbn [mp NUMBERS stdout calls].
    rewrite <- !app_assoc. reflexivity.
  - unfold bind, ret.
    destruct (extract_numbers (qualify_names e0) w) as [[err|e2] w2] eqn:E.
    + pose proof (extract_frame (qualify_names e0) w) as [_ Hs].
      rewrite E in Hs. cbn [snd] in Hs. rewrite app_nil_r, <- Hs.
      destruct w2. reflexivity.
    + pose proof (extract_frame (qualify_names e0) w) as [_ Hs].
      rewrite E in Hs. cbn [snd] in Hs. rewrite app_nil_r, <- Hs.
      destruct w2. reflexivity.
Qed.

(** Printing the result: only standard output changes. *)
Lemma output_frame (a : arguments) (v : object) (w : world) :
  mp (snd (output a v w)) = mp w /\
  NUMBERS (snd (output a v w)) = NUMBERS w /\
  calls (snd (output a v w)) = calls w.
Proof.
  unfold output, try_except_TypeError, bind, call_mpmathify, print.
  destruct (debug a); [repeat split|]. destruct (all a); [|repeat split].
  destruct (mpmathify (mp w) v) as [e|v']; [|repeat split].
  destruct (is_TypeError e); repeat split.
Qed.

Lemma output_debug (a : arguments) (v : object) (w : world) :
  debug a = true ->
  output a v w = (inr tt, set_stdout (stdout w ++ [DebugResult v]) w).
Proof. intros H. unfold output. rewrite H. reflexivity. Qed.



(** The main block, step by step. *)
Lemma main_run (a : arguments) (w : world) :
  main a w =
  let o0 := stdout w ++ debug_out (debug a)
                          [DebugLine (str "Input:") (expression a)] in
  match validate (expression a) with
  | Some e => (inl e, set_stdout o0 w)
  | None =>
      let w1 := set_prec (dps_to_prec (digits a)) w in
      let e1 := qualify_names (expression a) in
      match extract_numbers e1 w1 with
      | (inl e, w2) =>
          (inl e,
           set_prec (prec (mp w))
             (set_stdout
                (o0 ++ debug_out (debug a)
                         [DebugLine (str "Replaced names:") e1]) w2))
      | (inr e2, w2) =>
          let e3 := strip_backslashes e2 in
          let ev := py_eval e3 (NUMBERS w2) (mp w2) in
          let w3 :=
            World (ev_mp ev) (ev_numbers ev)
              (o0 ++ debug_out (debug a)
                       [DebugLine (str "Replaced names:") e1;
                        DebugLine (str "Replaced numbers:") e2;
                        DebugTable (str "Contents of NUMBERS:") (NUMBERS w2);
                        DebugLine (str "Removed backslashes:") e3]
                  ++ map ByEval (ev_printed ev))
              (calls w2 ++ [Evaluated (prec (mp w2)) e3 (NUMBERS w2)]) in
          match ev_result ev with
          | inl e => (inl e, set_prec (prec (mp w)) w3)
          | inr v =>
              (fst (output a v w3),
               set_prec (prec (mp w)) (snd (output a v w3)))
          end
      end
  end.
Proof.
  cbv zeta. unfold main. unfold bind at 1.
  assert (Hp : when (debug a)
                 (print (DebugLine (str "Input:") (expression a))) w
               = (inr tt,
                  set_stdout
                    (stdout w ++ debug_out (debug a)
                       [DebugLine (str "Input:") (expression a)]) w)).
  { unfold when, debug_out, print, ret, set_stdout. destruct (debug a).
    - reflexivity.
    - rewrite app_nil_r. destruct w. reflexivity. }
  rewrite Hp. clear Hp.
  set (o0 := stdout w ++ debug_out (debug a)
                            [DebugLine (str "Input:") (expression a)]).
  destruct (validate (expression a)) as [e|]; [reflexivity|].
  unfold with_workdps, body. unfold bind at 1. rewrite rewrite_run.
  change (set_prec (dps_to_prec (digits a)) (set_stdout o0 w))
    with (set_stdout o0 (set_prec (dps_to_prec (digits a)) w)).
  rewrite extract_stdout.
  destruct (extract_numbers (qualify_names (expression a))
              (set_prec (dps_to_prec (digits a)) w)) as [[e|e2] w2];
    cbn [fst snd set_stdout stdout mp NUMBERS calls prec].
  - reflexivity.
  - unfold bind at 1. unfold evaluate at 1.
    cbn [fst snd set_stdout stdout mp NUMBERS calls prec].
    rewrite <- !app_assoc.
    destruct (ev_result _) as [e|v]; [reflexivity|].
    match goal with
    | |- context [output a v ?w3] => destruct (output a v w3) as [r w4]
    end.
    reflexivity.
Qed.

End Run.

(** ** What a run does to the log and to [mp] *)

Section Effects.
Context {L : Library}.

Lemma replace_calls (m : re_match) (w : world) :
  mp (snd (replace_number_with_mpf m w)) = mp w /\
  exists ks,
    calls (snd (replace_number_with_mpf m w))
    = calls w ++ map (Parsed (prec (mp w))) ks.
Proof.
  destruct (dict_contains (m_text m) (NUMBERS w)) eqn:Ek.
  - rewrite (replace_known m w Ek). split; [reflexivity|].
    exists []. simpl. rewrite app_nil_r. reflexivity.
  - rewrite (replace_new m w Ek).
    destruct (mpmathify_str (mp w) (m_text m)) as [e|v];
      (split; [reflexivity|]); exists [m_text m]; reflexivity.
Qed.

(** Whatever becomes of the extraction, all it adds to the log are parses
    at the precision it runs at. *)
Lemma sub_pieces_calls (ps : list piece) :
  forall w, exists ks,
    calls (snd (sub_pieces replace_number_with_mpf ps w))
    = calls w ++ map (Parsed (prec (mp w))) ks.
Proof.
  induction ps as [|[x|m] ps IH]; intros w; cbn [sub_pieces].
  - exists []. simpl. rewrite app_nil_r. reflexivity.
  - unfold bind, ret. destruct (IH w) as [ks H].
    destruct (sub_pieces replace_number_with_mpf ps w) as [[e|out] w1];
      cbn [snd] in *; exists ks; exact H.
  - unfold bind at 1. destruct (replace_calls m w) as [Hm [ks1 H1]].
    destruct (replace_number_with_mpf m w) as [[e|t] w1]; cbn [snd] in *.
    + exists ks1. exact H1.
    + unfold bind, ret. destruct (IH w1) as [ks2 H2].
      destruct (sub_pieces replace_number_with_mpf ps w1) as [[e|out] w2];
        cbn [snd] in *; exists (ks1 ++ ks2);
        rewrite H2, H1, Hm, map_app, app_assoc; reflexivity.
Qed.

Lemma extract_calls (s : pystr) (w : world) :
  exists ks,
    calls (snd (extract_numbers s w))
    = calls w ++ map (Parsed (prec (mp w))) ks.
Proof. apply sub_pieces_calls. Qed.


Lemma script_main (a : arguments) (w : world) :
  script a w = main a (set_NUMBERS [] w).
Proof. reflexivity. Qed.

(** The three ways a run can go, and the log of each. *)
Lemma main_calls (a : arguments) (w : world) :
  (exists e ks,
      fst (main a w) = inl e /\
      (validate (expression a) = None ->
       fst (extract_numbers (qualify_names (expression a))
              (set_prec (dps_to_prec (digits a)) w)) = inl e) /\
      calls (snd (main a w))
      = calls w ++ map (Parsed (dps_to_prec (digits a))) ks) \/
  (exists vs e2,
      validate (expression a) = None /\
      map fst vs
      = first_seen (dict_keys (NUMBERS w))
          (literals (qualify_names (expression a))) /\
      (forall k v, In (k, v) vs ->
         mpmathify_str (Context (dps_to_prec (digits a)) (other (mp w))) k
         = inr v) /\
      calls (snd (main a w))
      = calls w ++ map (Parsed (dps_to_prec (digits a))) (map fst vs)
          ++ [Evaluated (dps_to_prec (digits a)) (strip_backslashes e2)
                (NUMBERS w ++ vs)]).
Proof.
  rewrite main_run. cbv zeta.
  destruct (validate (expression a)) as [e|] eqn:Hv.
  - left. exists e, []. cbn [fst snd set_stdout calls map].
    rewrite app_nil_r. repeat split. discriminate.
  - destruct (extract_calls (qualify_names (expression a))
                (set_prec (dps_to_prec (digits a)) w)) as [ks Hks].
    pose proof (extract_frame (qualify_names (expression a))
                  (set_prec (dps_to_prec (digits a)) w)) as [Hmp _].
    destruct (extract_numbers (qualify_names (expression a))
                (set_prec (dps_to_prec (digits a)) w))
      as [[e|e2] w2] eqn:Hx; cbn [fst snd] in *.
    + left. exists e, ks. cbn [set_prec set_stdout calls].
      repeat split. exact Hks.
    + right. destruct (extract_ok _ _ _ _ Hx) as (_ & vs & Hn & Hk & Hp & Hc).
      exists vs, e2. cbn [set_prec NUMBERS mp calls prec other] in *.
      split; [reflexivity|]. split; [exact Hk|]. split; [exact Hp|].
      assert (Hcalls :
                calls w2 ++ [Evaluated (prec (mp w2)) (strip_backslashes e2)
                               (NUMBERS w2)]
                = calls w
                    ++ map (Parsed (dps_to_prec (digits a))) (map fst vs)
                    ++ [Evaluated (dps_to_prec (digits a))
                          (strip_backslashes e2) (NUMBERS w ++ vs)]).
      { rewrite Hc, Hn, Hmp, <- app_assoc. reflexivity. }
      destruct (ev_result _) as [e|v].
      * cbn [snd set_prec calls]. exact Hcalls.
      * match goal with
        | |- context [output a v ?w3] =>
            destruct (output_frame a v w3) as (_ & _ & Ho)
        end.
        cbn [snd set_prec calls]. rewrite Ho. cbn [calls]. exact Hcalls.
Qed.


End Effects.

(** ** Printing the result, and the debug flag *)

Lemma undiagnosed_app {L : Library} (x y : list (@printed L)) :
  undiagnosed (x ++ y) = undiagnosed x ++ undiagnosed y.
Proof. apply filter_app. Qed.







(** ** The precision and the table over a run *)

Lemma script_table {L : Library} (a : arguments) (w : world) (p : Z)
      (e : pystr) (numbers : dict object) :
  In (Evaluated p e numbers) (added (calls w) (calls (snd (script a w)))) ->
  dict_keys numbers
  = first_seen [] (literals (qualify_names (expression a))) /\
  forall k v,
    In (k, v) numbers ->
    mpmathify_str (Context (dps_to_prec (digits a)) (other (mp w))) k
    = inr v.
Proof.
  rewrite script_main.
  destruct (main_calls a (set_NUMBERS [] w))
    as [(e0 & ks & _ & _ & Hc)|(vs & e2 & _ & Hk & Hp & Hc)];
    cbn [set_NUMBERS calls NUMBERS mp dict_keys map app] in *;
    rewrite Hc, added_app; intros Hin.
  - apply in_map_iff in Hin. destruct Hin as (k & Heq & _). discriminate.
  - apply in_app_or in Hin. destruct Hin as [Hin|[Heq|[]]].
    + apply in_map_iff in Hin. destruct Hin as (k & Heq & _). discriminate.
    + injection Heq as _ _ <-. split; [exact Hk|exact Hp].
Qed.




(** The failing paths on the stricter stand-in: a literal that is not
    parsed, and an expression whose evaluation raises.  Both leave the 53
    bits the run began with, and both made their call at the 103 bits of 30
    digits. *)
Example parse_failure_run :
  @main strict_library (Args (str "1__2 + 3") 30 false false) strict_world
  = (inl (TypeError (str "cannot create mpf from 1__2")),
     @World strict_library (Context 53 tt) [] []
       [@Parsed strict_library 103 (str "1__2")]).
Proof. vm_compute. reflexivity. Qed.

Example evaluation_failure_run :
  @main strict_library (Args (str "") 30 false false) strict_world
  = (inl (OtherError (str "SyntaxError") (str "invalid syntax")),
     @World strict_library (Context 53 tt) [] []
       [@Evaluated strict_library 103 (str "") []]).
Proof. vm_compute. reflexivity. Qed.



(** The emptying is the module-level assignment, not a step of the main
    block: the main block alone, entered with a table that has an entry for
    "2", parses nothing and evaluates with that entry. *)
Example main_block_uses_the_table_it_finds :
  calls (snd (@main text_library (Args (str "2") 5 false false)
                (@set_NUMBERS text_library [(str "2", str "kept")]
                   fresh_world)))
  = [@Evaluated text_library 20 (str "NUMBERS['2']")
       [(str "2", str "kept")]].
Proof. vm_compute. reflexivity. Qed.

(** ** The table over an extraction, completed or not *)

Lemma first_seen_in (k : pystr) (keys seen : list pystr) :
  In k keys -> known k seen = false -> In k (first_seen seen keys).
Proof.
  intros Hin Hs. apply known_in. apply occurrences_pos.
  rewrite occurrences_first_seen, Hs.
  apply known_in in Hin. rewrite Hin. apply le_n.
Qed.

Lemma dict_get_none {V : Type} (k : pystr) (d : dict V) :
  dict_contains k d = false -> dict_get k d = None.
Proof.
  induction d as [|[k0 v0] d IH]; [reflexivity|]. cbn [dict_contains existsb fst dict_get].
  intros H. apply orb_false_iff in H. destruct H as [H1 H2].
  rewrite H1. apply IH. exact H2.
Qed.

Lemma dict_get_some {V : Type} (k : pystr) (d : dict V) :
  dict_contains k d = true -> exists v, dict_get k d = Some v.
Proof.
  induction d as [|[k0 v0] d IH]; [discriminate|].
  cbn [dict_contains existsb fst dict_get]. intros H.
  destruct (pystr_eqb k0 k); [eexists; reflexivity|]. apply IH. exact H.
Qed.

Lemma fresh_key_nodup {V : Type} (k : pystr) (v : V) (d : dict V) :
  dict_contains k d = false -> NoDup (dict_keys d) ->
  NoDup (dict_keys (d ++ [(k, v)])).
Proof.
  intros Hk Hd. unfold dict_keys. rewrite map_app. cbn [map fst].
  apply NoDup_app; [exact Hd|repeat constructor; intros []|].
  intros x Hx [<-|[]]. rewrite dict_contains_known in Hk.
  apply known_in in Hx. unfold dict_keys in Hk. congruence.
Qed.

Section Growth.
Context {L : Library}.

(** However the extraction ends, the table it leaves is the table it found
    with new entries behind it, each under a key that was not there, each
    holding what the library parsed from its key. *)
Lemma sub_pieces_grows (ps : list piece) :
  forall w, exists vs,
    NUMBERS (snd (sub_pieces replace_number_with_mpf ps w))
    = NUMBERS w ++ vs /\
    (forall k v, In (k, v) vs ->
                 dict_contains k (NUMBERS w) = false /\
                 mpmathify_str (mp w) k = inr v) /\
    (NoDup (dict_keys (NUMBERS w)) -> NoDup (dict_keys (NUMBERS w ++ vs))).
Proof.
  induction ps as [|[x|m] ps IH]; intros w; cbn [sub_pieces].
  - exists []. rewrite app_nil_r. split; [reflexivity|].
    split; [intros k v []|]. intros Hd; exact Hd.
  - unfold bind, ret. destruct (IH w) as (vs & H1 & H2 & H3).
    destruct (sub_pieces replace_number_with_mpf ps w) as [[e|out] w1];
      cbn [snd] in *; exists vs; (split; [exact H1|]);
      (split; [exact H2|exact H3]).
  - unfold bind at 1.
    destruct (dict_contains (m_text m) (NUMBERS w)) eqn:Ek.
    + rewrite (replace_known m w Ek). unfold bind, ret.
      destruct (IH w) as (vs & H1 & H2 & H3).
      destruct (sub_pieces replace_number_with_mpf ps w) as [[e|out] w1];
        cbn [snd] in *; exists vs; (split; [exact H1|]);
        (split; [exact H2|exact H3]).
    + rewrite (replace_new m w Ek).
      destruct (mpmathify_str (mp w) (m_text m)) as [e|v] eqn:Ev.
      * exists []. cbn [snd NUMBERS]. rewrite app_nil_r.
        split; [reflexivity|]. split; [intros k v []|].
        intros Hd; exact Hd.
      * unfold bind, ret.
        match goal with
        | |- context [sub_pieces _ ps ?w1] =>
            destruct (IH w1) as (vs & H1 & H2 & H3);
            destruct (sub_pieces replace_number_with_mpf ps w1)
              as [[e|out] w2]
        end; cbn [snd NUMBERS mp] in *;
          exists ((m_text m, v) :: vs);
          (split; [rewrite H1, <- app_assoc; reflexivity|]);
          (split;
           [intros k v' [[= <- <-]|Hin];
            [split; [exact Ek|exact Ev]|];
            destruct (H2 k v' Hin) as [Hc Hp]; split; [|exact Hp];
            rewrite dict_contains_known in *; unfold dict_keys in *;
            rewrite map_app, known_app in Hc;
            apply orb_false_iff in Hc; apply Hc
           |intros Hd;
            change (NUMBERS w ++ (m_text m, v) :: vs)
              with (NUMBERS w ++ [(m_text m, v)] ++ vs);
            rewrite app_assoc; apply H3;
            apply fresh_key_nodup; assumption]).
Qed.

(** The extraction stops at the first literal the library refuses. *)
Lemma sub_pieces_fails (ps : list piece) :
  forall w pre k post e,
    tokens (map segment_of ps) = pre ++ k :: post ->
    (forall k', In k' pre ->
                known k' (dict_keys (NUMBERS w)) = true \/
                exists v, mpmathify_str (mp w) k' = inr v) ->
    known k (dict_keys (NUMBERS w) ++ pre) = false ->
    mpmathify_str (mp w) k = inl e ->
    exists vs,
      map fst vs = first_seen (dict_keys (NUMBERS w)) pre /\
      (forall k' v, In (k', v) vs -> mpmathify_str (mp w) k' = inr v) /\
      sub_pieces replace_number_with_mpf ps w
      = (inl e,
         World (mp w) (NUMBERS w ++ vs) (stdout w)
               (calls w ++ map (Parsed (prec (mp w))) (map fst vs)
                  ++ [Parsed (prec (mp w)) k])).
Proof.
  induction ps as [|[x|m] ps IH]; intros w pre k post e Ht Hpre Hk He;
    cbn [map segment_of tokens flat_map app] in Ht.
  - destruct pre; discriminate.
  - destruct (IH w pre k post e Ht Hpre Hk He) as (vs & H1 & H2 & H3).
    exists vs. split; [exact H1|]. split; [exact H2|].
    cbn [sub_pieces]. unfold bind. rewrite H3. reflexivity.
  - cbn [sub_pieces]. unfold bind at 1. destruct pre as [|k0 pre].
    + cbn [app] in Ht. injection Ht as Hm Ht. rewrite app_nil_r in Hk.
      rewrite <- dict_contains_known, <- Hm in Hk.
      rewrite (replace_new m w Hk), Hm, He. exists [].
      cbn [map app first_seen]. rewrite app_nil_r.
      repeat split. intros k' v [].
    + cbn [app] in Ht. injection Ht as Hm Ht.
      fold (tokens (map segment_of ps)) in Ht.
      destruct (dict_contains (m_text m) (NUMBERS w)) eqn:Ek.
      * rewrite (replace_known m w Ek). unfold bind.
        assert (Hk' : known k (dict_keys (NUMBERS w) ++ pre) = false).
        { rewrite known_app in *. cbn [known existsb] in Hk.
          apply orb_false_iff in Hk. destruct Hk as [Hk1 Hk2].
          apply orb_false_iff in Hk2. destruct Hk2 as [_ Hk2].
          rewrite Hk1. exact Hk2. }
        destruct (IH w pre k post e Ht
                    (fun k' H => Hpre k' (or_intror H)) Hk' He)
          as (vs & H1 & H2 & H3).
        exists vs. rewrite H3. split; [|split; [exact H2|reflexivity]].
        rewrite dict_contains_known, Hm in Ek.
        cbn [first_seen]. rewrite Ek. exact H1.
      * rewrite (replace_new m w Ek).
        destruct (Hpre k0 (or_introl eq_refl)) as [Hkn|[v Hv]].
        { rewrite <- Hm, <- dict_contains_known in Hkn. congruence. }
        rewrite Hm, Hv. unfold bind.
        set (w1 := World (mp w) (NUMBERS w ++ [(k0, v)]) (stdout w)
                     (calls w ++ [Parsed (prec (mp w)) k0])).
        assert (Hkeys : dict_keys (NUMBERS w1)
                        = dict_keys (NUMBERS w) ++ [k0]).
        { unfold w1, dict_keys. cbn [NUMBERS]. rewrite map_app.
          reflexivity. }
        assert (Hk' : known k (dict_keys (NUMBERS w1) ++ pre) = false).
        { rewrite Hkeys, <- app_assoc. exact Hk. }
        assert (Hpre' : forall k', In k' pre ->
                          known k' (dict_keys (NUMBERS w1)) = true \/
                          exists v', mpmathify_str (mp w1) k' = inr v').
        { intros k' Hin. destruct (Hpre k' (or_intror Hin)) as [H|H].
          - left. rewrite Hkeys, known_app, H. reflexivity.
          - right. exact H. }
        destruct (IH w1 pre k post e Ht Hpre' Hk' He)
          as (vs & H1 & H2 & H3).
        exists ((k0, v) :: vs). rewrite H3. unfold w1.
        cbn [mp NUMBERS stdout calls map fst].
        split; [|split].
        -- rewrite dict_contains_known, Hm in Ek.
           cbn [first_seen]. rewrite Ek. f_equal.
           rewrite H1, Hkeys. reflexivity.
        -- intros k' v' [[= <- <-]|Hin]; [exact Hv|].
           apply (H2 k' v' Hin).
        -- rewrite <- !app_assoc. reflexivity.
Qed.

End Growth.

(** The table only grows.  However an extraction ends, completed or
    stopped by a literal the library refuses, the table it leaves is the
    table it found with new entries behind it: every new entry is under a
    key that was not there and holds what the library parsed from that key;
    what was stored under a key is still stored under it; and if the keys
    were distinct they still are. *)
Theorem table_only_grows (L : Library) (s : pystr) (w : world) :
  exists vs,
    NUMBERS (snd (extract_numbers s w)) = NUMBERS w ++ vs /\
    (forall k v, In (k, v) vs ->
                 dict_contains k (NUMBERS w) = false /\
                 mpmathify_str (mp w) k = inr v) /\
    (forall k v, dict_get k (NUMBERS w) = Some v ->
                 dict_get k (NUMBERS (snd (extract_numbers s w))) = Some v) /\
    (NoDup (dict_keys (NUMBERS w)) ->
     NoDup (dict_keys (NUMBERS (snd (extract_numbers s w))))).
Proof.
  unfold extract_numbers, sub_with.
  destruct (sub_pieces_grows (pieces number_pattern s) w)
    as (vs & H1 & H2 & H3).
  exists vs. rewrite H1. split; [reflexivity|]. split; [exact H2|].
  split; [|exact H3].
  intros k v Hg. rewrite dict_get_app, Hg. reflexivity.
Qed.

(** No lookup misses.  After a completed extraction every literal of the
    input, which is every key the rewritten text looks up, is in the
    table: under it is what was there before the extraction, or, if
    nothing was, what the library parsed from it. *)
Theorem lookups_are_in_the_table (L : Library) (s out : pystr)
        (w w' : world) (k : pystr) :
  extract_numbers s w = (inr out, w') ->
  In k (literals s) ->
  out = replaced lookup (map segment_of (pieces number_pattern s)) /\
  exists v,
    dict_get k (NUMBERS w') = Some v /\
    (dict_get k (NUMBERS w) = Some v \/
     (dict_get k (NUMBERS w) = None /\ mpmathify_str (mp w) k = inr v)).
Proof.
  intros Hx Hin.
  destruct (extract_ok _ _ _ _ Hx) as (Hout & vs & Hn & Hk & Hp & _).
  split; [exact Hout|]. rewrite Hn, dict_get_app.
  destruct (dict_contains k (NUMBERS w)) eqn:Ec.
  - destruct (dict_get_some k (NUMBERS w) Ec) as [v Hv].
    exists v. rewrite Hv. split; [reflexivity|left; reflexivity].
  - rewrite (dict_get_none k (NUMBERS w) Ec).
    assert (Hin' : In k (map fst vs)).
    { rewrite Hk. apply first_seen_in; [exact Hin|].
      rewrite <- dict_contains_known. exact Ec. }
    destruct (dict_get_in k vs Hin') as (v & Hv & Hkv).
    exists v. split; [exact Hv|]. right. split; [reflexivity|].
    apply (Hp k v Hkv).
Qed.

Lemma lookups_are_in_the_table_witness :
  exists v,
    dict_get (str "1.5")
      (NUMBERS (snd (@extract_numbers text_library (str "1.5 + 2")
                       (@set_NUMBERS text_library [(str "2", str "two")]
                          fresh_world)))) = Some v /\
    (dict_get (str "1.5")
       (NUMBERS (@set_NUMBERS text_library [(str "2", str "two")]
                   fresh_world)) = Some v \/
     (dict_get (str "1.5")
        (NUMBERS (@set_NUMBERS text_library [(str "2", str "two")]
                    fresh_world)) = None /\
      @mpmathify_str text_library
        (mp (@set_NUMBERS text_library [(str "2", str "two")] fresh_world))
        (str "1.5") = inr v)).
Proof.
  destruct (@lookups_are_in_the_table text_library (str "1.5 + 2")
              (str "NUMBERS['1.5'] + NUMBERS['2']")
              (@set_NUMBERS text_library [(str "2", str "two")] fresh_world)
              (snd (@extract_numbers text_library (str "1.5 + 2")
                      (@set_NUMBERS text_library [(str "2", str "two")]
                         fresh_world)))
              (str "1.5")) as [_ H].
  - vm_compute. reflexivity.
  - vm_compute. left. reflexivity.
  - exact H.
Defined.

(** The first refused literal ends the extraction.  When the literals
    before some literal are in the table or are parsed, and that literal is
    neither in the table nor among those before it and the library refuses
    it, the extraction raises the library's exception for it, having parsed
    each new literal before it once, in order, and the refused one, and
    nothing after it; the entries made before the failure stay in the
    table. *)
Theorem first_refused_literal_ends_extraction (L : Library) (s : pystr)
        (w : world) (pre : list pystr) (k : pystr) (post : list pystr)
        (e : exn) :
  literals s = pre ++ k :: post ->
  (forall k', In k' pre ->
              known k' (dict_keys (NUMBERS w)) = true \/
              exists v, mpmathify_str (mp w) k' = inr v) ->
  known k (dict_keys (NUMBERS w) ++ pre) = false ->
  mpmathify_str (mp w) k = inl e ->
  exists vs,
    map fst vs = first_seen (dict_keys (NUMBERS w)) pre /\
    (forall k' v, In (k', v) vs -> mpmathify_str (mp w) k' = inr v) /\
    extract_numbers s w
    = (inl e,
       World (mp w) (NUMBERS w ++ vs) (stdout w)
             (calls w ++ map (Parsed (prec (mp w))) (map fst vs)
                ++ [Parsed (prec (mp w)) k])).
Proof. apply sub_pieces_fails. Qed.

Lemma first_refused_literal_ends_extraction_witness :
  exists vs,
    map fst vs = first_seen (dict_keys (NUMBERS strict_world)) [str "1"] /\
    (forall k' v, In (k', v) vs ->
                  @mpmathify_str strict_library (mp strict_world) k'
                  = inr v) /\
    @extract_numbers strict_library (str "1 + 2__3 + 4") strict_world
    = (inl (TypeError (str "cannot create mpf from 2__3")),
       World (mp strict_world) (NUMBERS strict_world ++ vs)
             (stdout strict_world)
             (calls strict_world
                ++ map (Parsed (prec (mp strict_world))) (map fst vs)
                ++ [Parsed (prec (mp strict_world)) (str "2__3")])).
Proof.
  apply (@first_refused_literal_ends_extraction strict_library
           (str "1 + 2__3 + 4") strict_world [str "1"] (str "2__3")
           [str "4"]).
  - vm_compute. reflexivity.
  - intros k' [<-|[]]. right. eexists. vm_compute. reflexivity.
  - vm_compute. reflexivity.
  - vm_compute. reflexivity.
Defined.

(** ** What a run evaluates and what it prints *)

Lemma added_same {A : Type} (l : list A) : added l l = [].
Proof. rewrite <- (app_nil_r l) at 2. apply added_app. Qed.

Lemma validate_allowed (s : pystr) :
  validate s = None -> forallb allowed s = true.
Proof.
  unfold validate. intros H. apply search_disallowed_none.
  destruct (search disallowed_characters s); [discriminate|reflexivity].
Qed.

(** The characters of a cut put back together are those of the input and
    those the replacement brings. *)
Lemma replaced_chars (tok : token) (P Q : char -> bool)
      (f : pystr -> pystr) :
  (forall c, P c = true -> Q c = true) ->
  (forall t, forallb P t = true -> forallb Q (f t) = true) ->
  forall bef s segs,
    segmented tok bef s segs -> forallb P s = true ->
    forallb Q (replaced f segs) = true.
Proof.
  intros HPQ Hf bef s segs H.
  induction H as [bef|bef t rest segs Hne Htok H IH|bef x rest segs Hno H IH];
    intros Hs.
  - reflexivity.
  - rewrite forallb_app in Hs. apply andb_true_iff in Hs.
    destruct Hs as [Ht Hr]. unfold replaced. cbn [flat_map].
    rewrite forallb_app. fold (replaced f segs).
    rewrite (Hf t Ht), (IH Hr). reflexivity.
  - cbn [forallb] in Hs. apply andb_true_iff in Hs. destruct Hs as [Hx Hr].
    unfold replaced. cbn [flat_map app forallb]. fold (replaced f segs).
    rewrite (HPQ x Hx), (IH Hr). reflexivity.
Qed.

Lemma qualify_names_chars (s : pystr) :
  forallb allowed s = true -> forallb allowed (qualify_names s) = true.
Proof.
  intros Hs. rewrite qualify_names_from. unfold qualify_from.
  apply (replaced_chars name_token allowed allowed
           (fun t => str "mp." ++ t) (fun c H => H))
    with (bef := []) (s := s).
  - intros t Ht. rewrite forallb_app, Ht. reflexivity.
  - apply scan_segmented; [exact name_match_token|exact name_nomatch_token].
  - exact Hs.
Qed.

Lemma lookup_chars (t : pystr) :
  forallb allowed t = true ->
  forallb (fun c => allowed c || N.eqb c (chr "'")) (lookup t) = true.
Proof.
  intros Ht. unfold lookup. rewrite !forallb_app.
  assert (H : forallb (fun c => allowed c || N.eqb c (chr "'")) t = true).
  { apply forallb_forall. intros c Hc.
    rewrite forallb_forall in Ht. rewrite (Ht c Hc). reflexivity. }
  rewrite H. reflexivity.
Qed.

Lemma strip_chars (s : pystr) :
  forallb (fun c => allowed c || N.eqb c (chr "'")) s = true ->
  forallb evaluated_char (strip_backslashes s) = true.
Proof.
  intros H. rewrite strip_is_filter. apply forallb_forall. intros c Hc.
  apply filter_In in Hc. destruct Hc as [Hin Hb].
  rewrite forallb_forall in H. specialize (H c Hin).
  unfold evaluated_char. rewrite Hb, andb_true_r. exact H.
Qed.

Section Evaluated.
Context {L : Library}.

Lemma extract_chars (s out : pystr) (w w' : world) :
  extract_numbers s w = (inr out, w') -> forallb allowed s = true ->
  forallb (fun c => allowed c || N.eqb c (chr "'")) out = true.
Proof.
  intros Hx Hs. destruct (extract_ok _ _ _ _ Hx) as [-> _].
  apply (replaced_chars (number_token int_text) allowed
           (fun c => allowed c || N.eqb c (chr "'")) lookup)
    with (bef := []) (s := s).
  - intros c Hc. rewrite Hc. reflexivity.
  - exact lookup_chars.
  - apply number_segmented.
  - exact Hs.
Qed.

(** An evaluation in the log of a run is the one of the rewritten input,
    after validation and a completed extraction. *)
Lemma main_evaluated (a : arguments) (w : world) (p : Z) (e : pystr)
      (tbl : dict object) :
  In (Evaluated p e tbl) (added (calls w) (calls (snd (main a w)))) ->
  validate (expression a) = None /\
  exists e2 w2,
    extract_numbers (qualify_names (expression a))
      (set_prec (dps_to_prec (digits a)) w) = (inr e2, w2) /\
    e = strip_backslashes e2 /\ tbl = NUMBERS w2 /\
    p = dps_to_prec (digits a).
Proof.
  rewrite main_run. cbv zeta.
  destruct (validate (expression a)) as [e0|].
  { cbn [snd set_stdout calls]. rewrite added_same. intros []. }
  destruct (extract_calls (qualify_names (expression a))
              (set_prec (dps_to_prec (digits a)) w)) as [ks Hks].
  pose proof (extract_frame (qualify_names (expression a))
                (set_prec (dps_to_prec (digits a)) w)) as [Hmp _].
  destruct (extract_numbers (qualify_names (expression a))
              (set_prec (dps_to_prec (digits a)) w))
    as [[e0|e2] w2] eqn:Hx; cbn [fst snd] in Hks, Hmp;
    cbn [set_prec calls mp prec] in Hks.
  { cbn [snd set_prec set_stdout calls]. rewrite Hks, added_app.
    intros Hin. apply in_map_iff in Hin. destruct Hin as (k & Hk & _).
    discriminate. }
  intros Hin. split; [reflexivity|]. exists e2, w2.
  split; [reflexivity|].
  assert (Hc : In (Evaluated p e tbl)
                  (map (Parsed (dps_to_prec (digits a))) ks
                     ++ [Evaluated (prec (mp w2)) (strip_backslashes e2)
                           (NUMBERS w2)])).
  { destruct (ev_result _) as [e0|v].
    - cbn [snd set_prec calls] in Hin.
      rewrite Hks, <- app_assoc, added_app in Hin. exact Hin.
    - match type of Hin with
      | context [output a v ?w3] =>
          destruct (output_frame a v w3) as (_ & _ & Ho)
      end.
      cbn [snd set_prec calls] in Hin. rewrite Ho in Hin.
      cbn [calls] in Hin.
      rewrite Hks, <- app_assoc, added_app in Hin. exact Hin. }
  apply in_app_or in Hc. destruct Hc as [Hc|[Hc|[]]].
  - apply in_map_iff in Hc. destruct Hc as (k & Hk & _). discriminate.
  - injection Hc as <- <- <-. rewrite Hmp. repeat split.
Qed.

End Evaluated.

(** Validation guards the run.  An input the validation refuses is neither
    parsed nor evaluated: the run ends with the validation error, having
    changed nothing and printed nothing but, under the debug flag, the
    input line.  So a parse or an evaluation in the log of a run means the
    input was accepted. *)
Theorem validation_guards_the_run (L : Library) (a : arguments)
        (w : world) :
  (forall e,
      validate (expression a) = Some e ->
      main a w
      = (inl e,
         set_stdout
           (stdout w ++ debug_out (debug a)
                          [DebugLine (str "Input:") (expression a)]) w)) /\
  (forall c,
      In c (added (calls w) (calls (snd (main a w)))) ->
      validate (expression a) = None).
Proof.
  split.
  - intros e He. rewrite main_run. cbv zeta. rewrite He. reflexivity.
  - intros c. rewrite main_run. cbv zeta.
    destruct (validate (expression a)) as [e|]; [|reflexivity].
    cbn [snd set_stdout calls]. rewrite added_same. intros [].
Qed.

Lemma validation_guards_the_run_witness :
  @main text_library (Args (str "2 $ 3") 5 false true) fresh_world
  = (inl (InvalidCharacter (str "$")),
     set_stdout
       (stdout fresh_world
          ++ debug_out true [DebugLine (str "Input:") (str "2 $ 3")])
       fresh_world).
Proof.
  destruct (validation_guards_the_run text_library
              (Args (str "2 $ 3") 5 false true) fresh_world) as [H _].
  apply H. vm_compute. reflexivity.
Defined.

(** What is evaluated.  The text a run hands to [eval] holds no backslash
    and, but for the quotes of the lookups, only characters of the allowed
    set, whatever the input. *)
Theorem evaluated_text_is_clean (L : Library) (a : arguments) (w : world)
        (p : Z) (e : pystr) (tbl : dict object) :
  In (Evaluated p e tbl) (added (calls w) (calls (snd (main a w)))) ->
  forallb evaluated_char e = true /\ ~ In (chr "\") e.
Proof.
  intros Hin.
  destruct (main_evaluated a w p e tbl Hin)
    as (Hv & e2 & w2 & Hx & -> & _ & _).
  split.
  - apply strip_chars. apply (extract_chars _ _ _ _ Hx).
    apply qualify_names_chars. apply validate_allowed. exact Hv.
  - rewrite strip_is_filter. intros H. apply filter_In in H.
    destruct H as [_ H]. rewrite N.eqb_refl in H. discriminate.
Qed.

Lemma evaluated_text_is_clean_witness :
  forallb evaluated_char (str "mp.sqrt(NUMBERS['2']) + x") = true /\
  ~ In (chr "\") (str "mp.sqrt(NUMBERS['2']) + x").
Proof.
  apply (evaluated_text_is_clean text_library
           (Args (str "sqrt(2) + \x") 5 false false) fresh_world 20%Z
           (str "mp.sqrt(NUMBERS['2']) + x") [(str "2", str "2")]).
  vm_compute. right. left. reflexivity.
Defined.

(** The debug lines show what is evaluated.  Under the debug flag, the
    text a run hands to [eval] is the one printed as "Removed backslashes:"
    and the table it hands over is the one printed as "Contents of
    NUMBERS:". *)
Theorem debug_shows_what_is_evaluated (L : Library) (a : arguments)
        (w : world) (p : Z) (e : pystr) (tbl : dict object) :
  debug a = true ->
  In (Evaluated p e tbl) (added (calls w) (calls (snd (main a w)))) ->
  In (DebugLine (str "Removed backslashes:") e)
     (added (stdout w) (stdout (snd (main a w)))) /\
  In (DebugTable (str "Contents of NUMBERS:") tbl)
     (added (stdout w) (stdout (snd (main a w)))).
Proof.
  intros Hd Hin.
  destruct (main_evaluated a w p e tbl Hin)
    as (Hv & e2 & w2 & Hx & -> & -> & _).
  rewrite main_run. cbv zeta. rewrite Hv, Hx, Hd. cbn [debug_out].
  assert (Hs : forall post : list printed,
             let o := (((stdout w ++ [DebugLine (str "Input:") (expression a)])
                   ++ [DebugLine (str "Replaced names:")
                         (qualify_names (expression a));
                       DebugLine (str "Replaced numbers:") e2;
                       DebugTable (str "Contents of NUMBERS:") (NUMBERS w2);
                       DebugLine (str "Removed backslashes:")
                         (strip_backslashes e2)]
                   ++ map ByEval
                        (ev_printed
                           (py_eval (strip_backslashes e2) (NUMBERS w2)
                              (mp w2)))) ++ post) in
             In (DebugLine (str "Removed backslashes:")
                   (strip_backslashes e2)) (added (stdout w) o) /\
             In (DebugTable (str "Contents of NUMBERS:") (NUMBERS w2))
                (added (stdout w) o)).
  { intros post. cbv zeta. rewrite <- !app_assoc, added_app.
    cbn [app In]. tauto. }
  destruct (ev_result _) as [e0|v].
  - cbn [snd set_prec stdout]. specialize (Hs []). cbv zeta in Hs.
    rewrite app_nil_r in Hs. exact Hs.
  - rewrite (output_debug a v _ Hd). cbn [snd set_prec set_stdout stdout].
    apply (Hs [DebugResult v]).
Qed.

Lemma debug_shows_what_is_evaluated_witness :
  In (@DebugLine text_library (str "Removed backslashes:")
        (str "NUMBERS['1']/NUMBERS['3']"))
     (added (stdout fresh_world)
        (stdout (snd (@main text_library (Args (str "1/3") 5 false true)
                        fresh_world)))) /\
  In (@DebugTable text_library (str "Contents of NUMBERS:")
        [(str "1", str "1"); (str "3", str "3")])
     (added (stdout fresh_world)
        (stdout (snd (@main text_library (Args (str "1/3") 5 false true)
                        fresh_world)))).
Proof.
  apply (debug_shows_what_is_evaluated text_library
           (Args (str "1/3") 5 false true) fresh_world 20%Z).
  - reflexivity.
  - vm_compute. right. right. left. reflexivity.
Defined.

(** One result, last.  A run that completes has printed one result, as its
    last print; a run that fails has printed none. *)
Theorem result_is_printed_once_at_the_end (L : Library) (a : arguments)
        (w : world) :
  (fst (main a w) = inr tt ->
   exists pre r,
     added (stdout w) (stdout (snd (main a w))) = pre ++ [r] /\
     is_result r = true /\
     forallb (fun x => negb (is_result x)) pre = true) /\
  (forall e,
      fst (main a w) = inl e ->
      forallb (fun x => negb (is_result x))
              (added (stdout w) (stdout (snd (main a w)))) = true).
Proof.
  assert (Hdbg : forall (b : bool) (l : list printed),
             forallb diagnostic l = true ->
             forallb (fun x => negb (is_result x)) (debug_out b l) = true).
  { intros b l Hl. destruct b; [|reflexivity]. cbn [debug_out].
    apply forallb_forall. intros x Hx. rewrite forallb_forall in Hl.
    specialize (Hl x Hx). destruct x; try discriminate; reflexivity. }
  assert (Hev : forall ts : list pystr,
             forallb (fun x => negb (is_result x)) (map (@ByEval L) ts)
             = true).
  { intros ts. apply forallb_forall. intros x Hx.
    apply in_map_iff in Hx. destruct Hx as (t & <- & _). reflexivity. }
  rewrite main_run. cbv zeta.
  destruct (validate (expression a)) as [e0|].
  { cbn [fst snd set_stdout stdout]. rewrite added_app.
    split; [discriminate|]. intros e _. apply Hdbg. reflexivity. }
  destruct (extract_numbers (qualify_names (expression a))
              (set_prec (dps_to_prec (digits a)) w)) as [[e0|e2] w2].
  { cbn [fst snd set_prec set_stdout stdout].
    rewrite <- app_assoc, added_app.
    split; [discriminate|]. intros e _.
    rewrite forallb_app, !Hdbg; reflexivity. }
  remember
    (debug_out (debug a) [DebugLine (str "Input:") (expression a)]
       ++ debug_out (debug a)
            [DebugLine (str "Replaced names:")
               (qualify_names (expression a));
             DebugLine (str "Replaced numbers:") e2;
             DebugTable (str "Contents of NUMBERS:") (NUMBERS w2);
             DebugLine (str "Removed backslashes:")
               (strip_backslashes e2)]
       ++ map ByEval
            (ev_printed
               (py_eval (strip_backslashes e2) (NUMBERS w2) (mp w2))))
    as dbg eqn:Edbg.
  assert (Hpre : forallb (fun x => negb (is_result x)) dbg = true).
  { rewrite Edbg, !forallb_app, !Hdbg, Hev; reflexivity. }
  assert (Ho : (stdout w
                  ++ debug_out (debug a)
                       [DebugLine (str "Input:") (expression a)])
                 ++ debug_out (debug a)
                      [DebugLine (str "Replaced names:")
                         (qualify_names (expression a));
                       DebugLine (str "Replaced numbers:") e2;
                       DebugTable (str "Contents of NUMBERS:") (NUMBERS w2);
                       DebugLine (str "Removed backslashes:")
                         (strip_backslashes e2)]
                 ++ map ByEval
                      (ev_printed
                         (py_eval (strip_backslashes e2) (NUMBERS w2)
                            (mp w2)))
               = stdout w ++ dbg).
  { rewrite Edbg, <- !app_assoc. reflexivity. }
  rewrite Ho. clear Ho Edbg.
  destruct (ev_result _) as [e0|v].
  { cbn [fst snd set_prec stdout]. split; [discriminate|]. intros e _.
    rewrite added_app. exact Hpre. }
  unfold output.
  destruct (debug a) eqn:Hd;
    [|destruct (all a) eqn:Ha;
      [unfold try_except_TypeError, bind, call_mpmathify;
       cbn [mp NUMBERS stdout calls];
       destruct (mpmathify _ v) as [e0|v'];
       [destruct (is_TypeError e0)|]|]];
    unfold print; cbn [fst snd set_prec stdout mp NUMBERS calls];
    rewrite <- ?app_assoc, added_app.
  - split; [|discriminate]. intros _. exists dbg, (DebugResult v).
    repeat split. exact Hpre.
  - split; [|discriminate]. intros _.
    exists dbg, (NPrint v (digits a) false).
    repeat split. exact Hpre.
  - split; [discriminate|]. intros e _. exact Hpre.
  - split; [|discriminate]. intros _.
    exists dbg, (NPrint v' (digits a) false).
    repeat split. exact Hpre.
  - split; [|discriminate]. intros _. exists dbg, (PrintValue v).
    repeat split. exact Hpre.
Qed.

Lemma result_is_printed_once_at_the_end_witness :
  exists pre r,
    added (stdout fresh_world)
      (stdout (snd (@main text_library (Args (str "1/3") 5 true false)
                      fresh_world)))
    = pre ++ [r] /\
    is_result r = true /\
    forallb (fun x => negb (is_result x)) pre = true.
Proof.
  destruct (result_is_printed_once_at_the_end text_library
              (Args (str "1/3") 5 true false) fresh_world) as [H _].
  apply H. vm_compute. reflexivity.
Defined.

(** ** Qualification, character by character *)

Lemma prefix_blocked (t : pystr) :
  forall bef b,
    free_before bef = false -> forallb blocks_start t = true ->
    prefix_starts bef (t ++ b) = t ++ prefix_starts (rev t ++ bef) b.
Proof.
  induction t as [|c t IH]; intros bef b Hf Ht; [reflexivity|].
  cbn [forallb] in Ht. apply andb_true_iff in Ht. destruct Ht as [Hc Ht].
  cbn [app prefix_starts]. rewrite Hf, andb_false_r. cbn [app].
  rewrite rev_cons_app. f_equal. apply IH; [|exact Ht].
  cbn [free_before]. rewrite Hc. reflexivity.
Qed.

Lemma prefix_step (c : char) (bef : list char) (s : pystr) :
  name_start c = false ->
  prefix_starts bef (c :: s) = c :: prefix_starts (c :: bef) s.
Proof. intros H. cbn [prefix_starts]. rewrite H. reflexivity. Qed.

Lemma prefix_app (a : pystr) :
  forall bef b,
    prefix_starts bef (a ++ b)
    = prefix_starts bef a ++ prefix_starts (rev a ++ bef) b.
Proof.
  induction a as [|c a IH]; intros bef b; [reflexivity|].
  cbn [app prefix_starts]. rewrite IH, rev_cons_app, <- app_assoc.
  reflexivity.
Qed.

Lemma prefix_none (s : pystr) :
  forall bef,
    forallb (fun c => negb (name_start c)) s = true ->
    prefix_starts bef s = s.
Proof.
  induction s as [|c s IH]; intros bef H; [reflexivity|].
  cbn [forallb] in H. apply andb_true_iff in H. destruct H as [Hc Hs].
  apply negb_true_iff in Hc. rewrite (prefix_step c bef s Hc).
  f_equal. apply IH. exact Hs.
Qed.

Lemma prefix_head (b : pystr) :
  forall bef1 bef2,
    free_before bef1 = free_before bef2 ->
    prefix_starts bef1 b = prefix_starts bef2 b.
Proof.
  induction b as [|x b IH]; intros bef1 bef2 H; [reflexivity|].
  cbn [prefix_starts]. rewrite H. f_equal. f_equal. apply IH. reflexivity.
Qed.

Lemma qualify_from_prefix (n : nat) :
  forall s bef, length s <= n -> qualify_from bef s = prefix_starts bef s.
Proof.
  induction n as [|n IH]; intros s bef Hn.
  { destruct s; [apply qualify_from_nil|simpl in Hn; lia]. }
  destruct s as [|x rest]; [apply qualify_from_nil|].
  cbn [length] in Hn.
  destruct (name_start x && free_before bef) eqn:E.
  - apply andb_true_iff in E. destruct E as [Hx Hf].
    pose proof (span_spec name_rest rest) as Hsp.
    destruct (span name_rest rest) as [t' r'] eqn:Es.
    cbn [fst snd] in Hsp. destruct Hsp as (Hr & Ht & _). subst rest.
    assert (Hm : match_at name_pattern bef ((x :: t') ++ r')
                 = Some (Match (x :: t') [(1, x :: t')])).
    { rewrite match_at_name, Hf. cbn [app]. rewrite Hx, Es. reflexivity. }
    change (x :: t' ++ r') with ((x :: t') ++ r') at 1.
    rewrite (qualify_from_hit bef (x :: t') r' _ Hm eq_refl)
      by discriminate.
    cbn [prefix_starts]. rewrite Hx, Hf. cbn [andb].
    assert (Hb : forallb blocks_start t' = true).
    { apply forallb_forall. intros c Hc. apply name_rest_blocks.
      rewrite forallb_forall in Ht. apply Ht. exact Hc. }
    rewrite (prefix_blocked t' (x :: bef) r');
      [|cbn [free_before]; rewrite (name_start_blocks x Hx); reflexivity
       |exact Hb].
    rewrite rev_cons_app, IH; [reflexivity|].
    rewrite length_app in Hn. lia.
  - rewrite qualify_from_gap.
    + cbn [prefix_starts]. rewrite E. cbn [app]. f_equal. apply IH. lia.
    + rewrite match_at_name. destruct (free_before bef); [|reflexivity].
      destruct (name_start x); [discriminate|reflexivity].
Qed.

(** Qualification, said without a pattern: "mp." is put in front of every
    letter or underscore that does not come after a letter, digit,
    underscore, period or backslash, and nothing else is changed.  So
    what is done to a part of the input depends on what is before it only
    through the character just before it. *)
Theorem qualification_by_character :
  (forall s, qualify_names s = prefix_starts [] s) /\
  (forall a b,
      qualify_names (a ++ b) = qualify_names a ++ prefix_starts (rev a) b) /\
  (forall b c a1 a2,
      prefix_starts (c :: a1) b = prefix_starts (c :: a2) b).
Proof.
  assert (H : forall s, qualify_names s = prefix_starts [] s).
  { intros s. rewrite qualify_names_from.
    apply (qualify_from_prefix (length s)). apply le_n. }
  split; [exact H|]. split.
  - intros a b. rewrite !H, prefix_app, app_nil_r. reflexivity.
  - intros b c a1 a2. apply prefix_head. reflexivity.
Qed.

(** ** What a backslash protects, and inputs with nothing to rewrite *)

Lemma literal_has_digit (t : pystr) :
  literal_text int_text t = true -> existsb is_digit t = true.
Proof.
  intros H.
  destruct (literal_anatomy t H) as (s0 & u & v & -> & _ & _ & Hu & _).
  destruct Hu as (d & u' & -> & Hd).
  rewrite existsb_app. cbn [app existsb]. rewrite Hd.
  rewrite orb_true_r. reflexivity.
Qed.

Lemma no_digit_no_number (bef aft : list char) :
  forallb (fun c => negb (is_digit c)) aft = true ->
  match_at number_pattern bef aft = None.
Proof.
  intros H. destruct (match_at number_pattern bef aft) as [m|] eqn:E;
    [|reflexivity].
  destruct (number_match_token _ _ _ E) as (_ & rest & Ha & _ & Hl & _).
  apply literal_has_digit in Hl. apply existsb_exists in Hl.
  destruct Hl as (d & Hin & Hd).
  rewrite forallb_forall in H.
  assert (Hd' : negb (is_digit d) = true).
  { apply H. rewrite Ha. apply in_or_app. left. exact Hin. }
  rewrite Hd in Hd'. discriminate.
Qed.

Lemma no_digit_scan (s : pystr) :
  forall bef,
    forallb (fun c => negb (is_digit c)) s = true ->
    scan number_pattern bef s 0 = map Gap s.
Proof.
  induction s as [|x s IH]; intros bef H.
  - apply scan_end. apply no_digit_no_number. reflexivity.
  - rewrite scan_gap by (apply no_digit_no_number; exact H).
    cbn [forallb] in H. apply andb_true_iff in H. destruct H as [_ H].
    cbn [map]. f_equal. apply IH. exact H.
Qed.

Lemma strip_cons_backslash (s : pystr) :
  strip_backslashes (chr "\" :: s) = strip_backslashes s.
Proof.
  rewrite !strip_is_filter. cbn [filter]. rewrite N.eqb_refl. reflexivity.
Qed.

(** What a backslash protects.  A backslash in front of a run of letters,
    digits, underscores, periods and backslashes, however long, keeps the
    whole run from both rewritings: without the debug flag the rewriting
    steps return the run with its backslashes taken out, parse nothing and
    leave the table as it is.  So an escaped number such as \1.5 or an
    escaped dotted name such as \a.b_c stays as written. *)
Theorem backslash_protects_the_run (L : Library) (a : arguments)
        (t : pystr) (w : world) :
  debug a = false -> forallb blocks_start t = true ->
  rewrite a (chr "\" :: t) w = (inr (strip_backslashes t), w).
Proof.
  intros Hd Hb.
  assert (Hq : qualify_names (chr "\" :: t) = chr "\" :: t).
  { rewrite qualify_names_from, qualify_from_gap.
    - f_equal. rewrite <- (app_nil_r t) at 1.
      rewrite qualify_blocked; [|reflexivity|exact Hb].
      rewrite qualify_from_nil. apply app_nil_r.
    - rewrite match_at_name. reflexivity. }
  assert (He : extract_numbers (chr "\" :: t) w = (inr (chr "\" :: t), w)).
  { unfold extract_numbers, sub_with, pieces.
    rewrite scan_gap by apply number_not_at_backslash.
    rewrite number_blocked_run; [|reflexivity|exact Hb].
    apply (sub_pieces_gaps _ (chr "\" :: t)). }
  unfold rewrite. rewrite Hd, Hq. unfold when, bind, ret. rewrite He.
  rewrite strip_cons_backslash. reflexivity.
Qed.

Lemma backslash_protects_the_run_witness :
  @rewrite text_library (Args (str "\1.5e3") 5 false false) (str "\1.5e3")
           fresh_world
  = (inr (strip_backslashes (str "1.5e3")), fresh_world).
Proof.
  apply (backslash_protects_the_run text_library
           (Args (str "\1.5e3") 5 false false) (str "1.5e3") fresh_world).
  - reflexivity.
  - vm_compute. reflexivity.
Defined.

(** Nothing to rewrite.  An input without a letter or underscore is left
    as it is by the qualification; an input without a digit is left as it
    is by the extraction, which then parses nothing and leaves the table
    alone; and an input with none of these and no backslash comes out of
    the rewriting steps as it went in. *)
Theorem nothing_to_rewrite (L : Library) :
  (forall s,
      forallb (fun c => negb (name_start c)) s = true ->
      qualify_names s = s) /\
  (forall s w,
      forallb (fun c => negb (is_digit c)) s = true ->
      extract_numbers s w = (inr s, w)) /\
  (forall a s w,
      debug a = false ->
      forallb (fun c => negb (name_start c)) s = true ->
      forallb (fun c => negb (is_digit c)) s = true ->
      forallb (fun c => negb (N.eqb c (chr "\"))) s = true ->
      rewrite a s w = (inr s, w)).
Proof.
  assert (Hq : forall s,
             forallb (fun c => negb (name_start c)) s = true ->
             qualify_names s = s).
  { intros s H. rewrite qualify_names_from.
    rewrite (qualify_from_prefix (length s) s [] (le_n _)).
    apply prefix_none. exact H. }
  assert (Hx : forall s (w : world),
             forallb (fun c => negb (is_digit c)) s = true ->
             extract_numbers s w = (inr s, w)).
  { intros s w H. unfold extract_numbers, sub_with, pieces.
    rewrite (no_digit_scan s [] H). apply sub_pieces_gaps. }
  split; [exact Hq|]. split; [exact Hx|].
  intros a s w Hd Hn Hg Hb. unfold rewrite.
  rewrite Hd, (Hq s Hn). unfold when, bind, ret. rewrite (Hx s w Hg).
  rewrite strip_is_filter. f_equal. f_equal. apply filter_keeps_all.
  exact Hb.
Qed.

Lemma nothing_to_rewrite_witness :
  @rewrite text_library (Args (str "(+) * [,]") 5 false false)
           (str "(+) * [,]") fresh_world
  = (inr (str "(+) * [,]"), fresh_world).
Proof.
  destruct (nothing_to_rewrite text_library) as (_ & _ & H).
  apply H; vm_compute; reflexivity.
Defined.

(** ** Qualification and the literals *)

Lemma blocks_end_start (c : char) :
  blocks_end c = true -> blocks_start c = true.
Proof.
  unfold blocks_end, blocks_start, one_of, str.
  cbn [list_ascii_of_string map existsb].
  destruct (is_letter c), (is_digit c), (N.eqb c (chr "_")),
    (N.eqb c (chr ".")); simpl; intros H; try reflexivity; discriminate H.
Qed.

Lemma digit_not_name_start (d : char) :
  is_digit d = true -> name_start d = false.
Proof.
  intros H. destruct (name_start d) eqn:E; [exfalso|reflexivity].
  unfold is_digit, name_start, is_letter, in_range in *.
  change (chr "0") with 48%N in H. change (chr "9") with 57%N in H.
  change (chr "a") with 97%N in E. change (chr "z") with 122%N in E.
  change (chr "A") with 65%N in E. change (chr "Z") with 90%N in E.
  change (chr "_") with 95%N in E.
  apply andb_true_iff in H. destruct H as [H1 H2].
  apply N.leb_le in H1. apply N.leb_le in H2.
  apply orb_true_iff in E. destruct E as [E|E].
  - apply orb_true_iff in E. destruct E as [E|E];
      apply andb_true_iff in E; destruct E as [E1 E2];
      apply N.leb_le in E1; apply N.leb_le in E2; lia.
  - apply N.eqb_eq in E. lia.
Qed.

Lemma name_start_not_number (x : char) :
  name_start x = true -> x <> chr "-" /\ is_digit x = false.
Proof.
  intros H. split.
  - intros ->. vm_compute in H. discriminate.
  - destruct (is_digit x) eqn:E; [|reflexivity].
    rewrite (digit_not_name_start x E) in H. discriminate.
Qed.

Lemma digit_or_underscore_not_m (c : char) :
  digit_or_underscore c = true -> negb (N.eqb c (chr "m")) = true.
Proof.
  intros H. apply negb_true_iff. apply N.eqb_neq. intros ->.
  vm_compute in H. discriminate.
Qed.

Lemma int_text_no_m (i : pystr) :
  int_text i = true ->
  forallb (fun c : char => negb (N.eqb c (chr "m"))) i = true.
Proof.
  destruct i as [|d i']; [discriminate|]. unfold int_text. intros H.
  apply andb_true_iff in H. destruct H as [H _].
  apply andb_true_iff in H. destruct H as [Hd Hi].
  cbn [forallb]. rewrite digit_or_underscore_not_m
    by (unfold digit_or_underscore; rewrite Hd; reflexivity).
  apply forallb_forall. intros c Hc. apply digit_or_underscore_not_m.
  rewrite forallb_forall in Hi. apply Hi. exact Hc.
Qed.

(** The parts of a literal. *)
Lemma literal_parts (t : pystr) :
  literal_text int_text t = true ->
  exists s0 i f e j,
    t = s0 ++ i ++ f ++ e ++ j /\
    (s0 = [] \/ s0 = [chr "-"]) /\
    int_text i = true /\
    (f = [] \/ exists i2, f = chr "." :: i2 /\ int_text i2 = true) /\
    (e = [] \/
     exists s1 i3, e = chr "e" :: s1 ++ i3 /\
                   (s1 = [] \/ s1 = [chr "-"]) /\ int_text i3 = true) /\
    (j = [] \/ j = [chr "j"]).
Proof.
  intros H. unfold literal_text, number_text in H.
  apply l_seq_spec in H. destruct H as (n & j & -> & Hn & Hj).
  apply l_seq_spec in Hn. destruct Hn as (s0 & r1 & -> & Hs0 & Hr1).
  apply l_seq_spec in Hr1. destruct Hr1 as (i & r2 & -> & Hi & Hr2).
  apply l_seq_spec in Hr2. destruct Hr2 as (f & e & -> & Hf & He).
  exists s0, i, f, e, j.
  split; [rewrite <- !app_assoc; reflexivity|].
  split.
  { apply l_opt_spec in Hs0. destruct Hs0 as [->|[_ H]];
      [left; reflexivity|right; apply l_chr_spec; exact H]. }
  split; [exact Hi|]. split.
  { apply l_opt_spec in Hf. destruct Hf as [->|[_ H]]; [left; reflexivity|].
    right. apply l_seq_spec in H. destruct H as (dot & i2 & -> & Hdot & Hi2).
    apply l_chr_spec in Hdot. subst dot. exists i2.
    split; [reflexivity|exact Hi2]. }
  split.
  { apply l_opt_spec in He. destruct He as [->|[_ H]]; [left; reflexivity|].
    right. apply l_seq_spec in H. destruct H as (e1 & r3 & -> & He1 & Hr3).
    apply l_chr_spec in He1. subst e1.
    apply l_seq_spec in Hr3. destruct Hr3 as (s1 & i3 & -> & Hs1 & Hi3).
    exists s1, i3. split; [reflexivity|]. split; [|exact Hi3].
    apply l_opt_spec in Hs1. destruct Hs1 as [->|[_ H]];
      [left; reflexivity|right; apply l_chr_spec; exact H]. }
  apply l_opt_spec in Hj. destruct Hj as [->|[_ H]];
    [left; reflexivity|right; apply l_chr_spec; exact H].
Qed.

Lemma literal_no_m (t : pystr) :
  literal_text int_text t = true ->
  forallb (fun c : char => negb (N.eqb c (chr "m"))) t = true.
Proof.
  intros H.
  destruct (literal_parts t H) as (s0 & i & f & e & j & -> & Hs0 & Hi & Hf
                                   & He & Hj).
  rewrite !forallb_app, (int_text_no_m i Hi).
  assert (H0 : forallb (fun c : char => negb (N.eqb c (chr "m"))) s0 = true)
    by (destruct Hs0 as [-> | ->]; reflexivity).
  assert (H1 : forallb (fun c : char => negb (N.eqb c (chr "m"))) f = true).
  { destruct Hf as [->|(i2 & -> & Hi2)]; [reflexivity|].
    cbn [forallb]. rewrite (int_text_no_m i2 Hi2). reflexivity. }
  assert (H2 : forallb (fun c : char => negb (N.eqb c (chr "m"))) e = true).
  { destruct He as [->|(s1 & i3 & -> & Hs1 & Hi3)]; [reflexivity|].
    cbn [forallb]. rewrite forallb_app, (int_text_no_m i3 Hi3).
    destruct Hs1 as [-> | ->]; reflexivity. }
  assert (H3 : forallb (fun c : char => negb (N.eqb c (chr "m"))) j = true)
    by (destruct Hj as [-> | ->]; reflexivity).
  rewrite H0, H1, H2, H3. reflexivity.
Qed.

(** Texts the qualification passes over: nothing is put in front of any
    of their characters. *)
Lemma pass_app (x y : pystr) :
  (forall bef rest,
      prefix_starts bef (x ++ rest) = x ++ prefix_starts (rev x ++ bef) rest) ->
  (forall bef rest,
      prefix_starts bef (y ++ rest) = y ++ prefix_starts (rev y ++ bef) rest) ->
  forall bef rest,
    prefix_starts bef ((x ++ y) ++ rest)
    = (x ++ y) ++ prefix_starts (rev (x ++ y) ++ bef) rest.
Proof.
  intros Hx Hy bef rest.
  rewrite <- !app_assoc, Hx, Hy, rev_app_distr, <- app_assoc. reflexivity.
Qed.

Lemma pass_app_blocked (x y : pystr) :
  (forall bef rest,
      prefix_starts bef (x ++ rest) = x ++ prefix_starts (rev x ++ bef) rest) ->
  (exists p z, x = p ++ [z] /\ blocks_start z = true) ->
  (forall bef rest,
      free_before bef = false ->
      prefix_starts bef (y ++ rest) = y ++ prefix_starts (rev y ++ bef) rest) ->
  forall bef rest,
    prefix_starts bef ((x ++ y) ++ rest)
    = (x ++ y) ++ prefix_starts (rev (x ++ y) ++ bef) rest.
Proof.
  intros Hx (p & z & Hp & Hz) Hy bef rest.
  rewrite <- !app_assoc, Hx. rewrite Hy.
  - rewrite rev_app_distr, <- app_assoc. reflexivity.
  - rewrite Hp, rev_app_distr. cbn [rev app free_before]. rewrite Hz.
    reflexivity.
Qed.

Lemma pass_char (c : char) :
  name_start c = false ->
  forall bef rest,
    prefix_starts bef ([c] ++ rest)
    = [c] ++ prefix_starts (rev [c] ++ bef) rest.
Proof. intros H bef rest. cbn [app rev]. apply prefix_step. exact H. Qed.

Lemma pass_nil :
  forall bef rest,
    prefix_starts bef ([] ++ rest)
    = [] ++ prefix_starts (rev [] ++ bef) rest.
Proof. reflexivity. Qed.

Lemma pass_int (i : pystr) :
  int_text i = true ->
  forall bef rest,
    prefix_starts bef (i ++ rest) = i ++ prefix_starts (rev i ++ bef) rest.
Proof.
  intros Hi bef rest.
  destruct (int_text_shape i Hi) as (Hb & (d & i' & -> & Hd) & _).
  cbn [forallb] in Hb. apply andb_true_iff in Hb. destruct Hb as [Hdb Hb].
  cbn [app]. rewrite (prefix_step d bef _ (digit_not_name_start d Hd)).
  rewrite prefix_blocked.
  - rewrite rev_cons_app. reflexivity.
  - cbn [free_before]. rewrite (blocks_end_start d Hdb). reflexivity.
  - apply forallb_forall. intros c Hc. apply blocks_end_start.
    rewrite forallb_forall in Hb. apply Hb. exact Hc.
Qed.

Lemma pass_sign (s0 : pystr) :
  s0 = [] \/ s0 = [chr "-"] ->
  forall bef rest,
    prefix_starts bef (s0 ++ rest) = s0 ++ prefix_starts (rev s0 ++ bef) rest.
Proof.
  intros [-> | ->]; [exact pass_nil|]. apply pass_char. reflexivity.
Qed.

Lemma int_ends_blocking (i : pystr) :
  int_text i = true -> exists p z, i = p ++ [z] /\ blocks_start z = true.
Proof.
  intros Hi. destruct (int_text_shape i Hi) as (_ & _ & (p & z & Hp & Hz)).
  exists p, z. split; [exact Hp|].
  apply blocks_end_start. apply digit_blocks. exact Hz.
Qed.

Lemma ends_app (P : char -> Prop) (x y : pystr) :
  (exists p z, y = p ++ [z] /\ P z) ->
  exists p z, x ++ y = p ++ [z] /\ P z.
Proof.
  intros (p & z & -> & Hz). exists (x ++ p), z.
  split; [rewrite app_assoc; reflexivity|exact Hz].
Qed.

Lemma pass_marker (j : pystr) :
  j = [] \/ j = [chr "j"] ->
  forall bef rest,
    free_before bef = false ->
    prefix_starts bef (j ++ rest) = j ++ prefix_starts (rev j ++ bef) rest.
Proof.
  intros [-> | ->] bef rest Hf; [reflexivity|].
  apply prefix_blocked; [exact Hf|reflexivity].
Qed.

Lemma pass_literal (t : pystr) :
  literal_text int_text t = true ->
  forall bef rest,
    prefix_starts bef (t ++ rest) = t ++ prefix_starts (rev t ++ bef) rest.
Proof.
  intros H.
  destruct (literal_parts t H) as (s0 & i & f & e & j & -> & Hs0 & Hi & Hf
                                   & He & Hj).
  assert (Hx : forall bef rest,
             prefix_starts bef (((s0 ++ i) ++ f) ++ rest)
             = ((s0 ++ i) ++ f)
                 ++ prefix_starts (rev ((s0 ++ i) ++ f) ++ bef) rest).
  { apply pass_app; [apply pass_app; [apply pass_sign; exact Hs0
                                     |apply pass_int; exact Hi]|].
    destruct Hf as [->|(i2 & -> & Hi2)]; [exact pass_nil|].
    change (chr "." :: i2) with ([chr "."] ++ i2).
    apply pass_app; [apply pass_char; reflexivity|apply pass_int; exact Hi2]. }
  assert (Hxe : exists p z, (s0 ++ i) ++ f = p ++ [z]
                            /\ blocks_start z = true).
  { destruct Hf as [->|(i2 & -> & Hi2)].
    - rewrite app_nil_r. apply ends_app. apply int_ends_blocking. exact Hi.
    - apply ends_app.
      change (chr "." :: i2) with ([chr "."] ++ i2).
      apply ends_app. apply int_ends_blocking. exact Hi2. }
  assert (Hy : forall bef rest,
             free_before bef = false ->
             prefix_starts bef ((e ++ j) ++ rest)
             = (e ++ j) ++ prefix_starts (rev (e ++ j) ++ bef) rest).
  { destruct He as [->|(s1 & i3 & -> & Hs1 & Hi3)].
    - cbn [app]. apply pass_marker. exact Hj.
    - intros bef rest Hf'.
      assert (Hz : forall bef rest,
                 prefix_starts bef (((s1 ++ i3) ++ j) ++ rest)
                 = ((s1 ++ i3) ++ j)
                     ++ prefix_starts (rev ((s1 ++ i3) ++ j) ++ bef) rest).
      { apply pass_app_blocked.
        - apply pass_app; [apply pass_sign; exact Hs1
                          |apply pass_int; exact Hi3].
        - apply ends_app. apply int_ends_blocking. exact Hi3.
        - apply pass_marker. exact Hj. }
      change ((chr "e" :: s1 ++ i3) ++ j)
        with ([chr "e"] ++ ((s1 ++ i3) ++ j)).
      rewrite <- app_assoc.
      rewrite (prefix_blocked [chr "e"] bef _ Hf' eq_refl).
      rewrite Hz. rewrite !rev_app_distr, <- !app_assoc. reflexivity. }
  replace (s0 ++ i ++ f ++ e ++ j) with (((s0 ++ i) ++ f) ++ (e ++ j))
    by (rewrite <- !app_assoc; reflexivity).
  apply pass_app_blocked; assumption.
Qed.

Lemma prefix_free_after (bef : list char) (rest : pystr) :
  free_before bef = false ->
  free_after (prefix_starts bef rest) = free_after rest.
Proof.
  intros Hf. destruct rest as [|c rest]; [reflexivity|].
  cbn [prefix_starts]. rewrite Hf, andb_false_r. reflexivity.
Qed.

Lemma free_before_rev (t : pystr) (a b : list char) :
  t <> [] -> free_before (rev t ++ a) = free_before (rev t ++ b).
Proof.
  intros Ht. destruct (rev t) as [|z l] eqn:E; [|reflexivity].
  apply (f_equal (@rev char)) in E. rewrite rev_involutive in E.
  contradiction.
Qed.

Lemma literal_ends_blocking (t : pystr) (bef : list char) :
  literal_text int_text t = true -> free_before (rev t ++ bef) = false.
Proof.
  intros H. destruct (literal_last t H) as (p & z & -> & Hz).
  rewrite rev_app_distr. cbn [rev app free_before].
  destruct Hz as [Hz | ->]; [|reflexivity].
  rewrite (blocks_end_start z (digit_blocks z Hz)). reflexivity.
Qed.

Lemma no_number_at (c : char) (bef : list char) (rest : pystr) :
  c <> chr "-" -> is_digit c = false ->
  forall t r, c :: rest = t ++ r -> ~ number_token int_text bef t r.
Proof.
  intros Hc Hd t r Heq (_ & Hl & _).
  destruct (literal_first t Hl) as (y & t' & -> & Hy).
  cbn [app] in Heq. injection Heq as Hcy _. subst y.
  destruct Hy as [Hy|Hy]; [exact (Hc Hy)|congruence].
Qed.

(** A literal found in the qualified text stands in the input as well. *)
Lemma prefix_token_back (t' : pystr) :
  forall bef rest r,
    forallb (fun c : char => negb (N.eqb c (chr "m"))) t' = true ->
    prefix_starts bef rest = t' ++ r -> free_after r = true ->
    exists r0, rest = t' ++ r0 /\ free_after r0 = true.
Proof.
  induction t' as [|y t' IH]; intros bef rest r Hm H Hfree.
  - cbn [app] in H. subst r. destruct rest as [|c rest'].
    + exists []. split; reflexivity.
    + exists (c :: rest'). split; [reflexivity|].
      cbn [prefix_starts] in Hfree.
      destruct (name_start c && free_before bef).
      * unfold str in Hfree. cbn [list_ascii_of_string map app free_after]
          in Hfree. vm_compute in Hfree. discriminate.
      * exact Hfree.
  - cbn [forallb] in Hm. apply andb_true_iff in Hm. destruct Hm as [Hy Hm].
    destruct rest as [|c rest']; [discriminate|].
    cbn [prefix_starts app] in H.
    destruct (name_start c && free_before bef).
    + unfold str in H. cbn [list_ascii_of_string map app] in H.
      injection H as Hmy _. subst y. rewrite N.eqb_refl in Hy. discriminate.
    + cbn [app] in H. injection H as Hcy H. subst y.
      destruct (IH (c :: bef) rest' r Hm H Hfree) as (r0 & -> & Hr0).
      exists r0. split; [reflexivity|exact Hr0].
Qed.

(** The cut of the input into literals, carried over to the qualified
    input, is a cut of the qualified input into literals. *)
Lemma qualified_segmented (bef : list char) (s : pystr)
      (segs : list segment) :
  segmented (number_token int_text) bef s segs ->
  forall bef2,
    free_before bef2 = free_before bef ->
    segmented (number_token int_text) bef2 (prefix_starts bef s)
              (qualified_cut bef segs).
Proof.
  intros H.
  induction H as [bef|bef t rest segs Hne Htok H IH|bef x rest segs Hno H IH];
    intros bef2 Hb.
  - constructor.
  - destruct Htok as (Hf & Hl & Ha).
    rewrite (pass_literal t Hl). cbn [qualified_cut].
    apply seg_token; [exact Hne| |].
    + split; [rewrite Hb; exact Hf|]. split; [exact Hl|].
      rewrite prefix_free_after; [exact Ha|].
      apply literal_ends_blocking. exact Hl.
    + apply IH. apply free_before_rev. exact Hne.
  - cbn [prefix_starts qualified_cut].
    destruct (name_start x && free_before bef) eqn:E.
    + apply andb_true_iff in E. destruct E as [Hx _].
      destruct (name_start_not_number x Hx) as [Hx1 Hx2].
      unfold str. cbn [list_ascii_of_string map app].
      apply seg_kept;
        [apply no_number_at; [intros Hc; vm_compute in Hc; discriminate
                             |reflexivity]|].
      apply seg_kept;
        [apply no_number_at; [intros Hc; vm_compute in Hc; discriminate
                             |reflexivity]|].
      apply seg_kept;
        [apply no_number_at; [intros Hc; vm_compute in Hc; discriminate
                             |reflexivity]|].
      apply seg_kept; [apply no_number_at; assumption|].
      apply IH. reflexivity.
    + cbn [app]. apply seg_kept.
      * intros t r Heq (Hf & Hl & Ha).
        destruct (literal_first t Hl) as (y & t' & -> & _).
        cbn [app] in Heq. injection Heq as Hxy Heq. subst y.
        pose proof (literal_no_m _ Hl) as Hm. cbn [forallb] in Hm.
        apply andb_true_iff in Hm. destruct Hm as [_ Hm].
        destruct (prefix_token_back t' (x :: bef) rest r Hm Heq Ha)
          as (r0 & Hr0 & Ha0).
        apply (Hno (x :: t') r0).
        -- rewrite Hr0. reflexivity.
        -- split; [rewrite <- Hb; exact Hf|]. split; [exact Hl|exact Ha0].
      * apply IH. reflexivity.
Qed.

Lemma qualified_cut_tokens (segs : list segment) :
  forall bef, tokens (qualified_cut bef segs) = tokens segs.
Proof.
  induction segs as [|[x|t] segs IH]; intros bef; [reflexivity| |].
  - cbn [qualified_cut]. unfold tokens in *. rewrite flat_map_app.
    cbn [flat_map app]. rewrite IH.
    destruct (name_start x && free_before bef); reflexivity.
  - cbn [qualified_cut]. unfold tokens in *. cbn [flat_map].
    rewrite IH. reflexivity.
Qed.

Lemma qualified_pieces (s : pystr) :
  map segment_of (pieces number_pattern (qualify_names s))
  = qualified_cut [] (map segment_of (pieces number_pattern s)).
Proof.
  apply (segmented_unique _ number_token_det [] (qualify_names s)).
  - apply number_segmented.
  - rewrite qualify_names_from.
    rewrite (qualify_from_prefix (length s) s [] (le_n _)).
    apply (qualified_segmented [] s _ (number_segmented s)). reflexivity.
Qed.

(** Qualification keeps the literals.  The literals of the qualified
    input are those of the input as typed, in the same order, and the cut
    of the one is the cut of the other with the prefixes put in as kept
    characters; so the table a run hands to the evaluation has one key for
    each literal of the input as typed, in the order of first occurrence. *)
Theorem qualification_keeps_the_literals :
  (forall s, literals (qualify_names s) = literals s) /\
  (forall s,
      map segment_of (pieces number_pattern (qualify_names s))
      = qualified_cut [] (map segment_of (pieces number_pattern s))) /\
  (forall (L : Library) (a : arguments) (w : world) p e numbers,
      In (Evaluated p e numbers)
         (added (calls w) (calls (snd (script a w)))) ->
      dict_keys numbers = first_seen [] (literals (expression a))).
Proof.
  assert (H : forall s, literals (qualify_names s) = literals s).
  { intros s. unfold literals. rewrite qualified_pieces.
    apply qualified_cut_tokens. }
  split; [exact H|]. split; [exact qualified_pieces|].
  intros L a w p e numbers Hin.
  destruct (script_table a w p e numbers Hin) as [Hk _].
  rewrite Hk, H. reflexivity.
Qed.

Lemma qualification_keeps_the_literals_witness :
  dict_keys [(str "2", str "2")]
  = first_seen [] (literals (str "sin(2) + 2")).
Proof.
  destruct qualification_keeps_the_literals as (_ & _ & H).
  apply (H text_library (Args (str "sin(2) + 2") 5 false false) fresh_world
           20%Z (str "mp.sin(NUMBERS['2']) + NUMBERS['2']")).
  vm_compute. right. left. reflexivity.
Defined.

(** ** A name alone, a literal alone *)

Lemma validate_ok (s : pystr) :
  forallb allowed s = true -> ~ open_float s -> validate s = None.
Proof.
  intros Ha Ho. unfold validate.
  destruct (search disallowed_characters s) as [m|] eqn:E.
  - apply search_disallowed_none in Ha. congruence.
  - destruct (search open_float_pattern s) as [m|] eqn:E2; [|reflexivity].
    exfalso. apply Ho. apply search_open_float. exists m. exact E2.
Qed.

Lemma open_float_period (s : pystr) : open_float s -> In (chr ".") s.
Proof.
  intros [a b d -> _ _|a b d -> _ _]; apply in_or_app; right.
  - right. left. reflexivity.
  - left. reflexivity.
Qed.

(** Where the one period of a text is. *)
Lemma split_at_only (c : char) (x : pystr) :
  forall y a b,
    ~ In c x -> ~ In c y -> x ++ c :: y = a ++ c :: b -> a = x /\ b = y.
Proof.
  induction x as [|h x IH]; intros y a b Hx Hy H.
  - destruct a as [|h' a].
    + injection H as H. split; [reflexivity|symmetry; exact H].
    + cbn [app] in H. injection H as Hh H. exfalso. apply Hy.
      rewrite H. apply in_or_app. right. left. reflexivity.
  - destruct a as [|h' a].
    + cbn [app] in H. injection H as Hh _. exfalso. apply Hx. left.
      exact Hh.
    + cbn [app] in H. injection H as Hh H. subst h'.
      destruct (IH y a b (fun Hin => Hx (or_intror Hin)) Hy H) as [-> ->].
      split; reflexivity.
Qed.

Lemma digit_or_underscore_chars (i : pystr) :
  int_text i = true -> forallb digit_or_underscore i = true.
Proof.
  destruct i as [|d i']; [discriminate|]. unfold int_text. intros H.
  apply andb_true_iff in H. destruct H as [H _].
  apply andb_true_iff in H. destruct H as [Hd Hi].
  cbn [forallb]. unfold digit_or_underscore at 1. rewrite Hd, Hi.
  reflexivity.
Qed.

Lemma int_text_has (P : char -> bool) (i : pystr) :
  (forall c, digit_or_underscore c = true -> P c = true) ->
  int_text i = true -> forallb P i = true.
Proof.
  intros HP Hi. apply forallb_forall. intros c Hc. apply HP.
  pose proof (digit_or_underscore_chars i Hi) as H.
  rewrite forallb_forall in H. apply H. exact Hc.
Qed.

Lemma digit_or_underscore_allowed (c : char) :
  digit_or_underscore c = true -> allowed c = true.
Proof.
  unfold digit_or_underscore, allowed. intros H.
  apply orb_true_iff in H. destruct H as [H|H].
  - rewrite H, !orb_true_r. reflexivity.
  - apply N.eqb_eq in H. subst c. reflexivity.
Qed.

Lemma digit_or_underscore_no_period (c : char) :
  digit_or_underscore c = true -> negb (N.eqb c (chr ".")) = true.
Proof.
  intros H. apply negb_true_iff. apply N.eqb_neq. intros ->.
  vm_compute in H. discriminate.
Qed.

Lemma no_period_not_in (s : pystr) :
  forallb (fun c : char => negb (N.eqb c (chr "."))) s = true ->
  ~ In (chr ".") s.
Proof.
  intros H Hin. rewrite forallb_forall in H. specialize (H _ Hin).
  rewrite N.eqb_refl in H. discriminate.
Qed.

Lemma sign_chars (P : char -> bool) (s0 : pystr) :
  P (chr "-") = true -> s0 = [] \/ s0 = [chr "-"] -> forallb P s0 = true.
Proof.
  intros HP [-> | ->]; [reflexivity|]. cbn [forallb]. rewrite HP.
  reflexivity.
Qed.

Lemma exponent_chars (P : char -> bool) (e : pystr) :
  (forall c, digit_or_underscore c = true -> P c = true) ->
  P (chr "-") = true -> P (chr "e") = true ->
  (e = [] \/
   exists s1 i3, e = chr "e" :: s1 ++ i3 /\
                 (s1 = [] \/ s1 = [chr "-"]) /\ int_text i3 = true) ->
  forallb P e = true.
Proof.
  intros HP Hm He [->|(s1 & i3 & -> & Hs1 & Hi3)]; [reflexivity|].
  cbn [forallb]. rewrite He, forallb_app, (sign_chars P s1 Hm Hs1),
    (int_text_has P i3 HP Hi3). reflexivity.
Qed.

Lemma marker_chars (P : char -> bool) (j : pystr) :
  P (chr "j") = true -> j = [] \/ j = [chr "j"] -> forallb P j = true.
Proof.
  intros HP [-> | ->]; [reflexivity|]. cbn [forallb]. rewrite HP.
  reflexivity.
Qed.

Lemma int_first_digit (i rest : pystr) :
  int_text i = true -> no_digit_next (i ++ rest) = false.
Proof.
  intros Hi. destruct (int_text_shape i Hi) as (_ & (d & i' & -> & Hd) & _).
  cbn [app no_digit_next]. rewrite Hd. reflexivity.
Qed.

Lemma int_last_digit (i a : pystr) :
  int_text i = true -> no_digit_next (rev (a ++ i)) = false.
Proof.
  intros Hi. destruct (int_text_shape i Hi) as (_ & _ & (p & z & -> & Hz)).
  rewrite app_assoc, rev_app_distr. cbn [rev app no_digit_next].
  rewrite Hz. reflexivity.
Qed.

(** A literal has no open float in it, and its characters are allowed. *)
Lemma literal_valid (t : pystr) :
  literal_text int_text t = true -> validate t = None.
Proof.
  intros H.
  destruct (literal_parts t H) as (s0 & i & f & e & j & -> & Hs0 & Hi & Hf
                                   & He & Hj).
  apply validate_ok.
  - rewrite !forallb_app.
    rewrite (sign_chars allowed s0 eq_refl Hs0).
    rewrite (int_text_has allowed i digit_or_underscore_allowed Hi).
    rewrite (exponent_chars allowed e digit_or_underscore_allowed
               eq_refl eq_refl He).
    rewrite (marker_chars allowed j eq_refl Hj).
    destruct Hf as [->|(i2 & -> & Hi2)]; [reflexivity|].
    cbn [forallb].
    rewrite (int_text_has allowed i2 digit_or_underscore_allowed Hi2).
    reflexivity.
  - assert (Hn0 : ~ In (chr ".") (s0 ++ i)).
    { apply no_period_not_in. rewrite forallb_app.
      rewrite (sign_chars _ s0 eq_refl Hs0).
      rewrite (int_text_has _ i digit_or_underscore_no_period Hi).
      reflexivity. }
    assert (Hn1 : ~ In (chr ".") (e ++ j)).
    { apply no_period_not_in. rewrite forallb_app.
      rewrite (exponent_chars _ e digit_or_underscore_no_period
                 eq_refl eq_refl He).
      rewrite (marker_chars _ j eq_refl Hj). reflexivity. }
    destruct Hf as [->|(i2 & -> & Hi2)].
    + intros Ho. apply open_float_period in Ho. cbn [app] in Ho.
      rewrite app_assoc in Ho. apply in_app_or in Ho.
      destruct Ho as [Ho|Ho]; [exact (Hn0 Ho)|exact (Hn1 Ho)].
    + assert (Hn2 : ~ In (chr ".") (i2 ++ e ++ j)).
      { intros Hin. apply in_app_or in Hin. destruct Hin as [Hin|Hin];
          [|exact (Hn1 Hin)].
        revert Hin. apply no_period_not_in.
        apply (int_text_has _ i2 digit_or_underscore_no_period Hi2). }
      assert (Heq : s0 ++ i ++ (chr "." :: i2) ++ e ++ j
                    = (s0 ++ i) ++ chr "." :: (i2 ++ e ++ j)).
      { rewrite <- !app_assoc. reflexivity. }
      rewrite Heq.
      intros [a b d Hab Hd Hb|a b d Hab Hd Hb].
      * assert (Hab' : (s0 ++ i) ++ chr "." :: (i2 ++ e ++ j)
                       = (a ++ [d]) ++ chr "." :: b)
          by (rewrite Hab, <- app_assoc; reflexivity).
        destruct (split_at_only _ _ _ _ _ Hn0 Hn2 Hab') as [_ ->].
        rewrite (int_first_digit i2 (e ++ j) Hi2) in Hb. discriminate.
      * destruct (split_at_only _ _ _ _ _ Hn0 Hn2 Hab) as [-> _].
        rewrite (int_last_digit i s0 Hi) in Hb. discriminate.
Qed.

Lemma number_not_at (c : char) (bef rest : list char) :
  c <> chr "-" -> is_digit c = false ->
  match_at number_pattern bef (c :: rest) = None.
Proof.
  intros Hc Hd.
  destruct (match_at number_pattern bef (c :: rest)) as [m|] eqn:E;
    [|reflexivity].
  destruct (number_match_token _ _ _ E) as (_ & r & Ha & Htok).
  exfalso. exact (no_number_at c bef rest Hc Hd _ _ Ha Htok).
Qed.

Lemma literal_pieces (t : pystr) :
  literal_text int_text t = true ->
  exists g, pieces number_pattern t = [Hit (Match t g)].
Proof.
  intros H.
  assert (Htok : number_token int_text [] t []) by (repeat split; exact H).
  destruct (number_token_match [] t [] Htok) as [g Hg].
  exists g. unfold pieces. rewrite <- (app_nil_r t) at 1.
  rewrite (scan_hit number_pattern [] t [] (Match t g) Hg eq_refl).
  - f_equal. apply scan_end. apply number_blocked.
    apply literal_ends_blocking. exact H.
  - destruct (literal_first t H) as (x & t' & -> & _). discriminate.
Qed.

Lemma literal_no_backslash (t : pystr) :
  literal_text int_text t = true ->
  forallb (fun c : char => negb (N.eqb c (chr "\"))) t = true.
Proof.
  intros H. pose proof (literal_chars t H) as Hc.
  apply forallb_forall. intros c Hin. rewrite forallb_forall in Hc.
  specialize (Hc c Hin). apply negb_true_iff. apply N.eqb_neq. intros ->.
  vm_compute in Hc. discriminate.
Qed.

Section Alone.
Context {L : Library}.

Lemma main_calls_of (a : arguments) (w w2 : world) (e2 : pystr) :
  validate (expression a) = None ->
  extract_numbers (qualify_names (expression a))
    (set_prec (dps_to_prec (digits a)) w) = (inr e2, w2) ->
  calls (snd (main a w))
  = calls w2 ++ [Evaluated (prec (mp w2)) (strip_backslashes e2)
                   (NUMBERS w2)].
Proof.
  intros Hv Hx. rewrite main_run. cbv zeta. rewrite Hv, Hx.
  destruct (ev_result _) as [e|v]; [reflexivity|].
  match goal with
  | |- context [output a v ?w3] =>
      destruct (output_frame a v w3) as (_ & _ & Ho)
  end.
  cbn [snd set_prec calls]. rewrite Ho. reflexivity.
Qed.

End Alone.

(** A name alone.  An input that is one identifier of the name pattern
    passes validation, is qualified once, holds no literal and no
    backslash: the run parses nothing and evaluates "mp." followed by the
    name, with an empty table, at the precision of the requested digits. *)
Theorem name_alone (L : Library) (a : arguments) (w : world) :
  identifier (expression a) = true ->
  validate (expression a) = None /\
  qualify_names (expression a) = str "mp." ++ expression a /\
  added (calls w) (calls (snd (script a w)))
  = [Evaluated (dps_to_prec (digits a)) (str "mp." ++ expression a) []].
Proof.
  intros Hid. pose proof (identifier_blocks _ Hid) as Hb.
  pose proof (identifier_no_backslash _ Hid) as Hn.
  destruct (expression a) as [|x t'] eqn:Et; [discriminate|].
  cbn [identifier] in Hid. apply andb_true_iff in Hid.
  destruct Hid as [Hx Ht'].
  assert (Hv : validate (x :: t') = None).
  { apply validate_ok.
    - apply forallb_forall. intros c [<-|Hc].
      + unfold allowed. unfold name_start in Hx.
        apply orb_true_iff in Hx. destruct Hx as [Hx|Hx].
        * rewrite Hx. reflexivity.
        * apply N.eqb_eq in Hx. subst x. reflexivity.
      + rewrite forallb_forall in Ht'. specialize (Ht' c Hc).
        unfold allowed. unfold name_rest in Ht'.
        apply orb_true_iff in Ht'. destruct Ht' as [H|H]; rewrite H;
          rewrite ?orb_true_r; reflexivity.
    - intros Ho. apply open_float_period in Ho.
      destruct Ho as [Hxe|Ho].
      + rewrite Hxe in Hx. vm_compute in Hx. discriminate.
      + rewrite forallb_forall in Ht'. specialize (Ht' _ Ho).
        vm_compute in Ht'. discriminate. }
  assert (Hq : qualify_names (x :: t') = str "mp." ++ x :: t').
  { rewrite qualify_names_from.
    rewrite (qualify_from_prefix (length (x :: t')) _ [] (le_n _)).
    cbn [prefix_starts free_before]. rewrite Hx. cbn [andb]. f_equal.
    f_equal. rewrite <- (app_nil_r t') at 1.
    cbn [forallb] in Hb. apply andb_true_iff in Hb. destruct Hb as [Hbx Hb].
    rewrite prefix_blocked; [apply app_nil_r| |exact Hb].
    cbn [free_before]. rewrite Hbx. reflexivity. }
  split; [exact Hv|]. split; [exact Hq|].
  rewrite script_main.
  assert (Hx' : forall w0 : world,
             extract_numbers (str "mp." ++ x :: t') w0
             = (inr (str "mp." ++ x :: t'), w0)).
  { intros w0. unfold extract_numbers, sub_with, pieces.
    unfold str. cbn [list_ascii_of_string map app].
    rewrite scan_gap
      by (apply number_not_at;
          [intros Hc; vm_compute in Hc; discriminate|reflexivity]).
    rewrite number_blocked_run; [|reflexivity|].
    - apply (sub_pieces_gaps _ (chr "m" :: chr "p" :: chr "." :: x :: t')).
    - cbn [forallb]. cbn [forallb] in Hb. rewrite Hb. reflexivity. }
  rewrite (main_calls_of a (set_NUMBERS [] w)
             (set_prec (dps_to_prec (digits a)) (set_NUMBERS [] w))
             (str "mp." ++ x :: t')).
  - cbn [set_prec set_NUMBERS calls NUMBERS mp prec].
    assert (Hs : strip_backslashes (str "mp." ++ x :: t')
                 = str "mp." ++ x :: t').
    { rewrite strip_is_filter. apply filter_keeps_all.
      rewrite forallb_app. apply andb_true_iff.
      split; [reflexivity|exact Hn]. }
    rewrite Hs, added_app. reflexivity.
  - rewrite Et. exact Hv.
  - rewrite Et, Hq. apply Hx'.
Qed.

Lemma name_alone_witness :
  added (calls fresh_world)
    (calls (snd (@script text_library (Args (str "pi") 5 false false)
                   fresh_world)))
  = [@Evaluated text_library 20 (str "mp." ++ str "pi") []].
Proof.
  destruct (name_alone text_library (Args (str "pi") 5 false false)
              fresh_world) as (_ & _ & H).
  - reflexivity.
  - exact H.
Defined.

(** A literal alone.  An input that is one literal passes validation and
    is not touched by the qualification; when the library parses it, the
    run parses it once and evaluates the lookup of it with a table of that
    one entry, both at the precision of the requested digits. *)
Theorem literal_alone (L : Library) (a : arguments) (w : world)
        (v : object) :
  literal_text int_text (expression a) = true ->
  mpmathify_str (Context (dps_to_prec (digits a)) (other (mp w)))
                (expression a) = inr v ->
  validate (expression a) = None /\
  qualify_names (expression a) = expression a /\
  added (calls w) (calls (snd (script a w)))
  = [Parsed (dps_to_prec (digits a)) (expression a);
     Evaluated (dps_to_prec (digits a)) (lookup (expression a))
       [(expression a, v)]].
Proof.
  intros Hl Hp. pose proof (literal_valid _ Hl) as Hv.
  assert (Hq : qualify_names (expression a) = expression a).
  { rewrite qualify_names_from.
    rewrite (qualify_from_prefix (length (expression a)) _ [] (le_n _)).
    rewrite <- (app_nil_r (expression a)) at 1.
    rewrite (pass_literal _ Hl). apply app_nil_r. }
  split; [exact Hv|]. split; [exact Hq|].
  rewrite script_main.
  destruct (literal_pieces _ Hl) as [g Hg].
  set (w1 := set_prec (dps_to_prec (digits a)) (set_NUMBERS [] w)).
  assert (Hx : extract_numbers (expression a) w1
               = (inr (lookup (expression a)),
                  World (mp w1) [(expression a, v)] (stdout w1)
                    (calls w1 ++ [Parsed (prec (mp w1)) (expression a)]))).
  { unfold extract_numbers, sub_with. rewrite Hg. cbn [sub_pieces].
    unfold bind at 1.
    rewrite (replace_new (Match (expression a) g) w1 eq_refl).
    cbn [m_text]. unfold w1 at 1. cbn [set_prec set_NUMBERS mp other].
    rewrite Hp. unfold ret, bind. cbn [NUMBERS app].
    unfold w1. cbn [set_prec set_NUMBERS NUMBERS app].
    rewrite app_nil_r. reflexivity. }
  rewrite <- Hq in Hx at 1.
  rewrite (main_calls_of a (set_NUMBERS [] w) _ _ Hv Hx).
  unfold w1. cbn [set_prec set_NUMBERS calls NUMBERS mp prec].
  assert (Hs : strip_backslashes (lookup (expression a))
               = lookup (expression a)).
  { rewrite strip_is_filter. apply filter_keeps_all.
    unfold lookup. rewrite !forallb_app. apply andb_true_iff.
    split; [reflexivity|]. apply andb_true_iff.
    split; [exact (literal_no_backslash _ Hl)|reflexivity]. }
  rewrite Hs, <- app_assoc, added_app. reflexivity.
Qed.

Lemma literal_alone_witness :
  added (calls fresh_world)
    (calls (snd (@script text_library (Args (str "-1_0.5e-3j") 5 false false)
                   fresh_world)))
  = [@Parsed text_library 20 (str "-1_0.5e-3j");
     @Evaluated text_library 20 (lookup (str "-1_0.5e-3j"))
       [(str "-1_0.5e-3j", str "-1_0.5e-3j")]].
Proof.
  destruct (literal_alone text_library
              (Args (str "-1_0.5e-3j") 5 false false) fresh_world
              (str "-1_0.5e-3j")) as (_ & _ & H).
  - vm_compute. reflexivity.
  - reflexivity.
  - exact H.
Defined.

(** ** A minus sign in front of a number *)

Lemma segmented_at_token (tok : token) :
  (forall bef t1 r1 t2 r2, tok bef t1 r1 -> tok bef t2 r2 ->
                           t1 ++ r1 = t2 ++ r2 -> t1 = t2) ->
  forall bef t rest segs,
    tok bef t rest -> t <> [] ->
    segmented tok bef (t ++ rest) segs ->
    exists segs', segs = Token t :: segs'.
Proof.
  intros Hdet bef t rest segs Htok Hne H.
  remember (t ++ rest) as s eqn:Es.
  destruct H as [bef|bef t0 rest0 segs Hne0 Htok0 H|bef x rest0 segs Hno H].
  - symmetry in Es. apply app_eq_nil in Es. destruct Es as [Es _].
    contradiction.
  - rewrite (Hdet bef t0 rest0 t rest Htok0 Htok Es). exists segs.
    reflexivity.
  - exfalso. exact (Hno t rest Es Htok).
Qed.

(** No literal reaches across a minus sign that stands behind a character
    other than a letter, digit, underscore, period or backslash: the cut
    passes in front of the sign. *)
Lemma cut_passes_minus (bef : list char) (s : pystr) (segs : list segment) :
  segmented (number_token int_text) bef s segs ->
  forall a c rest,
    s = a ++ c :: chr "-" :: rest -> blocks_start c = false ->
    exists segs1 segs2,
      segs = segs1 ++ segs2 /\
      segmented (number_token int_text) (c :: rev a ++ bef)
                (chr "-" :: rest) segs2.
Proof.
  intros H.
  induction H as [bef|bef t rest0 segs Hne Htok H IH|bef x rest0 segs Hno H IH];
    intros a c rest Hs Hc.
  - destruct a; discriminate.
  - destruct Htok as (Hf & Hl & Ha).
    apply app_eq_app in Hs. destruct Hs as [l [[Ht Hr]|[Hat Hr]]].
    + destruct l as [|c' l].
      * cbn [app] in Hr. rewrite app_nil_r in Ht. subst t.
        destruct (IH [] c rest (eq_sym Hr) Hc) as (s1 & s2 & -> & Hseg).
        exists (Token a :: s1), s2. split; [reflexivity|].
        cbn [rev app] in Hseg. exact Hseg.
      * exfalso. cbn [app] in Hr. injection Hr as Hcc Hr. subst c'.
        destruct l as [|m l].
        -- destruct (literal_last t Hl) as (p & z & Hp & Hz).
           rewrite Ht in Hp. apply app_inj_tail in Hp. destruct Hp as [_ Hp].
           subst z. destruct Hz as [Hz|Hz].
           ++ rewrite (blocks_end_start c (digit_blocks c Hz)) in Hc.
              discriminate.
           ++ subst c. vm_compute in Hc. discriminate.
        -- cbn [app] in Hr. injection Hr as Hm Hr. subst m.
           assert (Ht' : t = (a ++ [c]) ++ chr "-" :: l)
             by (rewrite Ht, <- app_assoc; reflexivity).
           destruct (literal_minus t (a ++ [c]) l Hl Ht') as [Hnil|[a' Ha']].
           ++ apply app_eq_nil in Hnil. destruct Hnil as [_ Hnil].
              discriminate.
           ++ apply app_inj_tail in Ha'. destruct Ha' as [_ Ha'].
              subst c. vm_compute in Hc. discriminate.
    + destruct (IH l c rest Hr Hc) as (s1 & s2 & -> & Hseg).
      exists (Token t :: s1), s2. split; [reflexivity|].
      rewrite Hat, rev_app_distr, <- app_assoc. exact Hseg.
  - destruct a as [|x' a].
    + cbn [app] in Hs. injection Hs as Hx Hr. subst x rest0.
      exists [Kept c], segs. split; [reflexivity|]. exact H.
    + cbn [app] in Hs. injection Hs as Hx Hr. subst x'.
      destruct (IH a c rest Hr Hc) as (s1 & s2 & -> & Hseg).
      exists (Kept x :: s1), s2. split; [reflexivity|].
      rewrite rev_cons_app. exact Hseg.
Qed.

Lemma tokens_app (x y : list segment) : tokens (x ++ y) = tokens x ++ tokens y.
Proof. apply flat_map_app. Qed.

(** A minus sign in front of a number is taken as its sign wherever the
    character before it is not a letter, digit, underscore, period or
    backslash: after a closing parenthesis or a space as well as after an
    operator.  The signed number is then one literal of the input, one key
    of the table, and the sign is not left in the text as an operator. *)
Theorem minus_is_taken_as_sign (a : pystr) (c : char) (k b : pystr) :
  blocks_start c = false ->
  literal_text int_text (chr "-" :: k) = true ->
  free_after b = true ->
  (exists segs1 segs2,
      map segment_of
          (pieces number_pattern (a ++ c :: chr "-" :: k ++ b))
      = segs1 ++ Token (chr "-" :: k) :: segs2) /\
  In (chr "-" :: k) (literals (a ++ c :: chr "-" :: k ++ b)).
Proof.
  intros Hc Hl Hb.
  assert (H : exists segs1 segs2,
             map segment_of
                 (pieces number_pattern (a ++ c :: chr "-" :: k ++ b))
             = segs1 ++ Token (chr "-" :: k) :: segs2).
  { destruct (cut_passes_minus [] _ _
                (number_segmented (a ++ c :: chr "-" :: k ++ b))
                a c (k ++ b) eq_refl Hc) as (s1 & s2 & Hs & Hseg).
    assert (Htok : number_token int_text (c :: rev a ++ [])
                     (chr "-" :: k) b).
    { split; [cbn [free_before]; rewrite Hc; reflexivity|].
      split; [exact Hl|exact Hb]. }
    destruct (segmented_at_token _ number_token_det _ (chr "-" :: k) b s2
                Htok) as [s2' ->]; [discriminate|exact Hseg|].
    exists s1, s2'. exact Hs. }
  split; [exact H|].
  destruct H as (s1 & s2 & Hs). unfold literals. rewrite Hs, tokens_app.
  apply in_or_app. right. left. reflexivity.
Qed.

Lemma minus_is_taken_as_sign_witness :
  In (chr "-" :: str "1")
     (literals (str "(2" ++ chr ")" :: chr "-" :: str "1" ++ [])).
Proof.
  destruct (minus_is_taken_as_sign (str "(2") (chr ")") (str "1") [])
    as [_ H].
  - reflexivity.
  - vm_compute. reflexivity.
  - reflexivity.
  - exact H.
Defined.

(** What that does to a subtraction written after a parenthesis. *)
Example subtraction_after_parenthesis :
  fst (@extract_numbers text_library (str "(2)-1") fresh_world)
  = inr (str "(NUMBERS['2'])NUMBERS['-1']").
Proof. vm_compute. reflexivity. Qed.

(** ** The ways a run fails *)


